(** * fishbowl-api: framing transport and schema-driven object mapping

    A shallow embedding of [fishbowl/api.py] (frame codec, receive cycle,
    [close], [check_status]) and of [fishbowl/objects.py] ([parse_fields],
    [get_xml_data], the lazy [mapped] property), with the properties the
    specification states about them.

    Python values are an inductive type, exceptions are data, a function
    that may raise returns an [outcome], and code that mutates [self]
    threads the object explicitly. *)

From Stdlib Require Import ZArith List String Ascii Bool Lia.
From Stdlib Require Import Strings.Byte.
From coqutil Require Import Byte.
Import ListNotations.

Local Open Scope string_scope.
Local Open Scope list_scope.
Set Warnings "-register-all".

(** ** Python preliminaries *)

Module Py.

(** The exception classes the two modules raise or let through.  All of
    them derive from [Exception], so an [except Exception] clause catches
    every constructor. *)
Inductive exn : Type :=
| SocketTimeout                          (* socket.timeout *)
| StructError                            (* struct.error *)
| TypeError
| AttributeError
| ValueError
| KeyError
| IndexError
| OSError (msg : string)
| XMLSyntaxError                         (* etree.XMLSyntaxError *)
| FishbowlError (msg : option string)
| FishbowlTimeoutError (msg : string).

Inductive outcome (A : Type) : Type :=
| Ok (a : A)
| Raise (e : exn).
Arguments Ok {A} a.
Arguments Raise {A} e.

Definition bind {A B} (m : outcome A) (k : A -> outcome B) : outcome B :=
  match m with
  | Ok a => k a
  | Raise e => Raise e
  end.

(** [try: m  except Exception: handler] *)
Definition try_except {A} (m : outcome A) (handler : exn -> outcome A) : outcome A :=
  match m with
  | Ok a => Ok a
  | Raise e => handler e
  end.

Definition is_ok {A} (m : outcome A) : bool :=
  match m with Ok _ => true | Raise _ => false end.

(** [for x in xs: s = body(x, s)], stopping at the first exception. *)
Definition for_each {A S} (body : A -> S -> outcome S) : list A -> S -> outcome S :=
  fix loop (xs : list A) (s : S) : outcome S :=
    match xs with
    | [] => Ok s
    | x :: xs' =>
        match body x s with
        | Ok s' => loop xs' s'
        | Raise e => Raise e
        end
    end.

(** *** Insertion-ordered dictionaries with string keys *)

Definition dict (V : Type) : Type := list (string * V).

Fixpoint dict_get {V} (d : dict V) (k : string) : option V :=
  match d with
  | [] => None
  | (k', v) :: d' => if String.eqb k' k then Some v else dict_get d' k
  end.

(** [d[k] = v]: an existing key keeps its position, a new key goes last. *)
Fixpoint dict_set {V} (d : dict V) (k : string) (v : V) : dict V :=
  match d with
  | [] => [(k, v)]
  | (k', v') :: d' =>
      if String.eqb k' k then (k', v) :: d' else (k', v') :: dict_set d' k v
  end.

Fixpoint dict_remove {V} (d : dict V) (k : string) : dict V :=
  match d with
  | [] => []
  | (k', v') :: d' =>
      if String.eqb k' k then d' else (k', v') :: dict_remove d' k
  end.

(** [d.pop(k, None)] *)
Definition dict_pop {V} (d : dict V) (k : string) : option V * dict V :=
  (dict_get d k, dict_remove d k).

Definition keys {V} (d : dict V) : list string := map fst d.

Definition dict_mem {V} (d : dict V) (k : string) : bool :=
  existsb (String.eqb k) (keys d).

(** [d.update(other)] *)
Definition dict_update {V} (d other : dict V) : dict V :=
  fold_left (fun acc kv => dict_set acc (fst kv) (snd kv)) other d.

(** [dict(pairs)] *)
Definition dict_of_pairs {V} (pairs : list (string * V)) : dict V :=
  dict_update [] pairs.

(** *** Strings: [str.lower] and [str.strip]

    A string is the sequence of its code points, each below 256: the
    texts a latin-1 decoding produces, which is how [send_message]
    decodes a response. *)

(** [str.lower] on one code point: the capitals A-Z and, above the ASCII
    range, U+00C0-U+00DE without the multiplication sign U+00D7 move up
    by 32; every other code point below 256 is its own lower case. *)
Definition lower_char (c : ascii) : ascii :=
  let n := nat_of_ascii c in
  if ((65 <=? n)%nat && (n <=? 90)%nat)
     || ((192 <=? n)%nat && (n <=? 222)%nat && negb (n =? 215)%nat)
  then ascii_of_nat (n + 32) else c.

Fixpoint lower (s : string) : string :=
  match s with
  | EmptyString => EmptyString
  | String c s' => String (lower_char c) (lower s')
  end.

(** [str.isspace] on one code point below 256: tab to carriage return,
    the separators U+001C-U+001F, the blank, U+0085 and U+00A0. *)
Definition is_space (c : ascii) : bool :=
  let n := nat_of_ascii c in
  ((9 <=? n)%nat && (n <=? 13)%nat) || ((28 <=? n)%nat && (n <=? 32)%nat)
  || (n =? 133)%nat || (n =? 160)%nat.

Fixpoint lstrip (s : string) : string :=
  match s with
  | EmptyString => EmptyString
  | String c s' => if is_space c then lstrip s' else s
  end.

Fixpoint rstrip (s : string) : string :=
  match s with
  | EmptyString => EmptyString
  | String c s' =>
      match rstrip s' with
      | EmptyString => if is_space c then EmptyString else String c EmptyString
      | t => String c t
      end
  end.

Definition strip (s : string) : string := rstrip (lstrip s).

End Py.
Export Py.

Declare Scope py_scope.
Delimit Scope py_scope with py.
Notation "x <- m ;; k" := (bind m (fun x => k))
  (at level 61, m at next level, right associativity) : py_scope.
Local Open Scope py_scope.

(** ** XML elements (lxml.etree) *)

Module Etree.

Inductive xml : Type :=
| Element (tag : string) (attrib : dict string) (text : option string)
          (children : list xml).

Definition tag (e : xml) : string := let 'Element t _ _ _ := e in t.
Definition attrib (e : xml) : dict string := let 'Element _ a _ _ := e in a.
Definition text (e : xml) : option string := let 'Element _ _ t _ := e in t.
Definition children (e : xml) : list xml := let 'Element _ _ _ c := e in c.

(** [element.get(name)] *)
Definition get (e : xml) (name : string) : option string :=
  dict_get (attrib e) name.

(** [element.find(name)] for a plain tag name: the first matching child. *)
Definition find (e : xml) (name : string) : option xml :=
  List.find (fun c => String.eqb (tag c) name) (children e).

End Etree.
Export Etree.

(** ** fishbowl/api.py *)

(** What [api.py] imports from modules that are not part of the sources at
    hand ([xmlrequests], [statuscodes]) and from lxml.  Every definition
    below is parametric in them. *)
(** What [etree.fromstring] makes of a text. *)
Inductive parsed : Type :=
| Document (root : xml)
| NotWellFormed        (* raises etree.XMLSyntaxError *)
| EncodingDeclared.    (* raises ValueError: a [str] that carries an
                          encoding declaration is refused *)

Class Env : Type := {
  (** [xmlrequests.Login(username, password, logout=..., task_name=...).request] *)
  Login : string -> string -> option string -> option string -> list byte;
  (** [etree.fromstring] on the latin-1 decoding of the received bytes *)
  fromstring : list byte -> parsed;
  (** [statuscodes.get_status] *)
  get_status : option string -> option string
}.

Module Api.

(** *** Frame codec *)

(** [struct.pack(">L", n)] *)
Definition struct_pack_L (n : Z) : outcome (list byte) :=
  if ((0 <=? n) && (n <? 2 ^ 32))%Z then
    Ok [ byte.of_Z (Z.shiftr n 24); byte.of_Z (Z.shiftr n 16);
         byte.of_Z (Z.shiftr n 8); byte.of_Z n ]
  else Raise StructError.

(** [struct.unpack(">L", b)[0]] *)
Definition struct_unpack_L (b : list byte) : outcome Z :=
  match b with
  | [b0; b1; b2; b3] =>
      Ok (Z.lor (Z.shiftl (byte.unsigned b0) 24)
         (Z.lor (Z.shiftl (byte.unsigned b1) 16)
         (Z.lor (Z.shiftl (byte.unsigned b2) 8) (byte.unsigned b3))))
  | _ => Raise StructError
  end.

Definition pack_message (msg : list byte) : outcome (list byte) :=
  let msg_length := Z.of_nat (List.length msg) in
  packed_length <- struct_pack_L msg_length ;;
  Ok (packed_length ++ msg).

(** *** The socket

    What the peer delivers is a queue of events: [Chunk data] is data that
    sits in the receive buffer when [recv] is called ([recv(n)] returns at
    most [n] bytes of it and leaves the rest), [Stall] is a [recv] that
    blocks past the timeout, and an empty [Chunk] is a [recv] that returns
    no bytes.  [Eof] is the peer having closed the connection: from then
    on every [recv] returns no bytes at once, so the event stays in the
    queue and nothing behind it is ever reached.  An empty queue never
    delivers anything, so [recv] times out.  [send] hands over the whole
    buffer, which is recorded in [outgoing]. *)
Inductive event : Type :=
| Chunk (data : list byte)
| Stall
| Eof.

Record socket : Type := mk_socket {
  incoming : list event;
  outgoing : list (list byte);
  closed : bool
}.

Definition set_incoming (s : socket) (evs : list event) : socket :=
  mk_socket evs (outgoing s) (closed s).

Definition recv (n : nat) (s : socket) : outcome (list byte) * socket :=
  if closed s then (Raise (OSError "Bad file descriptor"), s) else
  match incoming s with
  | [] => (Raise SocketTimeout, s)
  | Stall :: rest => (Raise SocketTimeout, set_incoming s rest)
  | Eof :: _ => (Ok [], s)
  | Chunk data :: rest =>
      (Ok (firstn n data),
       set_incoming s match skipn n data with
                      | [] => rest
                      | remainder => Chunk remainder :: rest
                      end)
  end.

Definition send (data : list byte) (s : socket) : outcome unit * socket :=
  if closed s then (Raise (OSError "Bad file descriptor"), s)
  else (Ok tt, mk_socket (incoming s) (outgoing s ++ [data]) (closed s)).

Definition socket_close (s : socket) : socket :=
  mk_socket (incoming s) (outgoing s) true.

(** *** The receive cycle of [send_message]

    [while len(packed_length) < 4: packed_length += recv(4 - len(packed_length))].
    The loop has no bound of its own, and it never ends once the peer has
    closed the connection with the header incomplete; [fuel] counts its
    iterations and [None] is an exhausted count. *)
Fixpoint recv_length (fuel : nat) (s : socket) (packed_length : list byte)
  : option (outcome (list byte) * socket) :=
  if (List.length packed_length <? 4)%nat then
    match fuel with
    | O => None
    | S fuel' =>
        match recv (4 - List.length packed_length) s with
        | (Ok data, s') => recv_length fuel' s' (packed_length ++ data)
        | (Raise e, s') => Some (Raise e, s')
        end
    end
  else Some (Ok packed_length, s).

(** [ord(b)] of a [bytes] object *)
Definition ord (b : list byte) : outcome byte :=
  match b with
  | [x] => Ok x
  | _ => Raise TypeError
  end.

(** [while byte_count < length: byte = ord(recv(1)); byte_count += 1;
    response.append(byte)], by recursion on [length - byte_count]. *)
Fixpoint recv_payload (remaining : nat) (s : socket) (response : list byte)
  : outcome (list byte) * socket :=
  match remaining with
  | O => (Ok response, s)
  | S remaining' =>
      match recv 1 s with
      | (Ok data, s') =>
          match ord data with
          | Ok b => recv_payload remaining' s' (response ++ [b])
          | Raise e => (Raise e, s')
          end
      | (Raise e, s') => (Raise e, s')
      end
  end.

(** The body of the [try] block: the outcome, the [received_length] flag
    at the time the block was left, and the socket.  Every [recv] of the
    header loop ends the loop, uses up an event or meets [Eof]; a loop
    that meets [Eof] never ends, whatever the count, so with one more
    iteration than there are events [None] is a header loop that does not
    end. *)
Definition receive (s : socket) : option (outcome (list byte) * bool * socket) :=
  match recv_length (S (List.length (incoming s))) s [] with
  | None => None
  | Some (Raise e, s1) => Some (Raise e, false, s1)
  | Some (Ok packed_length, s1) =>
      match struct_unpack_L packed_length with
      | Raise e => Some (Raise e, false, s1)
      | Ok length =>
          let '(r, s2) := recv_payload (Z.to_nat length) s1 [] in
          Some (r, true, s2)
      end
  end.

Definition timeout_msg (received_length : bool) : string :=
  if received_length then "Connection timeout (after length received)"
  else "Connection timeout".

(** *** check_status *)

Definition option_string_eqb (a b : option string) : bool :=
  match a, b with
  | Some x, Some y => String.eqb x y
  | None, None => true
  | _, _ => false
  end.

Definition is_some {A} (o : option A) : bool :=
  match o with Some _ => true | None => false end.

(** [element] is [None] when a preceding [find] found nothing; a caller
    that passes no [expected] passes [statuscodes.SUCCESS]. *)
Definition check_status `{Env} (element : option xml)
    (expected : option string) (allow_none : bool) : outcome (option string) :=
  match element with
  | None => Raise AttributeError
  | Some el =>
      let code := get el "statusCode" in
      let message := get el "statusMessage" in
      let message := match message with
                     | None => get_status code
                     | Some _ => message
                     end in
      if negb (option_string_eqb code expected)
         && (is_some code || negb allow_none)
      then Raise (FishbowlError message)
      else Ok message
  end.

(** *** The connection object *)

Record Fishbowl : Type := mk_Fishbowl {
  _connected : bool;
  key : option string;        (* [None] also when the attribute is unset *)
  username : option string;   (* [None]: the attribute is not set yet *)
  task_name : option string;
  stream : socket
}.

Definition set_connected (self : Fishbowl) (b : bool) : Fishbowl :=
  mk_Fishbowl b (key self) (username self) (task_name self) (stream self).
Definition set_key (self : Fishbowl) (k : option string) : Fishbowl :=
  mk_Fishbowl (_connected self) k (username self) (task_name self) (stream self).
Definition set_stream (self : Fishbowl) (s : socket) : Fishbowl :=
  mk_Fishbowl (_connected self) (key self) (username self) (task_name self) s.

(** Truth value of [getattr(self, "key", None)] *)
Definition key_truthy (k : option string) : bool :=
  match k with
  | Some (String _ _) => true
  | _ => false
  end.

(** [close] after the logout exchange: the connected check, the socket
    close and the status check of the logout response.  [logout] is the
    outcome of the [if has_key:] block, with the response if there is one. *)
Definition disconnect `{Env} (has_key : option string)
    (logout : outcome (option xml) * Fishbowl) : outcome unit * Fishbowl :=
  match logout with
  | (Raise e, self) => (Raise e, self)
  | (Ok logout_response, self) =>
      if negb (_connected self) then (Raise (OSError "Not connected"), self)
      else
        let self := set_connected self false in
        let self := set_stream self (socket_close (stream self)) in
        if key_truthy has_key then
          match logout_response with
          | None => (Raise AttributeError, self)   (* not reached *)
          | Some root =>
              (_ <- check_status (find root "FbiMsgsRs") (Some "1010") false ;;
               Ok tt, self)
          end
        else (Ok tt, self)
  end.

(** [except Exception: if not skip_errors: raise] *)
Definition suppress (skip_errors : bool) (r : outcome unit * Fishbowl)
  : outcome unit * Fishbowl :=
  match r with
  | (Raise e, self) => if skip_errors then (Ok tt, self) else (Raise e, self)
  | (Ok _, self) => (Ok tt, self)
  end.

(** [send_message] and [close] call each other; [fuel] bounds the depth of
    the calls and [None] is an exhausted bound.  The request is already
    serialized, and the logging statements are left out. *)
Fixpoint send_message `{Env} (fuel : nat) (self : Fishbowl) (msg : list byte)
  {struct fuel} : option (outcome xml * Fishbowl) :=
  match fuel with
  | O => None
  | S fuel' =>
    if negb (_connected self) then Some (Raise (OSError "Not connected"), self)
    else
    match pack_message msg with
    | Raise e => Some (Raise e, self)
    | Ok framed =>
      match send framed (stream self) with
      | (Raise e, s) => Some (Raise e, set_stream self s)
      | (Ok _, s) =>
        match receive s with
        | None => None
        | Some (Ok response, _, s') =>
            match fromstring response with
            | Document root => Some (Ok root, set_stream self s')
            | NotWellFormed => Some (Raise XMLSyntaxError, set_stream self s')
            | EncodingDeclared => Some (Raise ValueError, set_stream self s')
            end
        | Some (Raise SocketTimeout, received_length, s') =>
            match close fuel' true (set_stream self s') with
            | None => None
            | Some (Raise e, self') => Some (Raise e, self')
            | Some (Ok _, self') =>
                Some (Raise (FishbowlTimeoutError (timeout_msg received_length)),
                      self')
            end
        | Some (Raise e, _, s') => Some (Raise e, set_stream self s')
        end
      end
    end
  end

with close `{Env} (fuel : nat) (skip_errors : bool) (self : Fishbowl)
  {struct fuel} : option (outcome unit * Fishbowl) :=
  match fuel with
  | O => None
  | S fuel' =>
    let has_key := key self in
    let logout : option (outcome (option xml) * Fishbowl) :=
      if key_truthy has_key then
        (* Unset key first to avoid a loop if the logout request fails. *)
        let self := set_key self None in
        match username self with
        | None => Some (Raise AttributeError, self)
        | Some user =>
            let logout_xml := Login user "" (key self) (task_name self) in
            match send_message fuel' self logout_xml with
            | None => None
            | Some (Raise e, self) => Some (Raise e, self)
            | Some (Ok logout_response, self) =>
                Some (Ok (Some logout_response), self)
            end
        end
      else Some (Ok None, self) in
    match logout with
    | None => None
    | Some logout => Some (suppress skip_errors (disconnect has_key logout))
    end
  end.

(** *** Vocabulary of the statements about the transport *)

(** The bytes a socket delivers, cut into the non-empty pieces that
    successive [recv] calls can see. *)
Definition partial_reads (chunks : list (list byte)) : Prop :=
  Forall (fun c => c <> []) chunks.

Definition delivering (chunks : list (list byte)) (tail : list event)
    (sent : list (list byte)) : socket :=
  mk_socket (map Chunk chunks ++ tail) sent false.

(** The peer does not close the connection. *)
Definition peer_stays (s : socket) : Prop := ~ In Eof (incoming s).

(** What the receive cycle can raise. *)
Definition transport_error (e : exn) : Prop :=
  match e with
  | SocketTimeout | TypeError | StructError | OSError _ => True
  | _ => False
  end.

(** The message [check_status] resolves for a node. *)
Definition resolved_message `{Env} (node : xml) : option string :=
  match get node "statusMessage" with
  | Some m => Some m
  | None => get_status (get node "statusCode")
  end.

(** A parser for worked examples that knows one text: the bytes that
    decode to [text] parse to [document], everything else is taken as not
    well-formed. *)
Definition recognise (text : string) (document : xml) (response : list byte)
  : parsed :=
  if String.eqb (string_of_list_byte response) text then Document document
  else NotWellFormed.

(** The frame a peer sends for a text. *)
Definition frame_of (text : string) : list byte :=
  match pack_message (list_byte_of_string text) with
  | Ok framed => framed
  | Raise _ => []
  end.

(** The reply of a server that accepts a logout. *)
Definition logout_reply_text : string :=
  "<FbiXml><FbiMsgsRs statusCode='1010'/></FbiXml>".

Definition logout_reply : xml :=
  Element "FbiXml" [] None
    [Element "FbiMsgsRs" [("statusCode", "1010")] None []].

(** An environment for worked examples: a login request is the user name,
    a separator and the logout key if one is passed; the one response
    that parses is the logout reply. *)
Definition example_env : Env := {|
  Login := fun user _ logout _ =>
    list_byte_of_string user ++ [x7c]
    ++ match logout with
       | Some k => list_byte_of_string k
       | None => []
       end;
  fromstring := recognise logout_reply_text logout_reply;
  get_status := fun code => code
|}.

(** A connected object without a key whose peer sends a length header
    announcing two bytes and then a single byte. *)
Definition example_short_reply : Fishbowl :=
  mk_Fishbowl true None None None
    (mk_socket [Chunk [x00; x00; x00; x02; x41]] [] false).

(** A logged-in object whose peer is silent. *)
Definition example_logged_in : Fishbowl :=
  mk_Fishbowl true (Some "s3cr3t") (Some "admin") None (mk_socket [] [] false).

(** A logged-in object whose peer answers the next request with the
    logout reply, and the object after [close()]. *)
Definition example_logging_out : Fishbowl :=
  mk_Fishbowl true (Some "s3cr3t") (Some "admin") None
    (mk_socket [Chunk (frame_of logout_reply_text)] [] false).

Definition example_logged_out : Fishbowl :=
  mk_Fishbowl false None (Some "admin") None
    (mk_socket [] [[x00; x00; x00; x06; x61; x64; x6d; x69; x6e; x7c]] true).

(** A logged-in object whose peer lets the request time out and then
    answers the logout request with a frame that is not XML. *)
Definition example_garbled_logout : Fishbowl :=
  mk_Fishbowl true (Some "s3cr3t") (Some "admin") None
    (mk_socket [Stall; Chunk [x00; x00; x00; x01; x41]] [] false).

(** The condition under which [check_status] is to fail. *)
Definition status_mismatch (node : xml) (expected : option string)
    (allow_none : bool) : Prop :=
  get node "statusCode" <> expected
  /\ ~ (allow_none = true /\ get node "statusCode" = None).

End Api.

(** ** fishbowl/objects.py *)

Module Objects.

(** *** Values, parsers and classes *)

(** The Python data the mapper reads and produces.  [VDict] is a [dict]
    (or [OrderedDict]); [VObj] is an eagerly built [FishbowlObject], known
    by its class name and its [mapped] dictionary.  Results of other types
    ([Decimal], [datetime]) and XML elements stored inside a dictionary
    are left out. *)
Inductive val : Type :=
| VNone
| VBool (b : bool)
| VInt (z : Z)
| VStr (s : string)
| VList (items : list val)
| VDict (d : list (string * val))
| VObj (cls : string) (mapped : list (string * val)).

(** A field's parser: [None], a callable, a nested field dictionary, a list
    of classes, a class, or a [FishbowlObject] instance. *)
Inductive parser : Type :=
| PNone
| PFun (f : val -> outcome val)
| PDict (fields : list (string * parser))
| PList (classes : list class)
| PClass (c : class)
| PInstance
with class : Type :=
| Class (name : string) (id_field : option string)
        (fields : option (list (string * parser))).

Definition schema : Type := dict parser.

Definition name (c : class) : string := let 'Class n _ _ := c in n.
Definition id_field (c : class) : option string := let 'Class _ i _ := c in i.
Definition fields (c : class) : option schema := let 'Class _ _ f := c in f.

(** [self]: the class and the [custom_fields] given to the constructor. *)
Record instance : Type := mk_instance {
  cls : class;
  custom_fields : option schema
}.

(** [all_fishbowl_objects()]: the classes of the module as
    [inspect.getmembers] lists them, by name.  The definitions are
    parametric in it. *)
Class Registry : Type := {
  all_fishbowl_objects : dict class
}.

(** [bool(v)] *)
Definition truthy (v : val) : bool :=
  match v with
  | VNone => false
  | VBool b => b
  | VInt z => negb (z =? 0)%Z
  | VStr s => negb (String.eqb s "")
  | VList items => negb (Nat.eqb (List.length items) 0)
  | VDict d => negb (Nat.eqb (List.length d) 0)
  | VObj _ mapped => negb (Nat.eqb (List.length mapped) 0)
  end.

(** Truth value of an optional string attribute such as [id_field]. *)
Definition attr_truthy (a : option string) : bool :=
  match a with
  | Some (String _ _) => true
  | _ => false
  end.

(** *** Scalar parsers *)

Definition digit_of (c : ascii) : option Z :=
  let n := nat_of_ascii c in
  if (48 <=? n)%nat && (n <=? 57)%nat then Some (Z.of_nat (n - 48)) else None.

(** Decimal digits, single underscores allowed between two digits. *)
Fixpoint parse_digits (s : string) (acc : Z) (after_digit : bool) : option Z :=
  match s with
  | EmptyString => if after_digit then Some acc else None
  | String c s' =>
      match digit_of c with
      | Some d => parse_digits s' (10 * acc + d)%Z true
      | None =>
          if Ascii.eqb c "_" && after_digit then parse_digits s' acc false
          else None
      end
  end.

(** The blanks [int] skips around a number: tab to carriage return and
    the blank, and of the code points above the ASCII range those that
    are spaces (U+0085 and U+00A0); the separators U+001C-U+001F are not
    among them. *)
Definition is_int_space (c : ascii) : bool :=
  let n := nat_of_ascii c in
  ((9 <=? n)%nat && (n <=? 13)%nat) || (n =? 32)%nat
  || (n =? 133)%nat || (n =? 160)%nat.

Fixpoint int_lstrip (s : string) : string :=
  match s with
  | EmptyString => EmptyString
  | String c s' => if is_int_space c then int_lstrip s' else s
  end.

Fixpoint int_rstrip (s : string) : string :=
  match s with
  | EmptyString => EmptyString
  | String c s' =>
      match int_rstrip s' with
      | EmptyString =>
          if is_int_space c then EmptyString else String c EmptyString
      | t => String c t
      end
  end.

Fixpoint count_digits (s : string) : nat :=
  match s with
  | EmptyString => O
  | String c s' =>
      match digit_of c with
      | Some _ => S (count_digits s')
      | None => count_digits s'
      end
  end.

(** [sys.int_max_str_digits], at its default: [int] refuses a text with
    more digits. *)
Definition int_max_str_digits : nat := 4300.

Definition int_of_digits (r : string) : option Z :=
  if (int_max_str_digits <? count_digits r)%nat then None
  else parse_digits r 0%Z false.

Definition int_of_string (s : string) : option Z :=
  match int_rstrip (int_lstrip s) with
  | String "-" r => option_map Z.opp (int_of_digits r)
  | String "+" r => int_of_digits r
  | r => int_of_digits r
  end.

(** The builtin [int] on the values of the model.  Below 256 the decimal
    digits are 0-9. *)
Definition py_int (v : val) : outcome val :=
  match v with
  | VStr s =>
      match int_of_string s with
      | Some z => Ok (VInt z)
      | None => Raise ValueError
      end
  | VInt z => Ok (VInt z)
  | VBool b => Ok (VInt (if b then 1 else 0)%Z)
  | _ => Raise TypeError
  end.

Definition fishbowl_boolean (text : val) : outcome val :=
  if negb (truthy text) then Ok (VBool false)
  else
    match text with
    | VStr s =>
        let l := lower s in
        if String.eqb l "0" || String.eqb l "false" || String.eqb l "f"
        then Ok (VBool false)
        else Ok (VBool true)
    | _ => Raise AttributeError   (* no [lower] method *)
    end.

(** *** get_xml_data *)

Definition strip_text (el : xml) : string :=
  match text el with
  | Some (String c t) => strip (String c t)
  | _ => ""
  end.

Definition text_value (el : xml) : val :=
  match text el with
  | Some t => VStr t
  | None => VNone
  end.

Fixpoint get_xml_data (base_el : xml) : dict val :=
  let 'Element _ _ _ els := base_el in
  fold_left
    (fun data child =>
       let 'Element key _ _ grandchildren := child in
       match grandchildren with
       | [] => dict_set data key (text_value child)
       | _ :: _ =>
           if existsb (fun el => negb (String.eqb (strip_text el) ""))
                      grandchildren
           then dict_set data key (VDict (get_xml_data child))
           else
             let inner :=
               map (fun el => VDict [(tag el, VDict (get_xml_data el))])
                   grandchildren in
             dict_set data key (VList inner)
       end)
    els [].

(** [get_xml_data] reached with data that is neither [None], a [dict] nor
    an element: iterating the data either yields nothing, and the result is
    empty, or fails on the first item ([len(child)], then [child.tag]). *)
Definition get_xml_data_value (data : val) : outcome (dict val) :=
  match data with
  | VStr "" | VList [] | VObj _ [] => Ok []
  | VNone | VBool _ | VInt _ => Raise TypeError
  | VList ((VNone | VBool _ | VInt _) :: _) => Raise TypeError
  | _ => Raise AttributeError
  end.

(** *** parse_fields *)

(** [data_map = dict((k.lower(), k) for k in data)] *)
Definition data_map (data : dict val) : dict string :=
  dict_of_pairs (map (fun k => (lower k, k)) (keys data)).

(** [data.get(key)] in continuation style: [found] receives the value. *)
Definition lookup_k {A} (key : string) (found : val -> A) (missing : A)
  : dict val -> A :=
  fix get (d : dict val) : A :=
    match d with
    | [] => missing
    | (k, v) :: d' => if String.eqb k key then found v else get d'
    end.

(** [fields = self.fields], updated with [self.custom_fields]. *)
Definition effective_fields (self : instance) (fields_arg : option schema)
  : outcome schema :=
  match fields_arg with
  | Some fields => Ok fields
  | None =>
      match fields (cls self) with
      | None => Raise AttributeError
      | Some fields =>
          match custom_fields self with
          | Some (c :: cs) => Ok (dict_update fields (c :: cs))
          | _ => Ok fields
          end
      end
  end.

(** [items = list(fields.items())], with the synthesized [("ID", int)]. *)
Definition items_of (self : instance) (fields : schema) : list (string * parser) :=
  if attr_truthy (id_field (cls self)) && negb (dict_mem fields "ID")
  then fields ++ [("ID", PFun py_int)]
  else fields.

(** The final step: move ["ID"] under [self.id_field]. *)
Definition rename_id (self : instance) (output : dict val) : dict val :=
  match id_field (cls self) with
  | Some (String c t) =>
      let idf := String c t in
      if negb (dict_mem output idf) then
        let '(value, output) := dict_pop output "ID" in
        match value with
        | Some v => if truthy v then dict_set output idf v else output
        | None => output
        end
      else output
  | _ => output
  end.

Section Resolve.

Context `{Registry}.

(** The recursive call [parse_fields(data, fields)] on an object. *)
Variable parse : val -> instance -> option schema -> outcome (dict val).

(** [c(data)]: [FishbowlObject.__init__] with [data] alone. *)
Definition construct (c : class) (data : val) : outcome val :=
  match data with
  | VNone => Raise AttributeError
  | _ =>
      mapped <- parse data (mk_instance c None) None ;;
      Ok (VObj (name c) mapped)
  end.

Definition class_table (candidates : list class) : dict class :=
  match candidates with
  | [] => all_fishbowl_objects
  | _ :: _ => dict_of_pairs (map (fun c => (name c, c)) candidates)
  end.

(** [for tag, child in value_item.items(): ...] *)
Definition resolve_children (classes : dict class)
  : dict val -> list val -> outcome (list val) :=
  for_each (fun (pair : string * val) new_value =>
              let '(tag, child) := pair in
              match dict_get classes tag with
              | None => Ok new_value
              | Some child_parser =>
                  v <- construct child_parser child ;;
                  Ok (new_value ++ [v])
              end).

Definition resolve_item (classes : dict class) (value_item : val)
    (new_value : list val) : outcome (list val) :=
  match value_item with
  | VStr "{}" => Ok new_value
  | VDict pairs => resolve_children classes pairs new_value
  | VObj _ pairs => resolve_children classes pairs new_value
  | _ => Raise AttributeError   (* no [items] method *)
  end.

Definition resolve_list (candidates : list class) (value : val)
  : outcome val :=
  let classes := class_table candidates in
  new_value <- match value with
               | VList items => for_each (resolve_item classes) items []
               | _ => resolve_item classes value []
               end ;;
  Ok (VList new_value).

Definition resolve_nested (self : instance) (nested : schema) (value : val)
  : outcome val :=
  match value with
  | VList [] => Raise IndexError
  | VList (first :: _) =>
      r <- parse first self (Some nested) ;; Ok (VDict r)
  | _ => r <- parse value self (Some nested) ;; Ok (VDict r)
  end.

(** The branches of the loop body on a value that is not [None];
    [Ok None] stands for [continue]. *)
Definition resolve_field (self : instance) (p : parser) (value : val)
  : outcome (option val) :=
  match p with
  | PDict nested =>
      if negb (truthy value) then Ok None
      else v <- resolve_nested self nested value ;; Ok (Some v)
  | PList candidates =>
      v <- resolve_list candidates value ;; Ok (Some v)
  | PInstance => Raise TypeError   (* an instance is not callable *)
  | PNone => Ok (Some value)
  | PFun f =>
      try_except (v <- f value ;; Ok (Some v)) (fun _ => Ok None)
  | PClass c =>
      try_except (v <- construct c value ;; Ok (Some v)) (fun _ => Ok None)
  end.

(** One iteration of [for field_name, parser in items]. *)
Definition parse_item (self : instance) (data : dict val)
    (item : string * parser) (output : dict val) : outcome (dict val) :=
  let '(field_name, p) := item in
  match dict_get (data_map data) (lower field_name) with
  | None => Ok output
  | Some key =>
      lookup_k key
        (fun value =>
           match value with
           | VNone => Ok output
           | _ =>
               r <- resolve_field self p value ;;
               match r with
               | None => Ok output
               | Some v => Ok (dict_set output field_name v)
               end
           end)
        (Ok output) data
  end.

(** [parse_fields] from the point where [data] is a dictionary. *)
Definition parse_mapping (self : instance) (fields : schema)
    (data : dict val) : outcome (dict val) :=
  output <- for_each (parse_item self data) (items_of self fields) [] ;;
  Ok (rename_id self output).

End Resolve.

(** [parse_fields] on Python data, by recursion on the data.  In the last
    branch the dictionary [get_xml_data_value] returns is empty, so no
    field finds a value and nothing is parsed further. *)
Fixpoint parse_value `{Registry} (data : val) (self : instance)
    (fields_arg : option schema) {struct data} : outcome (dict val) :=
  match data with
  | VNone => Ok []
  | VDict d =>
      fields <- effective_fields self fields_arg ;;
      parse_mapping (fun v i f => parse_value v i f) self fields d
  | other =>
      fields <- effective_fields self fields_arg ;;
      d <- get_xml_data_value other ;;
      parse_mapping (fun _ _ _ => Raise TypeError) self fields d
  end.

(** What a caller hands to a class: an XML element or Python data. *)
Inductive source : Type :=
| FromXml (el : xml)
| FromValue (v : val).

Definition parse_fields `{Registry} (self : instance) (data : source)
    (fields_arg : option schema) : outcome (dict val) :=
  match data with
  | FromXml el => parse_value (VDict (get_xml_data el)) self fields_arg
  | FromValue v => parse_value v self fields_arg
  end.

(** *** Objects and the lazy [mapped] property *)

Section Lazy.

Context `{Registry}.

(** The state a loader reads and changes (a connection, a counter). *)
Variable World : Type.

(** A zero-argument callable: it may raise, and it may change the world. *)
Definition loader : Type := World -> outcome source * World.

Record FishbowlObject : Type := mk_FishbowlObject {
  self_ : instance;
  _lazy_load : option loader;
  _mapped : option (dict val)       (* [None]: no [_mapped] attribute *)
}.

Definition is_none (data : source) : bool :=
  match data with
  | FromValue VNone => true
  | _ => false
  end.

(** [c(data=..., lazy_data=..., custom_fields=...)] *)
Definition init (c : class) (data : source) (lazy_data : option loader)
    (custom : option schema) : outcome FishbowlObject :=
  if negb (xorb (is_none data)
                (match lazy_data with None => true | Some _ => false end))
  then Raise AttributeError
  else
    let self := mk_instance c custom in
    if negb (is_none data) then
      m <- parse_fields self data None ;;
      Ok (mk_FishbowlObject self lazy_data (Some m))
    else Ok (mk_FishbowlObject self lazy_data None).

(** An object, the world, and the number of times [_lazy_load] has been
    called so far. *)
Record heap : Type := mk_heap {
  obj : FishbowlObject;
  world : World;
  loads : nat
}.

(** The [mapped] property. *)
Definition mapped (h : heap) : outcome (dict val) * heap :=
  match _mapped (obj h) with
  | Some m => (Ok m, h)
  | None =>
      match _lazy_load (obj h) with
      | None => (Raise TypeError, h)
      | Some load =>
          let '(r, w) := load (world h) in
          let h := mk_heap (obj h) w (S (loads h)) in
          match r with
          | Raise e => (Raise e, h)
          | Ok data =>
              match parse_fields (self_ (obj h)) data None with
              | Raise e => (Raise e, h)
              | Ok m =>
                  let o := mk_FishbowlObject (self_ (obj h))
                                             (_lazy_load (obj h)) (Some m) in
                  (Ok m, mk_heap o w (loads h))
              end
          end
      end
  end.

(** [__getitem__] *)
Definition getitem (k : string) (h : heap) : outcome val * heap :=
  match mapped h with
  | (Raise e, h) => (Raise e, h)
  | (Ok m, h) =>
      match dict_get m k with
      | Some v => (Ok v, h)
      | None => (Raise KeyError, h)
      end
  end.

(** A run of accesses [obj[k]], each in its own [try]. *)
Fixpoint accesses (ks : list string) (h : heap) : heap :=
  match ks with
  | [] => h
  | k :: ks' => accesses ks' (snd (getitem k h))
  end.

End Lazy.

(** *** Vocabulary of the statements about the mapper *)

(** A source key matches a field name when their lower-case forms agree. *)
Definition matches (field_name k : string) : bool :=
  String.eqb (lower k) (lower field_name).

(** The last source key that matches, in the order of the source. *)
Definition last_match (field_name : string) (ks : list string) : option string :=
  List.find (matches field_name) (rev ks).

(** The first source key that matches: the rule "first match wins". *)
Definition first_match (field_name : string) (ks : list string) : option string :=
  List.find (matches field_name) ks.

(** The value the source holds for a field: that of the last matching
    key; [None] when no key matches or the value is Python's [None]. *)
Definition source_value (data : dict val) (field_name : string) : option val :=
  match last_match field_name (keys data) with
  | None => None
  | Some key =>
      match dict_get data key with
      | None | Some VNone => None
      | Some value => Some value
      end
  end.

(** The loop [for field_name, parser in items] of [parse_fields], started
    on [output]. *)
Definition map_items `{Registry} (self : instance) (data : dict val)
    (items : list (string * parser)) (output : dict val) : outcome (dict val) :=
  for_each (parse_item (fun v i f => parse_value v i f) self data) items output.

(** A loader that counts its invocations in the world and returns a row. *)
Definition counting_loader : loader nat :=
  fun n => (Ok (FromValue (VDict [("id", VStr "7"); ("num", VStr "x")])), S n).

(** A loader that counts its invocations and fails, as a request on a
    closed connection does. *)
Definition failing_loader : loader nat :=
  fun n => (Raise (OSError "Not connected"), S n).

(** A lazily constructed object of class [c], before any access. *)
Definition lazy_heap (c : class) (load : loader nat) : heap nat :=
  mk_heap nat (mk_FishbowlObject nat (mk_instance c None) (Some load) None) 0 0.

(** A registry without classes, for worked examples. *)
Definition empty_registry : Registry := {| all_fishbowl_objects := [] |}.

(** [fields = {"ID": int, "Name": None}] *)
Definition Widget : class :=
  Class "Widget" None (Some [("ID", PFun py_int); ("Name", PNone)]).

(** [id_field = "PartID"], no ["ID"] field and no ["PartID"] field. *)
Definition Item : class :=
  Class "Item" (Some "PartID") (Some [("Num", PNone)]).

(** The head of the shipped [Part] class: [id_field = "PartID"] and a
    declared ["PartID"] field, no ["ID"] field. *)
Definition PartHead : class :=
  Class "Part" (Some "PartID") (Some [("PartID", PFun py_int); ("Num", PNone)]).



End Objects.

(** ** fishbowl/api.py: connecting, simple requests, the context manager *)

(** What these functions take from outside the sources at hand: the
    password digest of [connect], two request builders of [xmlrequests],
    [statuscodes.SUCCESS], and whether the builtin [float] accepts a
    value. *)
Class SessionEnv : Type := {
  (** [base64.b64encode(hashlib.md5(password.encode(encoding)).digest()).decode("ascii")] *)
  password_digest : string -> string;
  (** [xmlrequests.Login(username, password, task_name=...).request] *)
  LoginRequest : string -> string -> option string -> list byte;
  (** [xmlrequests.SimpleRequest(request, value, key=...)], serialized *)
  SimpleRequest : string -> Objects.val -> option string -> list byte;
  (** [statuscodes.SUCCESS], the default of [expected] in [check_status] *)
  SUCCESS : option string;
  (** [float(timeout)] *)
  float : Objects.val -> outcome unit
}.

Module Session.

Import Api Objects.

(** The exceptions of [Py], and the one [make_stream] adds. *)
Inductive session_exn : Type :=
| Std (e : exn)
| FishbowlConnectionError (msg : string).

Inductive result (A : Type) : Type :=
| Return (a : A)
| Throw (e : session_exn).
Arguments Return {A} a.
Arguments Throw {A} e.

(** *** make_stream *)

(** What [stream.connect] meets: a peer that accepts, with the socket the
    connection then is, or a [socket.error] with its [strerror]. *)
Inductive connect_result : Type :=
| Accepted (s : socket)
| Refused (strerror : option string).

(** The outcome of each connection attempt, by attempt number. *)
Definition network : Type := nat -> connect_result.

(** The result of [make_stream], the number of attempts made so far and
    the seconds slept. *)
Record dial : Type := mk_dial {
  dialed : result socket;
  attempts : nat;
  slept : nat
}.

(** The [while True] loop, by recursion on [retry] (a count, not
    negative).  An error without [strerror] has no [message] attribute
    either, so reading it raises [AttributeError].  The timeouts set on
    the socket are left out. *)
Fixpoint make_stream (net : network) (attempt seconds retry : nat) : dial :=
  match net attempt with
  | Accepted s => mk_dial (Return s) (S attempt) seconds
  | Refused strerror =>
      match strerror with
      | Some (String c t) =>
          match retry with
          | O => mk_dial (Throw (FishbowlConnectionError (String c t)))
                         (S attempt) seconds
          | S retry' => make_stream net (S attempt) (seconds + 5) retry'
          end
      | _ => mk_dial (Throw (Std AttributeError)) (S attempt) seconds
      end
  end.

(** *** connect *)

Definition set_username (self : Fishbowl) (u : option string) : Fishbowl :=
  mk_Fishbowl (_connected self) (key self) u (task_name self) (stream self).

(** [Fishbowl(task_name)]: not connected, no [key], no [username].  The
    object has no [stream] yet; the closed socket stands for it and is
    never used while [_connected] is false. *)
Definition new_Fishbowl (task : option string) : Fishbowl :=
  mk_Fishbowl false None None task (mk_socket [] [] true).

(** [response.iter()]: the element and its descendants, in document order. *)
Fixpoint iter (e : xml) : list xml :=
  let 'Element _ _ _ cs := e in
  e :: flat_map iter cs.

Definition is_status_tag (t : string) : bool :=
  String.eqb t "loginRs" || String.eqb t "LoginRs" || String.eqb t "FbiMsgsRs".

(** [for element in response.iter(): ...] of [connect] *)
Fixpoint scan_login `{Env} `{SessionEnv} (elements : list xml) (self : Fishbowl)
  : outcome unit * Fishbowl :=
  match elements with
  | [] => (Ok tt, self)
  | element :: rest =>
      let self := if String.eqb (tag element) "Key"
                  then set_key self (text element) else self in
      if is_status_tag (tag element) then
        match check_status (Some element) SUCCESS true with
        | Raise e => (Raise e, self)
        | Ok _ => scan_login rest self
        end
      else scan_login rest self
  end.

(** The [try] block of [connect] after the login response has arrived. *)
Definition read_login `{Env} `{SessionEnv} (response : xml) (self : Fishbowl)
  : outcome unit * Fishbowl :=
  match scan_login (iter response) self with
  | (Raise e, self) => (Raise e, self)
  | (Ok _, self) =>
      if key_truthy (key self) then (Ok tt, self)
      else (Raise (FishbowlError (Some "No login key in response")), self)
  end.

(** [connect]; [fuel] is passed on to [close] and [send_message].  The
    [host] and [port] attributes only tell [make_stream] where to go,
    which is [net] here. *)
Definition connect `{Env} `{SessionEnv} (fuel : nat) (net : network)
    (self : Fishbowl) (user password : string) (port timeout : val)
  : option (result unit * Fishbowl) :=
  let password := password_digest password in
  match (if _connected self then close fuel false self
         else Some (Ok tt, self)) with
  | None => None
  | Some (Raise e, self) => Some (Throw (Std e), self)
  | Some (Ok _, self) =>
      match py_int port with
      | Raise e => Some (Throw (Std e), self)
      | Ok _ =>
          match float timeout with
          | Raise e => Some (Throw (Std e), self)
          | Ok _ =>
              match dialed (make_stream net 0 0 3) with
              | Throw e => Some (Throw e, self)
              | Return s =>
                  let self := set_stream self s in
                  let self := set_connected self true in
                  (* try: *)
                  let self := set_key self None in
                  let login_xml :=
                    LoginRequest user password (task_name self) in
                  match send_message fuel self login_xml with
                  | None => None
                  | Some (r, self) =>
                      match match r with
                            | Raise e => (Raise e, self)
                            | Ok response => read_login response self
                            end with
                      | (Ok _, self) =>
                          Some (Return tt, set_username self (Some user))
                      | (Raise e, self) =>
                          (* except Exception: close(skip_errors=True); raise *)
                          match close fuel true self with
                          | None => None
                          | Some (Raise e', self) => Some (Throw (Std e'), self)
                          | Some (Ok _, self) => Some (Throw (Std e), self)
                          end
                      end
                  end
              end
          end
      end
  end.

(** *** send_request *)

(** [etree.Element("empty")] *)
Definition empty_element : xml := Element "empty" [] None [].

(** A request object, already serialized, or the name of the base node
    with its value. *)
Inductive request : Type :=
| RequestObject (serialized : list byte)
| RequestName (name : string) (value : val).

(** [send_request] from the response on. *)
Definition select_response `{Env} `{SessionEnv} (root : xml)
    (response_node_name : option string) (single silence_errors : bool)
  : outcome xml :=
  match response_node_name with
  | Some (String c t) =>
      let checked : outcome xml :=
        let resp := find root "FbiMsgsRs" in
        _ <- check_status resp SUCCESS true ;;
        let root := match resp with
                    | Some r => find r (String c t)
                    | None => None
                    end in
        _ <- check_status root SUCCESS true ;;
        match root with
        | Some node => Ok node
        | None => Raise AttributeError
        end in
      match checked with
      | Raise (FishbowlError m) =>
          if silence_errors then Ok empty_element
          else Raise (FishbowlError m)
      | Raise (FishbowlTimeoutError m) =>
          if silence_errors then Ok empty_element
          else Raise (FishbowlTimeoutError m)
      | Raise e => Raise e
      | Ok root =>
          if single then
            match children root with
            | first :: _ => Ok first
            | [] => Ok empty_element
            end
          else Ok root
      end
  | _ => Ok root
  end.

Definition send_request `{Env} `{SessionEnv} (fuel : nat) (self : Fishbowl)
    (req : request) (response_node_name : option string)
    (single silence_errors : bool) : option (outcome xml * Fishbowl) :=
  if negb (_connected self) then Some (Raise (OSError "Not connected"), self)
  else
    let msg := match req with
               | RequestName name value => SimpleRequest name value (key self)
               | RequestObject serialized => serialized
               end in
    match send_message fuel self msg with
    | None => None
    | Some (Raise e, self) => Some (Raise e, self)
    | Some (Ok root, self) =>
        Some (select_response root response_node_name single silence_errors,
              self)
    end.

(** *** FishbowlAPI *)

(** [__enter__]: a new object, connected. *)
Definition enter `{Env} `{SessionEnv} (fuel : nat) (net : network)
    (task : option string) (user password : string) (port timeout : val)
  : option (result unit * Fishbowl) :=
  connect fuel net (new_Fishbowl task) user password port timeout.

(** [__exit__]: [traceback] tells whether the body raised. *)
Definition exit `{Env} (fuel : nat) (traceback : bool) (self : Fishbowl)
  : option (outcome unit * Fishbowl) :=
  match close fuel traceback self with
  | Some (Raise (FishbowlTimeoutError _), self) => Some (Ok tt, self)
  | r => r
  end.

(** *** Vocabulary of the statements about the session *)

(** Nothing more arrives: the queue is empty or its next [recv] stalls. *)
(** [element.iter(tag)]: the elements of the tree that bear the tag, in
    document order. *)
Definition iter_tag (e : xml) (t : string) : list xml :=
  filter (fun el => String.eqb (tag el) t) (iter e).

(** [add_inventory] and [cycle_inventory] after the request is built:
    send it, then
    [for element in response.iter(rs): check_status(element, allow_none=True)]. *)
Definition send_checked `{Env} `{SessionEnv} (fuel : nat) (self : Fishbowl)
    (request : list byte) (rs : string) : option (outcome unit * Fishbowl) :=
  if negb (_connected self) then Some (Raise (OSError "Not connected"), self)
  else
    match send_message fuel self request with
    | None => None
    | Some (Raise e, self) => Some (Raise e, self)
    | Some (Ok response, self) =>
        Some (for_each
                (fun element _ =>
                   _ <- check_status (Some element) SUCCESS true ;; Ok tt)
                (iter_tag response rs) tt,
              self)
    end.

(** [request] is [xmlrequests.AddInventory(partnum, qty, uomid, cost,
    loctagnum, key=...)], serialized, as a function of the key. *)
Definition add_inventory `{Env} `{SessionEnv} (fuel : nat) (self : Fishbowl)
    (request : option string -> list byte)
  : option (outcome unit * Fishbowl) :=
  send_checked fuel self (request (key self)) "AddInventoryRs".

(** [request] is [xmlrequests.CycleCount(partnum, qty, locationid,
    key=...)], serialized, as a function of the key. *)
Definition cycle_inventory `{Env} `{SessionEnv} (fuel : nat) (self : Fishbowl)
    (request : option string -> list byte)
  : option (outcome unit * Fishbowl) :=
  send_checked fuel self (request (key self)) "CycleCountRs".

Definition silent (tail : list event) : Prop :=
  tail = [] \/ exists rest, tail = Stall :: rest.

(** The queue once the stall, if there is one, has been met. *)
Definition after_stall (tail : list event) : list event :=
  match tail with
  | Stall :: rest => rest
  | other => other
  end.

(** Attempts [first] to [first + n - 1] are refused, each with a text. *)
Definition refused_with_text (net : network) (first n : nat) : Prop :=
  forall i, (i < n)%nat ->
    exists c t, net (first + i)%nat = Refused (Some (String c t)).

(** An environment for worked examples, beside [example_env]. *)
Definition example_session_env : SessionEnv := {|
  password_digest := fun p => p;
  LoginRequest := fun user _ _ => list_byte_of_string user;
  SimpleRequest := fun name _ _ => list_byte_of_string name;
  SUCCESS := Some "1000";
  float := fun _ => Ok tt
|}.

(** A network that refuses twice and then accepts a silent peer. *)
Definition example_network : network :=
  fun i =>
    match i with
    | 0%nat | 1%nat => Refused (Some "Connection refused")
    | _ => Accepted (mk_socket [] [] false)
    end.

(** A response to a query, and an environment that parses it. *)
Definition example_reply_text : string :=
  String.append
    "<FbiXml><FbiMsgsRs statusCode='1000'><ExecuteQueryRs statusCode='1000'>"
    "<Rows><Row>a,b</Row></Rows></ExecuteQueryRs></FbiMsgsRs></FbiXml>".

Definition example_reply : xml :=
  Element "FbiXml" [] None
    [Element "FbiMsgsRs" [("statusCode", "1000")] None
       [Element "ExecuteQueryRs" [("statusCode", "1000")] None
          [Element "Rows" [] None [Element "Row" [] (Some "a,b") []]]]].

Definition example_reply_env : Env := {|
  Login := fun user _ _ _ => list_byte_of_string user;
  fromstring := recognise example_reply_text example_reply;
  get_status := fun code => code
|}.

(** A login response that carries a key and then a failing status, and an
    environment that parses it. *)
Definition example_rejected_login_text : string :=
  String.append
    "<FbiXml><Ticket><Key>k3y</Key></Ticket>"
    "<FbiMsgsRs statusCode='1120'/></FbiXml>".

Definition example_rejected_login : xml :=
  Element "FbiXml" [] None
    [Element "Ticket" [] None [Element "Key" [] (Some "k3y") []];
     Element "FbiMsgsRs" [("statusCode", "1120")] None []].

Definition example_rejecting_env : Env := {|
  Login := fun user _ _ _ => list_byte_of_string user;
  fromstring :=
    recognise example_rejected_login_text example_rejected_login;
  get_status := fun code => code
|}.

End Session.

(** ** fishbowl/objects.py: flattening and the shape of converted XML *)

Module Views.

Import Objects.

(** [squash_obj]; an object is flattened through its [mapped]
    dictionary, as [obj.squash()] does. *)
Fixpoint squash_obj (obj : val) : val :=
  match obj with
  | VDict d =>
      VDict (dict_of_pairs (map (fun kv => (fst kv, squash_obj (snd kv))) d))
  | VList items => VList (map squash_obj items)
  | VObj _ mapped =>
      VDict (dict_of_pairs
               (map (fun kv => (fst kv, squash_obj (snd kv))) mapped))
  | other => other
  end.

(** [squash] of an object with the given [mapped] dictionary. *)
Definition squash (mapped : dict val) : val := squash_obj (VDict mapped).

(** Whether a [FishbowlObject] occurs in a value. *)
Fixpoint has_object (v : val) : bool :=
  match v with
  | VDict d => existsb (fun kv => has_object (snd kv)) d
  | VList items => existsb has_object items
  | VObj _ _ => true
  | _ => false
  end.

(** Dictionaries have distinct keys, at every depth. *)
Fixpoint well_keyed (v : val) : Prop :=
  match v with
  | VDict d =>
      NoDup (keys d)
      /\ (fix all (d : dict val) : Prop :=
            match d with
            | [] => True
            | kv :: d' => well_keyed (snd kv) /\ all d'
            end) d
  | VList items =>
      (fix all (l : list val) : Prop :=
         match l with
         | [] => True
         | x :: l' => well_keyed x /\ all l'
         end) items
  | VObj _ mapped =>
      NoDup (keys mapped)
      /\ (fix all (d : dict val) : Prop :=
            match d with
            | [] => True
            | kv :: d' => well_keyed (snd kv) /\ all d'
            end) mapped
  | _ => True
  end.


(** [id_field = "OrderID"],
    [fields = {"ID": int, "Owner": Widget, "Tags": [], "Unit": {"Name": None}}] *)
Definition Order : class :=
  Class "Order" (Some "OrderID")
    (Some [("ID", PFun py_int); ("Owner", PClass Widget); ("Tags", PList []);
           ("Unit", PDict [("Name", PNone)])]).

(** What [get_xml_data] stores for one child of the element. *)
Definition child_value (child : xml) : val :=
  match children child with
  | [] => text_value child
  | _ :: _ =>
      if existsb (fun el => negb (String.eqb (strip_text el) ""))
                 (children child)
      then VDict (get_xml_data child)
      else VList (map (fun el => VDict [(tag el, VDict (get_xml_data el))])
                      (children child))
  end.

End Views.

(** * Properties *)

Import Api Objects.

(** ** The frame codec and the receive cycle *)

Section Framing.

Local Open Scope Z_scope.

(** Below [2 ^ k] the bits of [lo] and of [hi] shifted by [k] do not meet. *)
Lemma lor_shiftl_add (hi lo k : Z) :
  0 <= k -> 0 <= lo < 2 ^ k ->
  Z.lor (Z.shiftl hi k) lo = hi * 2 ^ k + lo.
Proof.
  intros Hk Hlo.
  rewrite <- Z.shiftl_mul_pow2 by assumption.
  rewrite <- Z.lxor_lor, Z.add_nocarry_lxor; try reflexivity.
  all: apply Z.bits_inj'; intros i Hi; rewrite Z.land_spec, Z.bits_0.
  all: destruct (Z.lt_ge_cases i k) as [Hlt|Hge].
  all: try (rewrite Z.shiftl_spec_low by assumption; reflexivity).
  all: rewrite <- (Z.mod_small lo (2 ^ k)) by assumption.
  all: rewrite Z.mod_pow2_bits_high by lia; apply andb_false_r.
Qed.

Lemma struct_unpack_pack (n : Z) :
  0 <= n < 2 ^ 32 ->
  bind (struct_pack_L n) struct_unpack_L = Ok n.
Proof.
  intros Hn. unfold struct_pack_L.
  replace ((0 <=? n) && (n <? 2 ^ 32))%bool with true
    by (symmetry; apply andb_true_iff; split;
        [apply Z.leb_le | apply Z.ltb_lt]; lia).
  cbn [bind struct_unpack_L]. f_equal.
  rewrite !byte.unsigned_of_Z. unfold byte.wrap.
  rewrite !Z.shiftr_div_pow2 by lia.
  change (2 ^ 8) with 256; change (2 ^ 16) with 65536;
    change (2 ^ 24) with 16777216; change (2 ^ 32) with 4294967296 in Hn.
  pose proof (Z.mod_pos_bound (n / 16777216) 256 eq_refl) as H0.
  pose proof (Z.mod_pos_bound (n / 65536) 256 eq_refl) as H1.
  pose proof (Z.mod_pos_bound (n / 256) 256 eq_refl) as H2.
  pose proof (Z.mod_pos_bound n 256 eq_refl) as H3.
  rewrite (lor_shiftl_add _ (n mod 256) 8) by (cbn; lia).
  rewrite (lor_shiftl_add ((n / 65536) mod 256) _ 16) by (cbn; lia).
  rewrite (lor_shiftl_add ((n / 16777216) mod 256) _ 24) by (cbn; lia).
  change (2 ^ 8) with 256; change (2 ^ 16) with 65536;
    change (2 ^ 24) with 16777216.
  clear H0 H1 H2 H3. Z.div_mod_to_equations. lia.
Qed.

Lemma struct_pack_L_length (n : Z) (b : list byte) :
  struct_pack_L n = Ok b -> List.length b = 4%nat.
Proof.
  unfold struct_pack_L.
  destruct ((0 <=? n) && (n <? 2 ^ 32))%bool; intros E; inversion E; reflexivity.
Qed.

End Framing.

Section Chunks.

(** One [recv]: a non-empty prefix of the pending data, no longer than
    asked for, and the rest is still pending. *)
Lemma recv_partial (n : nat) chunks tail sent :
  (0 < n)%nat -> partial_reads chunks -> List.concat chunks <> [] ->
  exists k chunks',
    (0 < k <= n)%nat /\ (k <= List.length (List.concat chunks))%nat /\
    recv n (delivering chunks tail sent)
      = (Ok (firstn k (List.concat chunks)), delivering chunks' tail sent) /\
    partial_reads chunks' /\ List.concat chunks' = skipn k (List.concat chunks) /\
    (k = n \/ List.length chunks' < List.length chunks)%nat.
Proof.
  intros Hn Hne Hdata.
  destruct chunks as [|c cs]; [now elim Hdata|].
  inversion Hne as [|? ? Hc Hcs]; subst.
  unfold recv, delivering; cbn [closed incoming map app List.concat].
  destruct (Nat.lt_ge_cases n (List.length c)) as [Hlt|Hge].
  - exists n, (skipn n c :: cs).
    assert (Hsk : skipn n c <> []).
    { intros E. apply (f_equal (@List.length _)) in E.
      rewrite length_skipn in E. cbn in E. lia. }
    repeat split; try lia.
    + rewrite length_app. lia.
    + rewrite firstn_app.
      replace (n - List.length c)%nat with 0%nat by lia.
      rewrite firstn_O, app_nil_r.
      destruct (skipn n c) eqn:E; [now elim Hsk|]. reflexivity.
    + constructor; assumption.
    + cbn [List.concat]. rewrite skipn_app.
      replace (n - List.length c)%nat with 0%nat by lia. reflexivity.
  - exists (List.length c), cs.
    assert (Hlen : (0 < List.length c)%nat)
      by (destruct c; [now elim Hc | cbn; lia]).
    repeat split; try lia.
    + rewrite length_app. lia.
    + rewrite firstn_app, Nat.sub_diag, firstn_O, app_nil_r, firstn_all.
      rewrite (firstn_all2 c) by lia. rewrite (skipn_all2 c) by lia.
      reflexivity.
    + assumption.
    + rewrite skipn_app, Nat.sub_diag, skipn_all. reflexivity.
    + right. cbn. lia.
Qed.

(** The payload loop reads exactly the next [n] bytes, one [recv(1)] each. *)
Lemma recv_payload_partial (n : nat) : forall chunks tail sent response,
  partial_reads chunks -> (n <= List.length (List.concat chunks))%nat ->
  exists chunks',
    recv_payload n (delivering chunks tail sent) response
      = (Ok (response ++ firstn n (List.concat chunks)), delivering chunks' tail sent)
    /\ partial_reads chunks' /\ List.concat chunks' = skipn n (List.concat chunks).
Proof.
  induction n as [|n IH]; intros chunks tail sent response Hne Hlen.
  - exists chunks. cbn. rewrite app_nil_r. auto.
  - assert (Hdata : List.concat chunks <> [])
      by (intros E; rewrite E in Hlen;
          change (@List.length byte []) with 0%nat in Hlen; lia).
    destruct (recv_partial 1 chunks tail sent) as (k & chunks1 & Hk & _ & Hrecv & Hne1 & Hrest & _);
      [lia | assumption | assumption |].
    assert (k = 1)%nat by lia; subst k.
    destruct (List.concat chunks) as [|b data] eqn:E; [now elim Hdata|].
    cbn [firstn skipn] in Hrecv, Hrest.
    cbn [recv_payload]. rewrite Hrecv. cbn [ord].
    destruct (IH chunks1 tail sent (response ++ [b]) Hne1) as (chunks' & Hpay & Hne' & Hrest').
    { rewrite Hrest. cbn in Hlen. lia. }
    exists chunks'. rewrite Hpay, Hrest', Hrest, <- app_assoc. auto.
Qed.

(** The header loop completes [packed_length] to four bytes, whatever the
    cut.  A [recv] that does not complete the header uses up a chunk, so
    one iteration per chunk is enough. *)
Lemma recv_length_partial (fuel : nat) : forall chunks tail sent packed_length,
  partial_reads chunks ->
  (4 - List.length packed_length <= List.length (List.concat chunks))%nat ->
  (4 - List.length packed_length = 0 \/ List.length chunks < fuel)%nat ->
  exists chunks',
    recv_length fuel (delivering chunks tail sent) packed_length
      = Some (Ok (packed_length
                  ++ firstn (4 - List.length packed_length) (List.concat chunks)),
              delivering chunks' tail sent)
    /\ partial_reads chunks'
    /\ List.concat chunks'
       = skipn (4 - List.length packed_length) (List.concat chunks).
Proof.
  assert (Hdone : forall fuel chunks tail sent packed,
             (4 - List.length packed = 0)%nat ->
             recv_length fuel (delivering chunks tail sent) packed
             = Some (Ok packed, delivering chunks tail sent)).
  { intros f chunks tail sent packed E.
    destruct f; cbn [recv_length];
      replace (List.length packed <? 4)%nat with false
        by (symmetry; apply Nat.ltb_ge; lia); reflexivity. }
  induction fuel as [|fuel IH]; intros chunks tail sent packed Hne Hlen Hfuel.
  - assert (E : (4 - List.length packed = 0)%nat) by lia.
    exists chunks. rewrite Hdone, E by assumption.
    cbn [firstn skipn]. rewrite app_nil_r. auto.
  - destruct (Nat.eq_dec (4 - List.length packed) 0) as [E|Hneed].
    { exists chunks. rewrite Hdone, E by assumption.
      cbn [firstn skipn]. rewrite app_nil_r. auto. }
    cbn [recv_length].
    replace (List.length packed <? 4)%nat with true
      by (symmetry; apply Nat.ltb_lt; lia).
    assert (Hdata : List.concat chunks <> [])
      by (intros E; rewrite E in Hlen;
          change (@List.length byte []) with 0%nat in Hlen; lia).
    destruct (recv_partial (4 - List.length packed) chunks tail sent)
      as (k & chunks1 & Hk & Hk' & Hrecv & Hne1 & Hrest & Hprog);
      [lia | assumption | assumption |].
    rewrite Hrecv.
    assert (Hl1 : List.length (packed ++ firstn k (List.concat chunks))
                  = (List.length packed + k)%nat)
      by (rewrite length_app, length_firstn; lia).
    destruct (IH chunks1 tail sent (packed ++ firstn k (List.concat chunks)) Hne1)
      as (chunks' & Hrec & Hne' & Hrest').
    { rewrite Hrest, length_skipn, Hl1. lia. }
    { rewrite Hl1. lia. }
    exists chunks'. rewrite Hrec, Hrest', Hrest, Hl1.
    replace (4 - (List.length packed + k))%nat
      with (4 - List.length packed - k)%nat by lia.
    rewrite skipn_skipn, <- app_assoc.
    replace (4 - List.length packed - k + k)%nat
      with (4 - List.length packed)%nat by lia.
    repeat split; auto. do 3 f_equal.
    rewrite <- (firstn_skipn k (firstn (4 - List.length packed) (List.concat chunks))).
    rewrite firstn_firstn, skipn_firstn_comm.
    replace (Nat.min k (4 - List.length packed)) with k by lia.
    reflexivity.
Qed.

End Chunks.

Section RoundTrip.

Lemma partial_reads_nil chunks :
  partial_reads chunks -> List.concat chunks = [] -> chunks = [].
Proof.
  intros Hne E. destruct chunks as [|c cs]; [reflexivity|].
  inversion Hne as [|? ? Hc _]; subst.
  cbn in E. apply app_eq_nil in E. now elim Hc.
Qed.

Lemma pack_message_fits (payload : list byte) :
  (Z.of_nat (List.length payload) < 2 ^ 32)%Z ->
  exists header,
    struct_pack_L (Z.of_nat (List.length payload)) = Ok header
    /\ List.length header = 4%nat
    /\ struct_unpack_L header = Ok (Z.of_nat (List.length payload))
    /\ pack_message payload = Ok (header ++ payload).
Proof.
  intros Hlen.
  pose proof (struct_unpack_pack (Z.of_nat (List.length payload))) as Hup.
  unfold pack_message.
  destruct (struct_pack_L (Z.of_nat (List.length payload))) as [header|e] eqn:E.
  - exists header. cbn [bind] in *.
    repeat split; [eapply struct_pack_L_length; eassumption | apply Hup; lia].
  - assert (H : Raise e = Ok (Z.of_nat (List.length payload)))
      by (apply Hup; lia).
    discriminate H.
Qed.

(** The receive cycle on a stream that starts with a frame, cut in any
    way: the payload, with the bytes after the frame still pending. *)
Lemma receive_frame header payload chunks tail sent :
  List.length header = 4%nat ->
  struct_unpack_L header = Ok (Z.of_nat (List.length payload)) ->
  partial_reads chunks ->
  List.concat chunks = header ++ payload ->
  receive (delivering chunks tail sent)
  = Some (Ok payload, true, delivering [] tail sent).
Proof.
  intros Hh Hun Hne Hcat. unfold receive.
  assert (Hfirst : firstn 4 (header ++ payload) = header)
    by (rewrite <- Hh, firstn_app, Nat.sub_diag, firstn_O, firstn_all;
        apply app_nil_r).
  assert (Hskip : skipn 4 (header ++ payload) = payload)
    by (rewrite <- Hh, skipn_app, Nat.sub_diag, skipn_all; reflexivity).
  destruct (recv_length_partial
              (S (List.length (incoming (delivering chunks tail sent))))
              chunks tail sent [] Hne)
    as (chunks1 & Hrec & Hne1 & Hrest).
  { rewrite Hcat, length_app. cbn. lia. }
  { right. cbn [incoming delivering]. rewrite length_app, length_map. lia. }
  cbn [List.length app] in Hrec, Hrest.
  change (4 - 0)%nat with 4%nat in Hrec, Hrest.
  rewrite Hcat, Hfirst in Hrec. rewrite Hcat, Hskip in Hrest.
  rewrite Hrec, Hun, Nat2Z.id.
  destruct (recv_payload_partial (List.length payload) chunks1 tail sent [] Hne1)
    as (chunks2 & Hpay & Hne2 & Hrest2).
  { rewrite Hrest. lia. }
  rewrite Hpay, Hrest, firstn_all. cbn [app].
  rewrite Hrest, skipn_all in Hrest2.
  rewrite (partial_reads_nil chunks2 Hne2 Hrest2). reflexivity.
Qed.

End RoundTrip.

(** C1.  Frame round trip: a payload whose length fits the 32-bit header
    is framed by [pack_message] as four big-endian length bytes followed by
    the payload, and the receive cycle of [send_message], run on a stream
    that delivers this frame cut into non-empty partial reads in any way
    (the header in one piece or across several reads, header and payload
    in shared or separate reads), returns exactly the payload, having read
    the header first and consumed the frame and nothing after it.  Payload
    lengths 0, 1, 65535 and 1000000 are all below [2 ^ 32]. *)
Theorem frame_roundtrip (payload : list byte) (chunks : list (list byte))
    (tail : list event) (sent : list (list byte)) :
  (Z.of_nat (List.length payload) < 2 ^ 32)%Z ->
  partial_reads chunks ->
  exists framed,
    pack_message payload = Ok framed
    /\ List.length framed = (4 + List.length payload)%nat
    /\ skipn 4 framed = payload
    /\ (List.concat chunks = framed ->
        receive (delivering chunks tail sent)
        = Some (Ok payload, true, delivering [] tail sent)).
Proof.
  intros Hlen Hne.
  destruct (pack_message_fits payload Hlen) as (header & _ & Hh & Hun & Hpack).
  exists (header ++ payload). repeat split.
  - assumption.
  - rewrite length_app, Hh. reflexivity.
  - rewrite skipn_app, Hh, Nat.sub_diag, <- Hh, skipn_all. reflexivity.
  - intros Hcat. now apply (receive_frame header).
Qed.

Lemma frame_roundtrip_witness :
  receive (delivering [[x00]; [x00; x00]; [x03; x41]; [x42; x43]]%byte [Stall] [])
  = Some (Ok [x41; x42; x43]%byte, true, delivering [] [Stall] []).
Proof.
  destruct (frame_roundtrip [x41; x42; x43]%byte
              [[x00]; [x00; x00]; [x03; x41]; [x42; x43]]%byte [Stall] [])
    as (framed & Hp & _ & _ & Hr).
  - vm_compute. reflexivity.
  - repeat constructor; discriminate.
  - apply Hr. vm_compute in Hp. injection Hp as <-. reflexivity.
Defined.

(** ** The status checker *)

Section Status.

Context `{Env}.

Lemma option_string_eqb_eq (a b : option string) :
  option_string_eqb a b = true <-> a = b.
Proof.
  destruct a as [x|], b as [y|]; cbn; try (split; congruence).
  rewrite String.eqb_eq. split; congruence.
Qed.

Lemma check_status_cases (node : xml) (expected : option string)
    (allow_none : bool) :
  (status_mismatch node expected allow_none
   /\ check_status (Some node) expected allow_none
      = Raise (FishbowlError (resolved_message node)))
  \/ (~ status_mismatch node expected allow_none
      /\ check_status (Some node) expected allow_none
         = Ok (resolved_message node)).
Proof.
  unfold check_status, status_mismatch, resolved_message.
  pose proof (option_string_eqb_eq (get node "statusCode") expected) as Heq.
  destruct (get node "statusMessage") as [m|];
    destruct (option_string_eqb (get node "statusCode") expected) eqn:Eb;
    destruct (get node "statusCode") as [c|] eqn:Ec; destruct allow_none;
    cbn [negb andb orb is_some];
    first
      [ right; split; [intros [Hne _]; apply Hne; now apply Heq | reflexivity]
      | right; split; [intros [_ Hn]; apply Hn; split; reflexivity | reflexivity]
      | left; split;
        [split; [intros E; apply Heq in E; discriminate
                | intros [? ?]; discriminate]
        | reflexivity] ].
Qed.

End Status.

(** C6.  [check_status] on a node raises [FishbowlError] carrying the
    resolved message exactly when the status code differs from the
    expected one and it is not the case that [allow_none] holds with the
    [statusCode] attribute absent; otherwise it returns the resolved
    message.  The message is the [statusMessage] attribute, or the
    code-to-text lookup when that attribute is absent.  The three listed
    cases: code "1010" expected "1010" returns the message; code "1000"
    expected "1010" without [allow_none] raises with the message; an absent
    code with [allow_none] does not raise. *)
Theorem check_status_spec `{Env} (node : xml) (expected : option string)
    (allow_none : bool) :
  (check_status (Some node) expected allow_none
     = Raise (FishbowlError (resolved_message node))
   <-> status_mismatch node expected allow_none)
  /\ (check_status (Some node) expected allow_none = Ok (resolved_message node)
      <-> ~ status_mismatch node expected allow_none)
  /\ (get node "statusMessage" = None ->
      resolved_message node = get_status (get node "statusCode"))
  /\ (forall m, get node "statusMessage" = Some m ->
      resolved_message node = Some m)
  /\ (get node "statusCode" = Some "1010" ->
      check_status (Some node) (Some "1010") allow_none
      = Ok (resolved_message node))
  /\ (get node "statusCode" = Some "1000" ->
      check_status (Some node) (Some "1010") false
      = Raise (FishbowlError (resolved_message node)))
  /\ (get node "statusCode" = None ->
      check_status (Some node) expected true = Ok (resolved_message node)).
Proof.
  split; [|split; [|split; [|split; [|split; [|split]]]]].
  - split.
    + intros E. destruct (check_status_cases node expected allow_none)
        as [[Hm _]|[_ E']]; [assumption | congruence].
    + intros Hm. destruct (check_status_cases node expected allow_none)
        as [[_ E]|[Hn _]]; [assumption | contradiction].
  - split.
    + intros E. destruct (check_status_cases node expected allow_none)
        as [[_ E']|[Hn _]]; [congruence | assumption].
    + intros Hn. destruct (check_status_cases node expected allow_none)
        as [[Hm _]|[_ E]]; [contradiction | assumption].
  - intros E. unfold resolved_message. now rewrite E.
  - intros m E. unfold resolved_message. now rewrite E.
  - intros E. destruct (check_status_cases node (Some "1010") allow_none)
      as [[[Hne _] _]|[_ E']]; [now elim Hne | assumption].
  - intros E. destruct (check_status_cases node (Some "1010") false)
      as [[_ E']|[Hn _]]; [assumption|].
    elim Hn. split; [rewrite E; discriminate | intros [? _]; discriminate].
  - intros E. destruct (check_status_cases node expected true)
      as [[[_ Hn] _]|[_ E']]; [elim Hn; now split | assumption].
Qed.

(** ** The receive cycle only reads, and ends while the peer stays *)

Section Receive.

Lemma recv_preserves (n : nat) (s : socket) :
  outgoing (snd (recv n s)) = outgoing s /\ closed (snd (recv n s)) = closed s.
Proof.
  unfold recv. destruct (closed s) eqn:Ec; [now split|].
  destruct (incoming s) as [|[data| |] rest]; cbn; auto.
Qed.

Lemma recv_stays (n : nat) (s : socket) :
  peer_stays s -> peer_stays (snd (recv n s)).
Proof.
  unfold peer_stays, recv. destruct (closed s); [auto|].
  destruct (incoming s) as [|[data| |] rest] eqn:Ei; cbn [snd];
    intros Hs C.
  - rewrite Ei in C. destruct C.
  - apply Hs. cbn [incoming set_incoming] in C.
    destruct (skipn n data); [now right|].
    destruct C as [C|C]; [discriminate | now right].
  - apply Hs. cbn [incoming set_incoming] in C. now right.
  - rewrite Ei in C. now apply Hs.
Qed.

Lemma recv_length_preserves (fuel : nat) : forall s packed_length r s',
  recv_length fuel s packed_length = Some (r, s') ->
  outgoing s' = outgoing s /\ closed s' = closed s.
Proof.
  induction fuel as [|fuel IH]; intros s packed r s' E; cbn [recv_length] in E;
    destruct (List.length packed <? 4)%nat; try discriminate;
    try (injection E as <- <-; now split).
  pose proof (recv_preserves (4 - List.length packed) s) as [Ho Hc].
  destruct (recv (4 - List.length packed) s) as [[data|e] s1]; cbn [snd] in *.
  - apply IH in E as [Ho' Hc']. split; congruence.
  - injection E as <- <-. now split.
Qed.

Lemma recv_payload_preserves (n : nat) : forall s response,
  outgoing (snd (recv_payload n s response)) = outgoing s
  /\ closed (snd (recv_payload n s response)) = closed s.
Proof.
  induction n as [|n IH]; intros s response; cbn [recv_payload]; [now split|].
  pose proof (recv_preserves 1 s) as [Ho Hc].
  destruct (recv 1 s) as [[data|e] s1]; cbn [snd] in *; [|now split].
  destruct (ord data) as [b|e]; cbn [snd]; [|now split].
  destruct (IH s1 (response ++ [b])) as [Ho' Hc']. split; congruence.
Qed.

Lemma receive_preserves (s : socket) r received_length s' :
  receive s = Some (r, received_length, s') ->
  outgoing s' = outgoing s /\ closed s' = closed s.
Proof.
  unfold receive. intros E.
  destruct (recv_length (S (List.length (incoming s))) s []) as [[[packed|e] s1]|] eqn:El;
    try discriminate.
  - apply recv_length_preserves in El as [Ho Hc].
    destruct (struct_unpack_L packed) as [len|e].
    + pose proof (recv_payload_preserves (Z.to_nat len) s1 []) as [Ho' Hc'].
      destruct (recv_payload (Z.to_nat len) s1 []) as [r2 s2]; cbn [snd] in *.
      injection E as <- <- <-. split; congruence.
    + injection E as <- <- <-. now split.
  - apply recv_length_preserves in El. injection E as <- <- <-. assumption.
Qed.

Lemma recv_length_stays (fuel : nat) : forall s packed_length r s',
  recv_length fuel s packed_length = Some (r, s') ->
  peer_stays s -> peer_stays s'.
Proof.
  induction fuel as [|fuel IH]; intros s packed r s' E; cbn [recv_length] in E;
    destruct (List.length packed <? 4)%nat; try discriminate;
    try (injection E as <- <-; now auto).
  pose proof (recv_stays (4 - List.length packed) s) as Hs.
  destruct (recv (4 - List.length packed) s) as [[data|e] s1]; cbn [snd] in *.
  - intros Hp. apply IH in E; auto.
  - injection E as <- <-. assumption.
Qed.

Lemma recv_payload_stays (n : nat) : forall s response,
  peer_stays s -> peer_stays (snd (recv_payload n s response)).
Proof.
  induction n as [|n IH]; intros s response Hp; cbn [recv_payload];
    [assumption|].
  pose proof (recv_stays 1 s Hp) as Hs.
  destruct (recv 1 s) as [[data|e] s1]; cbn [snd] in *; [|assumption].
  destruct (ord data) as [b|e]; cbn [snd]; [|assumption].
  now apply IH.
Qed.

Lemma receive_stays (s : socket) r received_length s' :
  receive s = Some (r, received_length, s') -> peer_stays s -> peer_stays s'.
Proof.
  unfold receive. intros E Hp.
  destruct (recv_length (S (List.length (incoming s))) s [])
    as [[[packed|e] s1]|] eqn:El; try discriminate.
  - apply recv_length_stays in El; [|assumption].
    destruct (struct_unpack_L packed) as [len|e].
    + pose proof (recv_payload_stays (Z.to_nat len) s1 [] El) as Hs.
      destruct (recv_payload (Z.to_nat len) s1 []) as [r2 s2]; cbn [snd] in *.
      injection E as <- <- <-. assumption.
    + injection E as <- <- <-. assumption.
  - apply recv_length_stays in El; [|assumption].
    injection E as <- <- <-. assumption.
Qed.

(** While the peer stays, one iteration more than there are events is
    enough for the header. *)
Lemma recv_length_total (fuel : nat) : forall s packed_length,
  peer_stays s ->
  (List.length (incoming s) < fuel \/ 4 <= List.length packed_length)%nat ->
  recv_length fuel s packed_length <> None.
Proof.
  induction fuel as [|fuel IH]; intros s packed Hp Hf; cbn [recv_length];
    destruct (List.length packed <? 4)%nat eqn:Hlt; try discriminate.
  - apply Nat.ltb_lt in Hlt. lia.
  - apply Nat.ltb_lt in Hlt.
    pose proof (recv_stays (4 - List.length packed) s Hp) as Hs.
    unfold recv in *.
    destruct (closed s); [discriminate|].
    destruct (incoming s) as [|[data| |] rest] eqn:Ei; try discriminate.
    + apply IH; [exact Hs|]. cbn [incoming set_incoming snd].
      destruct (skipn (4 - List.length packed) data) as [|b l] eqn:Es.
      * left. cbn [List.length] in Hf. lia.
      * right. rewrite length_app, length_firstn.
        apply (f_equal (@List.length _)) in Es. rewrite length_skipn in Es.
        cbn [List.length] in Es. lia.
    + elim Hp. rewrite Ei. now left.
Qed.

Lemma receive_total (s : socket) :
  peer_stays s ->
  exists r received_length s', receive s = Some (r, received_length, s').
Proof.
  intros Hp. unfold receive.
  pose proof (recv_length_total (S (List.length (incoming s))) s [] Hp) as Ht.
  destruct (recv_length (S (List.length (incoming s))) s []) as [[[packed|e] s1]|].
  - destruct (struct_unpack_L packed) as [len|e]; [|eauto].
    destruct (recv_payload (Z.to_nat len) s1 []) as [r2 s2]. eauto.
  - eauto.
  - elim Ht; [left; lia | reflexivity].
Qed.

Lemma recv_raises (n : nat) (s : socket) e s' :
  recv n s = (Raise e, s') -> transport_error e.
Proof.
  unfold recv. destruct (closed s); [intros E; now inversion E|].
  destruct (incoming s) as [|[data| |] rest]; intros E; now inversion E.
Qed.

Lemma recv_length_raises (fuel : nat) : forall s packed_length e s',
  recv_length fuel s packed_length = Some (Raise e, s') -> transport_error e.
Proof.
  induction fuel as [|fuel IH]; intros s packed e s' E; cbn [recv_length] in E;
    destruct (List.length packed <? 4)%nat; try discriminate.
  destruct (recv (4 - List.length packed) s) as [[data|e1] s1] eqn:Er.
  - now apply IH in E.
  - inversion E; subst. now apply recv_raises in Er.
Qed.

Lemma recv_payload_raises (n : nat) : forall s response e s',
  recv_payload n s response = (Raise e, s') -> transport_error e.
Proof.
  induction n as [|n IH]; intros s response e s' E; cbn [recv_payload] in E;
    [discriminate|].
  destruct (recv 1 s) as [[data|e1] s1] eqn:Er.
  - destruct data as [|b [|b' data]]; cbn [ord] in E;
      try (now inversion E). now apply IH in E.
  - inversion E; subst. now apply recv_raises in Er.
Qed.

Lemma receive_raises (s : socket) e received_length s' :
  receive s = Some (Raise e, received_length, s') -> transport_error e.
Proof.
  unfold receive. intros E.
  destruct (recv_length (S (List.length (incoming s))) s [])
    as [[[packed|e1] s1]|] eqn:El; try discriminate.
  - destruct packed as [|b0 [|b1 [|b2 [|b3 [|b4 packed]]]]];
      cbn [struct_unpack_L] in E; try (now inversion E).
    destruct (recv_payload _ s1 []) as [r2 s2] eqn:Ep.
    inversion E; subst. now apply recv_payload_raises in Ep.
  - inversion E; subst. now apply recv_length_raises in El.
Qed.

End Receive.

(** ** [close] and [send_message] *)

Section Connection.

Context `{Env}.

Lemma pack_message_raises (msg : list byte) (e : exn) :
  pack_message msg = Raise e -> e = StructError.
Proof.
  unfold pack_message, struct_pack_L.
  destruct ((0 <=? Z.of_nat (List.length msg))%Z
            && (Z.of_nat (List.length msg) <? 2 ^ 32)%Z);
    cbn [bind]; congruence.
Qed.

(** [close] on a connection that holds no key: no logout is sent. *)
Lemma close_keyless (fuel : nat) (skip_errors : bool) (self : Fishbowl) :
  key_truthy (key self) = false ->
  close (S fuel) skip_errors self
  = if _connected self
    then Some (Ok tt, set_stream (set_connected self false)
                                 (socket_close (stream self)))
    else Some (if skip_errors then Ok tt else Raise (OSError "Not connected"),
               self).
Proof.
  intros Hk. cbn [close]. rewrite Hk. cbn [disconnect]. rewrite Hk.
  destruct (_connected self), skip_errors; reflexivity.
Qed.

(** [send_message] on a connection that holds no key, when it returns:
    the key is left alone; the framed message has been sent, unless the
    call stopped before sending; a timeout leaves the object disconnected
    and the socket closed, every other outcome leaves both as they were. *)
Lemma send_message_keyless_post (fuel : nat) (self : Fishbowl)
    (msg : list byte) (r : outcome xml) (self' : Fishbowl) :
  key_truthy (key self) = false ->
  send_message fuel self msg = Some (r, self') ->
  key self' = key self
  /\ ((outgoing (stream self') = outgoing (stream self)
       /\ (_connected self = false \/ closed (stream self) = true
           \/ pack_message msg = Raise StructError))
      \/ exists framed, pack_message msg = Ok framed
           /\ outgoing (stream self') = outgoing (stream self) ++ [framed])
  /\ (forall m, r = Raise (FishbowlTimeoutError m) ->
      _connected self' = false /\ closed (stream self') = true)
  /\ ((forall m, r <> Raise (FishbowlTimeoutError m)) ->
      _connected self' = _connected self
      /\ closed (stream self') = closed (stream self))
  /\ (peer_stays (stream self) -> peer_stays (stream self')).
Proof.
  intros Hk. destruct fuel as [|fuel]; [discriminate|]. cbn [send_message].
  destruct (_connected self) eqn:Hc; cbn [negb].
  2: { intros E; injection E as <- <-. split; [reflexivity|].
       split; [left; auto|]. split; [intros ? E; discriminate E|]. auto. }
  destruct (pack_message msg) as [framed|e] eqn:Hp.
  2: { apply pack_message_raises in Hp as ->.
       intros E; injection E as <- <-. split; [reflexivity|].
       split; [left; auto|]. split; [intros ? E; discriminate E|]. auto. }
  unfold send. destruct (closed (stream self)) eqn:Hcl.
  { intros E; injection E as <- <-. split; [reflexivity|].
    split; [left; auto|]. split; [intros ? E; discriminate E|].
    cbn [set_stream _connected stream]. auto. }
  match goal with |- context [receive ?s] =>
    destruct (receive s) as [[[r0 rl] s']|] eqn:Hr; [|discriminate];
    pose proof (receive_preserves s r0 rl s' Hr) as [Ho Hclosed];
    pose proof (receive_stays s r0 rl s' Hr) as Hstays end.
  cbn [outgoing closed incoming peer_stays] in Ho, Hclosed, Hstays.
  assert (Hsent : forall c, stream c = s' ->
            (outgoing (stream c) = outgoing (stream self)
             /\ (true = false \/ false = true
                 \/ Ok framed = Raise StructError))
            \/ exists framed0, Ok framed = Ok framed0
                 /\ outgoing (stream c) = outgoing (stream self) ++ [framed0]).
  { intros c ->. right. eauto. }
  assert (Hplain : forall r1,
            (forall m, r1 <> Raise (FishbowlTimeoutError m)) ->
            Some (r1, set_stream self s') = Some (r, self') ->
            key self' = key self
            /\ ((outgoing (stream self') = outgoing (stream self)
                 /\ (true = false \/ false = true
                     \/ Ok framed = Raise StructError))
                \/ exists framed0, Ok framed = Ok framed0
                     /\ outgoing (stream self')
                        = outgoing (stream self) ++ [framed0])
            /\ (forall m, r = Raise (FishbowlTimeoutError m) ->
                _connected self' = false /\ closed (stream self') = true)
            /\ ((forall m, r <> Raise (FishbowlTimeoutError m)) ->
                _connected self' = true /\ closed (stream self') = false)
            /\ (peer_stays (stream self) -> peer_stays (stream self'))).
  { intros r1 Hr1 E. injection E as <- <-. split; [reflexivity|].
    split; [now apply Hsent|]. split; [intros m E; now elim (Hr1 m)|].
    cbn [set_stream _connected stream]. auto. }
  destruct r0 as [response|e].
  { destruct (fromstring response); apply Hplain; discriminate. }
  pose proof (receive_raises _ _ _ _ Hr) as He.
  destruct e; try contradiction; try (apply Hplain; discriminate).
  destruct fuel as [|fuel]; [discriminate|].
  rewrite close_keyless by assumption.
  cbn [_connected set_stream]. rewrite Hc.
  intros E; injection E as <- <-. split; [reflexivity|].
  split; [right; exists framed; split; [reflexivity | exact Ho]|].
  split; [intros; split; reflexivity|].
  split; [intros Hne; now elim (Hne (timeout_msg rl))|].
  cbn [stream set_stream set_connected socket_close incoming]. exact Hstays.
Qed.

(** While the peer stays, [send_message] on a connection that holds no
    key returns. *)
Lemma send_message_keyless (fuel : nat) (self : Fishbowl) (msg : list byte) :
  key_truthy (key self) = false ->
  peer_stays (stream self) ->
  exists r self', send_message (S (S fuel)) self msg = Some (r, self').
Proof.
  intros Hk Hstays. cbn [send_message].
  destruct (_connected self); cbn [negb]; [|eauto].
  destruct (pack_message msg) as [framed|e]; [|eauto].
  unfold send. destruct (closed (stream self)); [eauto|].
  match goal with |- context [receive ?s] =>
    destruct (receive_total s) as (r & rl & s' & Hr); [exact Hstays|];
    pose proof (receive_raises s) as He;
    rewrite Hr end.
  destruct r as [response|e]; [destruct (fromstring response); eauto|].
  specialize (He e rl s' Hr).
  destruct e; try contradiction; eauto.
  rewrite close_keyless by assumption.
  cbn [_connected set_stream]. destruct (_connected self); eauto.
Qed.

Lemma suppress_state (skip_errors : bool) (r : outcome unit * Fishbowl) :
  snd (suppress skip_errors r) = snd r.
Proof. destruct r as [[[]|e] self], skip_errors; reflexivity. Qed.

Lemma suppress_true (r : outcome unit * Fishbowl) :
  suppress true r = (Ok tt, snd r).
Proof. destruct r as [[[]|e] self]; reflexivity. Qed.

(** [disconnect] does not touch the key, and only closes the socket. *)
Lemma disconnect_state (has_key : option string)
    (logout : outcome (option xml) * Fishbowl) :
  key (snd (disconnect has_key logout)) = key (snd logout)
  /\ outgoing (stream (snd (disconnect has_key logout)))
     = outgoing (stream (snd logout)).
Proof.
  destruct logout as [[resp|e] self]; cbn [disconnect snd]; [|now split].
  destruct (_connected self); cbn [negb snd]; [|now split].
  destruct (key_truthy has_key); [destruct resp|]; now split.
Qed.

(** [disconnect] uses the key it is given for its truth value alone. *)
Lemma disconnect_truthy (k1 k2 : option string)
    (logout : outcome (option xml) * Fishbowl) :
  key_truthy k1 = key_truthy k2 ->
  disconnect k1 logout = disconnect k2 logout.
Proof. intros E. unfold disconnect. now rewrite E. Qed.

(** After [disconnect] on a connected object the socket is closed. *)
Lemma disconnect_closes (has_key : option string) (resp : option xml)
    (self : Fishbowl) :
  _connected self = true ->
  _connected (snd (disconnect has_key (Ok resp, self))) = false
  /\ closed (stream (snd (disconnect has_key (Ok resp, self)))) = true.
Proof.
  intros Hc. cbn [disconnect]. rewrite Hc. cbn [negb].
  destruct (key_truthy has_key); [destruct resp|]; split; reflexivity.
Qed.

(** [close(skip_errors=True)], when it returns, has returned normally
    with the key cleared.  On a connected object whose socket is open it
    leaves the socket closed when no key is held and, when a key is held,
    exactly when the logout exchange returns a response or times out: a
    missing [username] or any other error of the exchange leaves the
    object connected and the socket open. *)
Lemma close_skip_errors_post (fuel : nat) (self : Fishbowl)
    (r : outcome unit) (self' : Fishbowl) :
  close (S fuel) true self = Some (r, self') ->
  r = Ok tt
  /\ key_truthy (key self') = false
  /\ (peer_stays (stream self) -> peer_stays (stream self'))
  /\ (_connected self = true -> closed (stream self) = false ->
      if key_truthy (key self) then
        match username self with
        | None => self' = set_key self None
        | Some user =>
            exists r2 c,
              send_message fuel (set_key self None)
                (Login user "" None (task_name self)) = Some (r2, c)
              /\ if is_ok r2
                    || match r2 with
                       | Raise (FishbowlTimeoutError _) => true
                       | _ => false
                       end
                 then _connected self' = false /\ closed (stream self') = true
                 else self' = c /\ _connected self' = true
                      /\ closed (stream self') = false
        end
      else _connected self' = false /\ closed (stream self') = true).
Proof.
  destruct (key_truthy (key self)) eqn:Hk.
  - cbn [close]. rewrite Hk. cbn [username set_key key task_name].
    destruct (username self) as [user|] eqn:Hu.
    2: { intros E; injection E as <- <-. cbn. auto. }
    destruct (send_message fuel (set_key self None)
                (Login user "" None (task_name self)))
      as [[r2 c]|] eqn:Hs; [|discriminate].
    destruct (send_message_keyless_post fuel (set_key self None) _ r2 c
                eq_refl Hs)
      as (Hkey & _ & Htimeout & Hother & Hstays).
    cbn [key set_key _connected stream] in Hkey, Hother, Hstays.
    assert (Hlogout : exists l,
              match r2 with
              | Ok logout_response => Some (Ok (Some logout_response), c)
              | Raise e => Some (Raise e, c)
              end = Some l
              /\ snd l = c
              /\ (forall root, r2 = Ok root ->
                  exists resp, l = (Ok resp, c))
              /\ (forall e, r2 = Raise e -> l = (Raise e, c))).
    { destruct r2; eexists; (split; [reflexivity|]); (split; [reflexivity|]);
        split; intros ? E; inversion E; subst; eauto. }
    destruct Hlogout as (l & -> & Hl & Hlok & Hlraise).
    rewrite suppress_true. intros E; injection E as <- <-.
    destruct (disconnect_state (key self) l) as [Hdk Hdo].
    split; [reflexivity|]. split; [rewrite Hdk, Hl, Hkey; reflexivity|].
    split.
    { intros Hp. specialize (Hstays Hp). clear - Hstays Hl.
      destruct l as [[resp|e] c0]; cbn [snd] in Hl; subst c0;
        cbn [disconnect snd]; [|assumption].
      destruct (_connected c); cbn [negb snd]; [|assumption].
      destruct (key_truthy (key self)); [destruct resp|]; exact Hstays. }
    intros Hc Hcl. exists r2, c. split; [reflexivity|].
    destruct r2 as [root|e].
    + cbn [is_ok orb]. destruct (Hlok root eq_refl) as (resp & ->).
      apply disconnect_closes.
      destruct Hother as [Hc2 _]; [discriminate | congruence].
    + rewrite (Hlraise e eq_refl). cbn [disconnect snd is_ok orb].
      destruct e; try (destruct Hother as [Hc2 Hcl2]; [discriminate|];
                       split; [reflexivity|]; split; congruence).
      now apply (Htimeout msg).
  - destruct fuel as [|fuel]; rewrite close_keyless by assumption;
      (destruct (_connected self) eqn:Hc; intros E; injection E as <- <-;
       (split; [reflexivity|]); (split; [exact Hk|]); (split; [now auto|]);
       [intros _ _; split; reflexivity | discriminate]).
Qed.

(** While the peer stays, [close] returns or raises. *)
Lemma close_returns (fuel : nat) (skip_errors : bool) (self : Fishbowl) :
  peer_stays (stream self) ->
  exists r self', close (S (S (S fuel))) skip_errors self = Some (r, self').
Proof.
  intros Hp.
  assert (Hpair : forall x : outcome unit * Fishbowl,
            exists r self', Some x = Some (r, self'))
    by (intros [? ?]; eauto).
  destruct (key_truthy (key self)) eqn:Hk.
  - cbn [close]. rewrite Hk. cbn [username set_key key task_name].
    destruct (username self) as [user|]; [|apply Hpair].
    destruct (send_message_keyless fuel (set_key self None)
                (Login user "" None (task_name self)) eq_refl Hp)
      as (r & c & ->).
    destruct r; apply Hpair.
  - rewrite close_keyless by assumption.
    destruct (_connected self), skip_errors; eauto.
Qed.

Lemma close_skip_errors (fuel : nat) (self : Fishbowl) :
  peer_stays (stream self) ->
  exists self', close (S (S (S fuel))) true self = Some (Ok tt, self').
Proof.
  intros Hp.
  destruct (close_returns fuel true self Hp) as (r & self' & Hclose).
  destruct (close_skip_errors_post _ _ _ _ Hclose) as (-> & _).
  eauto.
Qed.

End Connection.

(** C7.  A timeout that does not close the connection.  On a logged-in
    object whose peer lets a request time out and then answers the logout
    request with a frame that is not XML, [send_message] runs
    [close(skip_errors=True)], which clears the key, sends the logout
    request and suppresses the [XMLSyntaxError] of its reply before
    [_connected = False] and [stream.close()] are reached; the
    [FishbowlTimeoutError] is then raised on an object that is still
    marked connected, with its socket open. *)
Theorem timeout_leaves_socket_open :
  exists self',
    @send_message example_env 3 example_garbled_logout [x42]
    = Some (Raise (FishbowlTimeoutError "Connection timeout"), self')
    /\ @close example_env 2 true
         (set_stream example_garbled_logout
            (mk_socket [Chunk [x00; x00; x00; x01; x41]]
                       [[x00; x00; x00; x01; x42]] false))
       = Some (Ok tt, self')
    /\ key self' = None
    /\ outgoing (stream self')
       = [[x00; x00; x00; x01; x42];
          [x00; x00; x00; x06; x61; x64; x6d; x69; x6e; x7c]]
    /\ _connected self' = true
    /\ closed (stream self') = false.
Proof.
  eexists. split; [vm_compute; reflexivity|].
  split; [vm_compute; reflexivity|]. repeat split.
Qed.

(** C10.  [close] on an object that holds a key clears the key before it
    builds the logout request, so the request is built with
    [logout=None]: whatever key was held, the only message [close] can
    send is the frame of [Login(username, "", logout=None, task_name)],
    it is sent whenever the object is connected with an open socket, and
    the whole run of [close] is the same for every held key.  This holds
    of every run of [close] that returns or raises, and while the peer
    does not close the connection [close] does return or raise. *)
Theorem logout_request_without_key `{Env} (fuel : nat) (skip_errors : bool)
    (self : Fishbowl) (k : string) :
  key self = Some k -> k <> "" ->
  (forall r self',
     close fuel skip_errors self = Some (r, self') ->
     key self' = None
     /\ (outgoing (stream self') = outgoing (stream self)
         \/ exists user framed,
              username self = Some user
              /\ pack_message (Login user "" None (task_name self)) = Ok framed
              /\ outgoing (stream self') = outgoing (stream self) ++ [framed])
     /\ (forall user framed,
           username self = Some user -> _connected self = true ->
           closed (stream self) = false ->
           pack_message (Login user "" None (task_name self)) = Ok framed ->
           outgoing (stream self') = outgoing (stream self) ++ [framed]))
  /\ (forall k', k' <> "" ->
      close fuel skip_errors (set_key self (Some k'))
      = close fuel skip_errors self)
  /\ (peer_stays (stream self) ->
      exists r self',
        close (S (S (S fuel))) skip_errors self = Some (r, self')
        /\ key self' = None
        /\ (outgoing (stream self') = outgoing (stream self)
            \/ exists user framed,
                 username self = Some user
                 /\ pack_message (Login user "" None (task_name self))
                    = Ok framed
                 /\ outgoing (stream self')
                    = outgoing (stream self) ++ [framed])
        /\ (forall user framed,
              username self = Some user -> _connected self = true ->
              closed (stream self) = false ->
              pack_message (Login user "" None (task_name self)) = Ok framed ->
              outgoing (stream self') = outgoing (stream self) ++ [framed])
        /\ (forall k', k' <> "" ->
            close (S (S (S fuel))) skip_errors (set_key self (Some k'))
            = Some (r, self'))).
Proof.
  intros Hkey Hk.
  assert (Htruthy : forall k0, k0 <> "" -> key_truthy (Some k0) = true)
    by (intros [|c k0] Hne; [now elim Hne | reflexivity]).
  assert (Hpost : forall n r self',
            close n skip_errors self = Some (r, self') ->
            key self' = None
            /\ (outgoing (stream self') = outgoing (stream self)
                \/ exists user framed,
                     username self = Some user
                     /\ pack_message (Login user "" None (task_name self))
                        = Ok framed
                     /\ outgoing (stream self')
                        = outgoing (stream self) ++ [framed])
            /\ (forall user framed,
                  username self = Some user -> _connected self = true ->
                  closed (stream self) = false ->
                  pack_message (Login user "" None (task_name self))
                  = Ok framed ->
                  outgoing (stream self') = outgoing (stream self) ++ [framed])).
  { intros n r self' Hclose.
    assert (Hrun : exists l,
              (r, self') = suppress skip_errors (disconnect (Some k) l)
              /\ key (snd l) = None
              /\ ((outgoing (stream (snd l)) = outgoing (stream self)
                   /\ (username self = None \/ _connected self = false
                       \/ closed (stream self) = true
                       \/ exists user,
                            username self = Some user
                            /\ pack_message
                                 (Login user "" None (task_name self))
                               = Raise StructError))
                  \/ exists user framed,
                       username self = Some user
                       /\ pack_message (Login user "" None (task_name self))
                          = Ok framed
                       /\ outgoing (stream (snd l))
                          = outgoing (stream self) ++ [framed])).
    { assert (Hsome : forall a b : outcome unit * Fishbowl,
                Some a = Some b -> b = a)
        by (intros ? ? E0; now injection E0).
      destruct n as [|n]; [discriminate|].
      cbn [close] in Hclose. rewrite Hkey, Htruthy in Hclose by assumption.
      cbn [username set_key key task_name] in Hclose.
      destruct (username self) as [user|] eqn:Hu.
      2: { apply Hsome in Hclose. eexists. split; [exact Hclose|].
           split; [reflexivity|]. left. auto. }
      destruct (send_message n (set_key self None)
                  (Login user "" None (task_name self)))
        as [[r2 self2]|] eqn:Hs; [|discriminate].
      destruct (send_message_keyless_post n (set_key self None) _ r2 self2
                  eq_refl Hs) as (Hkey2 & Hout & _).
      cbn [set_key stream key _connected] in Hkey2, Hout.
      assert (Hout' :
        (outgoing (stream self2) = outgoing (stream self)
         /\ (Some user = None \/ _connected self = false
             \/ closed (stream self) = true
             \/ exists user0,
                  Some user = Some user0
                  /\ pack_message (Login user0 "" None (task_name self))
                     = Raise StructError))
        \/ exists user0 framed,
             Some user = Some user0
             /\ pack_message (Login user0 "" None (task_name self)) = Ok framed
             /\ outgoing (stream self2) = outgoing (stream self) ++ [framed]).
      { destruct Hout as [[Ho [C|[C|C]]]|(framed & Hp & Ho)]; eauto 8. }
      destruct r2 as [root|e]; apply Hsome in Hclose;
        eexists; (split; [exact Hclose|]);
        cbn [snd]; (split; [exact Hkey2 | exact Hout']). }
    destruct Hrun as (l & Hclose' & Hkl & Hout).
    pose proof (suppress_state skip_errors (disconnect (Some k) l)) as Hst.
    destruct (disconnect_state (Some k) l) as [Hdk Hdo].
    rewrite <- Hclose' in Hst. cbn [snd] in Hst. subst self'.
    split; [rewrite Hdk; exact Hkl|]. split.
    + rewrite Hdo.
      destruct Hout as [[Ho _]|Hsent]; [now left | now right].
    + intros user framed Eu Hc Hcl Hp. rewrite Hdo.
      destruct Hout
        as [[_ [C|[C|[C|(u & Eu' & C)]]]]|(u & framed0 & Eu' & Hp0 & Ho)];
        congruence. }
  assert (Hsame : forall n k', k' <> "" ->
            close n skip_errors (set_key self (Some k'))
            = close n skip_errors self).
  { intros n k' Hk'. destruct n as [|n]; [reflexivity|].
    cbn [close key set_key username task_name].
    rewrite Hkey, !Htruthy by assumption.
    replace (set_key (set_key self (Some k')) None) with (set_key self None)
      by reflexivity.
    destruct (username self) as [user|];
      [destruct (send_message _ _ _) as [[[root|e] c]|]|];
      try reflexivity;
      now rewrite (disconnect_truthy (Some k') (Some k))
        by (rewrite !Htruthy by assumption; reflexivity). }
  split; [apply Hpost|]. split; [apply Hsame|].
  intros Hstays.
  destruct (close_returns fuel skip_errors self Hstays)
    as (r & self' & Hclose).
  destruct (Hpost _ r self' Hclose) as (Hnone & Hout & Hsent).
  exists r, self'. split; [exact Hclose|]. split; [exact Hnone|].
  split; [exact Hout|]. split; [exact Hsent|].
  intros k' Hk'. now rewrite Hsame.
Qed.

Lemma logout_request_without_key_witness :
  exists r self',
    @close example_env 3 false example_logged_in = Some (r, self')
    /\ key self' = None
    /\ outgoing (stream self')
       = [[x00; x00; x00; x06; x61; x64; x6d; x69; x6e; x7c]].
Proof.
  assert (Hne : "s3cr3t"%string <> ""%string) by discriminate.
  assert (Hstays : peer_stays (stream example_logged_in))
    by (intros C; exact C).
  destruct (@logout_request_without_key example_env 0 false example_logged_in
              "s3cr3t" eq_refl Hne)
    as (_ & _ & Hreturns).
  destruct (Hreturns Hstays) as (r & self' & Hclose & Hkey & _ & Hsent & _).
  exists r, self'. split; [exact Hclose|]. split; [exact Hkey|].
  apply (Hsent "admin"); reflexivity.
Defined.

(** ** Dictionaries *)

Section Dicts.

Context {V : Type}.

Lemma dict_get_set (d : dict V) (k k' : string) (v : V) :
  dict_get (dict_set d k v) k'
  = if String.eqb k k' then Some v else dict_get d k'.
Proof.
  induction d as [|[k0 v0] d IH]; cbn [dict_set dict_get].
  - reflexivity.
  - destruct (String.eqb_spec k0 k) as [->|Hne]; cbn [dict_get].
    + destruct (String.eqb k k'); reflexivity.
    + rewrite IH. destruct (String.eqb_spec k0 k') as [->|Hne'];
        [|reflexivity].
      destruct (String.eqb_spec k k') as [->|_]; [now elim Hne | reflexivity].
Qed.

Lemma find_app {A} (p : A -> bool) (l1 l2 : list A) :
  List.find p (l1 ++ l2)
  = match List.find p l1 with Some x => Some x | None => List.find p l2 end.
Proof.
  induction l1 as [|x l1 IH]; cbn; [reflexivity|].
  destruct (p x); [reflexivity | exact IH].
Qed.

(** After [d.update(pairs)] the last pair with a key decides its value. *)
Lemma dict_get_update (pairs : list (string * V)) : forall (d : dict V) k,
  dict_get (dict_update d pairs) k
  = match List.find (fun kv => String.eqb (fst kv) k) (rev pairs) with
    | Some kv => Some (snd kv)
    | None => dict_get d k
    end.
Proof.
  unfold dict_update.
  induction pairs as [|[k0 v0] pairs IH]; intros d k; cbn [fold_left rev].
  - reflexivity.
  - rewrite IH, find_app. cbn [fst snd List.find].
    destruct (List.find _ (rev pairs)); [reflexivity|].
    rewrite dict_get_set. destruct (String.eqb k0 k); reflexivity.
Qed.

Lemma dict_mem_get (d : dict V) (k : string) :
  dict_mem d k = match dict_get d k with Some _ => true | None => false end.
Proof.
  unfold dict_mem, keys.
  induction d as [|[k0 v0] d IH]; cbn; [reflexivity|].
  rewrite String.eqb_sym. destruct (String.eqb k0 k); [reflexivity | exact IH].
Qed.

Lemma dict_mem_set (d : dict V) (k k' : string) (v : V) :
  dict_mem (dict_set d k v) k' = String.eqb k k' || dict_mem d k'.
Proof.
  rewrite !dict_mem_get, dict_get_set.
  destruct (String.eqb k k'); reflexivity.
Qed.

Lemma dict_remove_set_fresh (d : dict V) (k : string) (v : V) :
  dict_mem d k = false -> dict_remove (dict_set d k v) k = d.
Proof.
  unfold dict_mem, keys.
  induction d as [|[k0 v0] d IH]; cbn; intros Hm.
  - now rewrite String.eqb_refl.
  - apply orb_false_iff in Hm as [Hk Hm]. rewrite String.eqb_sym in Hk.
    rewrite Hk. cbn. rewrite Hk, IH by assumption. reflexivity.
Qed.

End Dicts.

(** ** Case-insensitive key resolution *)

Section KeyResolution.

(** The key [last_match] picks is a key of the source that matches, and
    no later key matches. *)
Lemma last_match_spec (field_name : string) (ks : list string) :
  match last_match field_name ks with
  | Some key =>
      exists before after,
        ks = before ++ key :: after
        /\ matches field_name key = true
        /\ Forall (fun k => matches field_name k = false) after
  | None => Forall (fun k => matches field_name k = false) ks
  end.
Proof.
  unfold last_match.
  induction ks as [|k ks IH] using rev_ind; cbn; [constructor|].
  rewrite rev_app_distr. cbn.
  destruct (matches field_name k) eqn:Hk.
  - exists ks, []. auto.
  - destruct (List.find (matches field_name) (rev ks)) as [key|].
    + destruct IH as (before & after & -> & Hm & Hafter).
      exists before, (after ++ [k]). rewrite <- app_assoc. repeat split; auto.
      apply Forall_app. auto.
    + apply Forall_app. auto.
Qed.

Lemma find_lower_pairs (l : string) (ks : list string) :
  List.find (fun kv : string * string => String.eqb (fst kv) l)
            (map (fun k => (lower k, k)) ks)
  = option_map (fun k => (lower k, k))
               (List.find (fun k => String.eqb (lower k) l) ks).
Proof.
  induction ks as [|k ks IH]; cbn; [reflexivity|].
  destruct (String.eqb (lower k) l); [reflexivity | exact IH].
Qed.

(** [data_map.get(field_name.lower())] is the last matching key. *)
Lemma data_map_last_match (data : dict val) (field_name : string) :
  dict_get (data_map data) (lower field_name)
  = last_match field_name (keys data).
Proof.
  unfold data_map, dict_of_pairs, last_match, matches.
  rewrite dict_get_update, <- map_rev, find_lower_pairs.
  destruct (List.find _ (rev (keys data))); reflexivity.
Qed.

Lemma lookup_k_get {A} (key : string) (found : val -> A) (missing : A)
    (d : dict val) :
  lookup_k key found missing d
  = match dict_get d key with Some v => found v | None => missing end.
Proof.
  induction d as [|[k v] d IH]; cbn; [reflexivity|].
  destruct (String.eqb k key); [reflexivity | exact IH].
Qed.

(** One iteration of the field loop, in direct style. *)
Lemma parse_item_eq `{Registry} parse (self : instance) (data : dict val)
    (field_name : string) (p : parser) (output : dict val) :
  parse_item parse self data (field_name, p) output
  = match last_match field_name (keys data) with
    | None => Ok output
    | Some key =>
        match dict_get data key with
        | None | Some VNone => Ok output
        | Some value =>
            r <- resolve_field parse self p value ;;
            match r with
            | None => Ok output
            | Some v => Ok (dict_set output field_name v)
            end
        end
    end.
Proof.
  unfold parse_item. rewrite data_map_last_match.
  destruct (last_match field_name (keys data)) as [key|]; [|reflexivity].
  rewrite lookup_k_get.
  destruct (dict_get data key) as [[]|]; reflexivity.
Qed.

End KeyResolution.

(** C2.  [parse_fields] matches a field name against the
    source keys by their lower-case forms; when several source keys match,
    the one that comes last in the source decides, not the first; a field
    without a matching key, or whose value is [None], is skipped.  With
    fields [{"ID": int, "Name": None}] the source
    [{"id": "42", "name": "Widget"}] resolves to
    [{"ID": 42, "Name": "Widget"}]. *)
Theorem field_lookup_case_insensitive `{Registry} (self : instance)
    (data : dict val) (field_name : string) (p : parser) (output : dict val) :
  parse_item (fun v i f => parse_value v i f) self data (field_name, p) output
  = match last_match field_name (keys data) with
    | None => Ok output
    | Some key =>
        match dict_get data key with
        | None | Some VNone => Ok output
        | Some value =>
            r <- resolve_field (fun v i f => parse_value v i f) self p value ;;
            match r with
            | None => Ok output
            | Some v => Ok (dict_set output field_name v)
            end
        end
    end
  /\ match last_match field_name (keys data) with
     | Some key =>
         exists before after,
           keys data = before ++ key :: after
           /\ lower key = lower field_name
           /\ Forall (fun k => lower k <> lower field_name) after
     | None => Forall (fun k => lower k <> lower field_name) (keys data)
     end
  /\ parse_fields (mk_instance Widget None)
       (FromValue (VDict [("id", VStr "42"); ("name", VStr "Widget")])) None
     = Ok [("ID", VInt 42); ("Name", VStr "Widget")].
Proof.
  split; [apply parse_item_eq|]. split; [|reflexivity].
  assert (Hno : forall ks, Forall (fun k => matches field_name k = false) ks ->
                           Forall (fun k => lower k <> lower field_name) ks).
  { intros ks. apply Forall_impl. intros k Hk. unfold matches in Hk.
    now apply String.eqb_neq. }
  pose proof (last_match_spec field_name (keys data)) as Hspec.
  destruct (last_match field_name (keys data)) as [key|]; [|now apply Hno].
  destruct Hspec as (before & after & Hks & Hm & Hafter).
  exists before, after. repeat split; [assumption | | now apply Hno].
  now apply String.eqb_eq.
Qed.

(** C2: the first matching key does not win.  With source keys ["name"]
    and ["NAME"], in this order, the first match is ["name"], and the
    field resolves to the value of ["NAME"]. *)
Lemma first_match_does_not_win :
  first_match "Name" (keys [("name", VStr "first"); ("NAME", VStr "second")])
  = Some "name"
  /\ @parse_fields empty_registry (mk_instance Widget None)
       (FromValue (VDict [("name", VStr "first"); ("NAME", VStr "second")]))
       None
     = Ok [("Name", VStr "second")].
Proof. split; reflexivity. Qed.

(** ** The field loop *)

Section FieldLoop.

Context `{Registry}.

Lemma for_each_app {A S} (body : A -> S -> outcome S) (xs ys : list A) (s : S) :
  for_each body (xs ++ ys) s
  = (s' <- for_each body xs s ;; for_each body ys s').
Proof.
  revert s. induction xs as [|x xs IH]; intros s; cbn; [reflexivity|].
  destruct (body x s); [apply IH | reflexivity].
Qed.

(** One iteration, in terms of the value the source holds for the field. *)
Lemma parse_item_source parse (self : instance) (data : dict val)
    (field_name : string) (p : parser) (output : dict val) :
  parse_item parse self data (field_name, p) output
  = match source_value data field_name with
    | None => Ok output
    | Some value =>
        r <- resolve_field parse self p value ;;
        match r with
        | None => Ok output
        | Some v => Ok (dict_set output field_name v)
        end
    end.
Proof.
  rewrite parse_item_eq. unfold source_value.
  destruct (last_match field_name (keys data)) as [key|]; [|reflexivity].
  destruct (dict_get data key) as [[]|]; reflexivity.
Qed.

(** [parse_fields] on a dictionary: the loop over the items, then the
    rename step. *)
Lemma parse_fields_dict (self : instance) (data : dict val)
    (fields_arg : option schema) (fields : schema) :
  effective_fields self fields_arg = Ok fields ->
  parse_fields self (FromValue (VDict data)) fields_arg
  = (output <- map_items self data (items_of self fields) [] ;;
     Ok (rename_id self output)).
Proof. intros E. cbn [parse_fields parse_value]. rewrite E. reflexivity. Qed.

(** An iteration adds no key but its own field name. *)
Lemma parse_item_mem parse (self : instance) (data : dict val)
    (item : string * parser) (output output' : dict val) (k : string) :
  parse_item parse self data item output = Ok output' ->
  dict_mem output' k = true -> dict_mem output k = true \/ k = fst item.
Proof.
  destruct item as [field_name p]. rewrite parse_item_source.
  destruct (source_value data field_name) as [value|].
  2: { intros E; injection E as <-; auto. }
  destruct (resolve_field parse self p value) as [[v|]|e]; cbn [bind];
    intros E; try discriminate; injection E as <-; auto.
  rewrite dict_mem_set. intros Hm. apply orb_true_iff in Hm as [Hm|Hm]; auto.
  right. symmetry. now apply String.eqb_eq.
Qed.

Lemma for_each_mem parse (self : instance) (data : dict val)
    (items : list (string * parser)) : forall (output output' : dict val) k,
  for_each (parse_item parse self data) items output = Ok output' ->
  dict_mem output' k = true -> dict_mem output k = true \/ In k (keys items).
Proof.
  induction items as [|item items IH]; intros output output' k; cbn.
  - intros E; injection E as <-; auto.
  - destruct (parse_item parse self data item output) as [o1|e] eqn:E1;
      [|discriminate].
    intros E Hm. destruct (IH _ _ _ E Hm) as [Hm1|Hin]; auto.
    destruct (parse_item_mem _ _ _ _ _ _ _ E1 Hm1); auto.
Qed.

Lemma dict_mem_In {V} (d : dict V) (k : string) :
  dict_mem d k = true <-> In k (keys d).
Proof.
  unfold dict_mem. rewrite existsb_exists. split.
  - intros (x & Hin & Hx). apply String.eqb_eq in Hx. now subst.
  - intros Hin. exists k. split; [assumption | apply String.eqb_refl].
Qed.

(** The entries of a loop that started empty come from its items. *)
Lemma map_items_fresh (self : instance) (data : dict val)
    (items : list (string * parser)) (output : dict val) (k : string) :
  map_items self data items [] = Ok output ->
  dict_mem items k = false -> dict_mem output k = false.
Proof.
  intros E Hk. destruct (dict_mem output k) eqn:Hm; [|reflexivity].
  destruct (for_each_mem _ _ _ _ _ _ _ E Hm) as [C|C]; [discriminate|].
  apply dict_mem_In in C. congruence.
Qed.

End FieldLoop.

(** ** The identifier rename *)

Section Rename.

Context `{Registry}.

Lemma dict_remove_absent {V} (d : dict V) (k : string) :
  dict_get d k = None -> dict_remove d k = d.
Proof.
  induction d as [|[k0 v0] d IH]; cbn; [reflexivity|].
  destruct (String.eqb k0 k); [discriminate|]. intros E. now rewrite IH.
Qed.

Lemma attr_truthy_nonempty (idf : string) :
  idf <> "" -> attr_truthy (Some idf) = true.
Proof. destruct idf; [intros C; now elim C | reflexivity]. Qed.

(** The rename step on an object whose class sets [id_field]. *)
Lemma rename_id_eq (self : instance) (idf : string) (output : dict val) :
  id_field (cls self) = Some idf -> idf <> "" ->
  rename_id self output
  = if dict_mem output idf then output
    else match dict_get output "ID" with
         | Some v =>
             if truthy v then dict_set (dict_remove output "ID") idf v
             else dict_remove output "ID"
         | None => output
         end.
Proof.
  intros Hid Hne. unfold rename_id. rewrite Hid.
  destruct idf as [|c t]; [now elim Hne|].
  destruct (dict_mem output (String c t)); cbn [negb]; [reflexivity|].
  unfold dict_pop.
  destruct (dict_get output "ID") eqn:E; [reflexivity|].
  now apply dict_remove_absent.
Qed.

Lemma items_of_synthesized (self : instance) (idf : string) (fields : schema) :
  id_field (cls self) = Some idf -> idf <> "" -> dict_mem fields "ID" = false ->
  items_of self fields = fields ++ [("ID", PFun py_int)].
Proof.
  intros Hid Hne Hm. unfold items_of.
  now rewrite Hid, attr_truthy_nonempty, Hm.
Qed.

(** The loop with the synthesized item: the declared fields first, then
    ["ID"] parsed by [int] when the source holds a value for it. *)
Lemma map_items_synthesized (self : instance) (data : dict val)
    (fields : schema) (out0 : dict val) :
  map_items self data fields [] = Ok out0 ->
  map_items self data (fields ++ [("ID", PFun py_int)]) []
  = Ok match source_value data "ID" with
       | None => out0
       | Some value =>
           match py_int value with
           | Ok v => dict_set out0 "ID" v
           | Raise _ => out0
           end
       end.
Proof.
  unfold map_items. intros E. rewrite for_each_app, E. cbn [bind for_each].
  rewrite parse_item_source.
  destruct (source_value data "ID") as [value|]; [|reflexivity].
  cbn [resolve_field]. destruct (py_int value); reflexivity.
Qed.

End Rename.

(** C3.  For a class that sets [id_field] and fields without
    a literal "ID" entry, [parse_fields] appends the item [("ID", int)] to
    the fields to resolve.  After the loop, when the [id_field] name is
    not "ID" and is not already a key of the result, a truthy "ID" value
    is removed and stored under the [id_field] name, so that the result
    has no "ID" key; when no "ID" value was produced the result is that of
    the declared fields alone; when the [id_field] name is already a key
    of the result (or is "ID" itself) the result keeps the "ID" entry and
    nothing is renamed.  With [id_field = "PartID"] and a source that holds
    "7" under "id", the result maps "PartID" to 7 and has no "ID" key. *)
Theorem id_rename `{Registry} (self : instance) (fields_arg : option schema)
    (fields : schema) (data : dict val) (idf : string) (out0 : dict val) :
  effective_fields self fields_arg = Ok fields ->
  id_field (cls self) = Some idf -> idf <> "" ->
  dict_mem fields "ID" = false ->
  map_items self data fields [] = Ok out0 ->
  items_of self fields = fields ++ [("ID", PFun py_int)]
  /\ (forall value v,
        source_value data "ID" = Some value -> py_int value = Ok v ->
        truthy v = true -> idf <> "ID" -> dict_mem out0 idf = false ->
        parse_fields self (FromValue (VDict data)) fields_arg
        = Ok (dict_set out0 idf v)
        /\ dict_get (dict_set out0 idf v) idf = Some v
        /\ dict_mem (dict_set out0 idf v) "ID" = false)
  /\ (source_value data "ID" = None
      \/ (exists value e, source_value data "ID" = Some value
                          /\ py_int value = Raise e) ->
      parse_fields self (FromValue (VDict data)) fields_arg = Ok out0)
  /\ (forall value v,
        source_value data "ID" = Some value -> py_int value = Ok v ->
        idf = "ID" \/ dict_mem out0 idf = true ->
        parse_fields self (FromValue (VDict data)) fields_arg
        = Ok (dict_set out0 "ID" v))
  /\ @parse_fields empty_registry (mk_instance Item None)
       (FromValue (VDict [("id", VStr "7"); ("num", VStr "x")])) None
     = Ok [("Num", VStr "x"); ("PartID", VInt 7)].
Proof.
  intros Hf Hid Hne Hno Hloop.
  pose proof (items_of_synthesized self idf fields Hid Hne Hno) as Hitems.
  pose proof (map_items_fresh self data fields out0 "ID" Hloop Hno) as Hfresh.
  assert (Hparse : parse_fields self (FromValue (VDict data)) fields_arg
                   = Ok (rename_id self
                           match source_value data "ID" with
                           | None => out0
                           | Some value =>
                               match py_int value with
                               | Ok v => dict_set out0 "ID" v
                               | Raise _ => out0
                               end
                           end)).
  { rewrite (parse_fields_dict self data fields_arg fields Hf), Hitems.
    rewrite (map_items_synthesized self data fields out0 Hloop). reflexivity. }
  assert (Hnoid : dict_get out0 "ID" = None).
  { rewrite dict_mem_get in Hfresh. now destruct (dict_get out0 "ID"). }
  split; [exact Hitems|]. split; [|split; [|split; [|reflexivity]]].
  - intros value v Hv Hint Ht Hidf Hm. rewrite Hparse, Hv, Hint.
    rewrite (rename_id_eq self idf _ Hid Hne).
    rewrite dict_mem_set, Hm, dict_get_set, String.eqb_refl, Ht.
    replace (String.eqb "ID" idf) with false
      by (symmetry; apply String.eqb_neq; congruence).
    cbn [orb]. rewrite dict_remove_set_fresh by assumption.
    split; [reflexivity|]. split.
    + now rewrite dict_get_set, String.eqb_refl.
    + rewrite dict_mem_set, Hfresh.
      replace (String.eqb idf "ID") with false
        by (symmetry; now apply String.eqb_neq).
      reflexivity.
  - intros Hnone. rewrite Hparse.
    assert (E : match source_value data "ID" with
                | None => out0
                | Some value =>
                    match py_int value with
                    | Ok v => dict_set out0 "ID" v
                    | Raise _ => out0
                    end
                end = out0).
    { destruct Hnone as [->|(value & e & -> & ->)]; reflexivity. }
    rewrite E, (rename_id_eq self idf _ Hid Hne), Hnoid.
    destruct (dict_mem out0 idf); reflexivity.
  - intros value v Hv Hint Hguard. rewrite Hparse, Hv, Hint.
    rewrite (rename_id_eq self idf _ Hid Hne), dict_mem_set.
    destruct Hguard as [->|Hm]; [reflexivity|].
    rewrite Hm, orb_true_r. reflexivity.
Qed.

Lemma id_rename_witness :
  @parse_fields empty_registry (mk_instance Item None)
    (FromValue (VDict [("id", VStr "7"); ("num", VStr "x")])) None
  = Ok [("Num", VStr "x"); ("PartID", VInt 7)].
Proof.
  assert (Hne : "PartID" <> "") by discriminate.
  assert (Hidf : "PartID" <> "ID") by discriminate.
  destruct (@id_rename empty_registry (mk_instance Item None) None
              [("Num", PNone)] [("id", VStr "7"); ("num", VStr "x")]
              "PartID" [("Num", VStr "x")]
              eq_refl eq_refl Hne eq_refl eq_refl)
    as (_ & Hmoved & _).
  exact (proj1 (Hmoved (VStr "7") (VInt 7) eq_refl eq_refl eq_refl Hidf eq_refl)).
Defined.

(** C3: the "ID" entry is not always removed.  The shipped [Part] class
    sets [id_field = "PartID"], declares a "PartID" field and no "ID"
    field; on a source that holds both, the result keeps the "ID" entry
    and "PartID" holds its own value. *)
Lemma id_rename_skipped_when_present :
  id_field PartHead = Some "PartID"
  /\ dict_mem [("PartID", PFun py_int); ("Num", PNone)] "ID" = false
  /\ @parse_fields empty_registry (mk_instance PartHead None)
       (FromValue (VDict [("PartID", VStr "5"); ("id", VStr "7")])) None
     = Ok [("PartID", VInt 5); ("ID", VInt 7)].
Proof. repeat split. Qed.

(** C9.  In the rename step the "ID" value is stored under
    the [id_field] name only when it is truthy.  For a class that sets
    [id_field] to a name other than "ID", fields without a literal "ID"
    entry, and a result that does not already hold the [id_field] key, a
    source whose "id" parses to 0 resolves to the declared fields alone:
    the "ID" entry is removed, nothing is stored under the [id_field]
    name, and the result contains neither key. *)
Theorem falsy_id_dropped `{Registry} (self : instance)
    (fields_arg : option schema) (fields : schema) (data : dict val)
    (idf : string) (out0 : dict val) (value v : val) :
  effective_fields self fields_arg = Ok fields ->
  id_field (cls self) = Some idf -> idf <> "" -> idf <> "ID" ->
  dict_mem fields "ID" = false ->
  map_items self data fields [] = Ok out0 ->
  dict_mem out0 idf = false ->
  source_value data "ID" = Some value -> py_int value = Ok v ->
  truthy v = false ->
  parse_fields self (FromValue (VDict data)) fields_arg = Ok out0
  /\ dict_mem out0 "ID" = false
  /\ dict_mem out0 idf = false
  /\ (forall output v',
        dict_mem output idf = false -> dict_get output "ID" = Some v' ->
        rename_id self output
        = if truthy v' then dict_set (dict_remove output "ID") idf v'
          else dict_remove output "ID").
Proof.
  intros Hf Hid Hne Hidf Hno Hloop Hm Hv Hint Hfalsy.
  pose proof (map_items_fresh self data fields out0 "ID" Hloop Hno) as Hfresh.
  split; [|split; [exact Hfresh|split; [exact Hm|]]].
  - rewrite (parse_fields_dict self data fields_arg fields Hf).
    rewrite (items_of_synthesized self idf fields Hid Hne Hno).
    rewrite (map_items_synthesized self data fields out0 Hloop), Hv, Hint.
    cbn [bind]. rewrite (rename_id_eq self idf _ Hid Hne).
    rewrite dict_mem_set, Hm, dict_get_set, String.eqb_refl, Hfalsy.
    replace (String.eqb "ID" idf) with false
      by (symmetry; apply String.eqb_neq; congruence).
    cbn [orb]. now rewrite dict_remove_set_fresh.
  - intros output v' Hm' Hget.
    now rewrite (rename_id_eq self idf _ Hid Hne), Hm', Hget.
Qed.

Lemma falsy_id_dropped_witness :
  @parse_fields empty_registry (mk_instance Item None)
    (FromValue (VDict [("id", VStr "0"); ("num", VStr "x")])) None
  = Ok [("Num", VStr "x")].
Proof.
  assert (Hne : "PartID" <> "") by discriminate.
  assert (Hidf : "PartID" <> "ID") by discriminate.
  exact (proj1 (@falsy_id_dropped empty_registry (mk_instance Item None) None
                  [("Num", PNone)] [("id", VStr "0"); ("num", VStr "x")]
                  "PartID" [("Num", VStr "x")] (VStr "0") (VInt 0)
                  eq_refl eq_refl Hne Hidf eq_refl eq_refl eq_refl eq_refl
                  eq_refl eq_refl)).
Defined.

(** C9: a falsy "ID" is not always removed.  With the "PartID" key
    already in the result, a source whose "id" parses to 0 keeps both the
    "ID" entry and the [id_field] key. *)
Lemma falsy_id_kept_when_present :
  py_int (VStr "0") = Ok (VInt 0)
  /\ truthy (VInt 0) = false
  /\ @parse_fields empty_registry (mk_instance PartHead None)
       (FromValue (VDict [("PartID", VStr "5"); ("id", VStr "0")])) None
     = Ok [("PartID", VInt 5); ("ID", VInt 0)].
Proof. repeat split. Qed.

(** ** Scalar conversion failures *)

Section ScalarFailure.

Context `{Registry}.

Lemma dict_mem_remove {V} (d : dict V) (k k' : string) :
  dict_mem (dict_remove d k) k' = true -> dict_mem d k' = true.
Proof.
  unfold dict_mem, keys.
  induction d as [|[k0 v0] d IH]; cbn; [auto|].
  destruct (String.eqb k0 k); cbn.
  - intros ->. apply orb_true_r.
  - intros Hm. apply orb_true_iff in Hm as [->|Hm]; [reflexivity|].
    rewrite IH by assumption. apply orb_true_r.
Qed.

(** The rename step adds no key but the [id_field] name. *)
Lemma rename_id_mem (self : instance) (output : dict val) (k : string) :
  dict_mem (rename_id self output) k = true ->
  dict_mem output k = true \/ id_field (cls self) = Some k.
Proof.
  unfold rename_id.
  destruct (id_field (cls self)) as [[|c t]|]; auto.
  destruct (dict_mem output (String c t)); cbn [negb]; auto.
  unfold dict_pop. destruct (dict_get output "ID") as [v|]; [|auto].
  - destruct (truthy v).
    + rewrite dict_mem_set. intros Hm.
      apply orb_true_iff in Hm as [Hm|Hm].
      * right. apply String.eqb_eq in Hm. now subst.
      * left. eapply dict_mem_remove; eassumption.
    + intros Hm. left. eapply dict_mem_remove; eassumption.
  - intros Hm. left. eapply dict_mem_remove; eassumption.
Qed.

(** A scalar parser that raises makes its iteration a no-op. *)
Lemma parse_item_scalar_failure parse (self : instance) (data : dict val)
    (field_name : string) (f : val -> outcome val) (value : val) (e : exn)
    (output : dict val) :
  source_value data field_name = Some value -> f value = Raise e ->
  parse_item parse self data (field_name, PFun f) output = Ok output.
Proof.
  intros Hv Hf. rewrite parse_item_source, Hv. cbn [resolve_field].
  rewrite Hf. reflexivity.
Qed.

Lemma dict_mem_app {V} (d1 d2 : dict V) (k : string) :
  dict_mem (d1 ++ d2) k = dict_mem d1 k || dict_mem d2 k.
Proof. unfold dict_mem, keys. now rewrite map_app, existsb_app. Qed.

End ScalarFailure.

(** C5.  When the scalar parser of a field raises on the value the source
    holds for it, the iteration for that field leaves the mapping under
    construction as it is and raises nothing; the loop over all items
    gives what it gives without that item, so every sibling resolves as it
    would have without the failing field, and [parse_fields] returns
    exactly the rename step applied to that.  When the field is not "ID"
    (or the class sets no [id_field]) this is the result for the fields
    without the failing one, and unless the failing field bears the
    [id_field] name the result has no entry under its name.  When it does
    bear the [id_field] name, the rename step finds no entry under that
    name and moves a truthy "ID" value there: the field is then present,
    with the value of "ID". *)
Theorem scalar_failure_omits_field `{Registry} (self : instance)
    (fields_arg : option schema) (data : dict val) (before after : schema)
    (field_name : string) (f : val -> outcome val) (value : val) (e : exn) :
  effective_fields self fields_arg
  = Ok (before ++ (field_name, PFun f) :: after) ->
  source_value data field_name = Some value ->
  f value = Raise e ->
  (forall output,
     map_items self data [(field_name, PFun f)] output = Ok output)
  /\ (forall items_before items_after output,
        map_items self data
          (items_before ++ (field_name, PFun f) :: items_after) output
        = map_items self data (items_before ++ items_after) output)
  /\ (exists synthesized,
        items_of self (before ++ (field_name, PFun f) :: after)
        = before ++ (field_name, PFun f) :: after ++ synthesized
        /\ parse_fields self (FromValue (VDict data)) fields_arg
           = (output <- map_items self data
                          (before ++ after ++ synthesized) [] ;;
              Ok (rename_id self output)))
  /\ (field_name <> "ID" \/ attr_truthy (id_field (cls self)) = false ->
      parse_fields self (FromValue (VDict data)) fields_arg
      = parse_fields self (FromValue (VDict data)) (Some (before ++ after)))
  /\ (forall output,
        ~ In field_name (keys (before ++ after)) ->
        id_field (cls self) <> Some field_name ->
        parse_fields self (FromValue (VDict data)) fields_arg = Ok output ->
        dict_mem output field_name = false)
  /\ (exists synthesized,
        items_of self (before ++ (field_name, PFun f) :: after)
        = before ++ (field_name, PFun f) :: after ++ synthesized
        /\ forall output,
             ~ In field_name (keys (before ++ after)) ->
             id_field (cls self) = Some field_name -> field_name <> "" ->
             map_items self data (before ++ after ++ synthesized) []
             = Ok output ->
             parse_fields self (FromValue (VDict data)) fields_arg
             = Ok match dict_get output "ID" with
                  | Some v =>
                      if truthy v
                      then dict_set (dict_remove output "ID") field_name v
                      else dict_remove output "ID"
                  | None => output
                  end).
Proof.
  intros Hfields Hv Hf.
  assert (Hskip : forall output,
            parse_item (fun v i fl => parse_value v i fl) self data
                       (field_name, PFun f) output = Ok output)
    by (intros; eapply parse_item_scalar_failure; eassumption).
  assert (Hloop : forall items_before items_after output,
            map_items self data
              (items_before ++ (field_name, PFun f) :: items_after) output
            = map_items self data (items_before ++ items_after) output).
  { intros ib ia output. unfold map_items. rewrite !for_each_app.
    destruct (for_each _ ib output) as [o|]; [|reflexivity].
    cbn [bind for_each]. now rewrite Hskip. }
  assert (Hitems : exists synthesized,
            items_of self (before ++ (field_name, PFun f) :: after)
            = before ++ (field_name, PFun f) :: after ++ synthesized
            /\ (synthesized = []
                \/ synthesized = [("ID", PFun py_int)]
                   /\ dict_mem (before ++ (field_name, PFun f) :: after) "ID"
                      = false)).
  { unfold items_of.
    destruct (attr_truthy (id_field (cls self))
              && negb (dict_mem (before ++ (field_name, PFun f) :: after) "ID"))
      eqn:E.
    - exists [("ID", PFun py_int)]. rewrite <- app_assoc. split; [reflexivity|].
      right. split; [reflexivity|].
      apply andb_true_iff in E as [_ E]. now apply negb_true_iff in E.
    - exists []. now rewrite app_nil_r; auto. }
  destruct Hitems as (synthesized & Hitems & Hsyn).
  assert (Hparse : parse_fields self (FromValue (VDict data)) fields_arg
                   = (output <- map_items self data
                                  (before ++ after ++ synthesized) [] ;;
                      Ok (rename_id self output))).
  { rewrite (parse_fields_dict self data fields_arg _ Hfields), Hitems.
    now rewrite Hloop. }
  assert (Hfresh : ~ In field_name (keys (before ++ after)) ->
                   dict_mem (before ++ after ++ synthesized) field_name
                   = false).
  { intros Hnotin. rewrite app_assoc, dict_mem_app.
    replace (dict_mem (before ++ after) field_name) with false.
    2: { symmetry. destruct (dict_mem (before ++ after) field_name) eqn:E;
           [|reflexivity]. apply dict_mem_In in E. contradiction. }
    destruct Hsyn as [->|[-> Hno]]; [reflexivity|].
    cbn. rewrite orb_false_r. apply String.eqb_neq. intros ->.
    rewrite dict_mem_app in Hno. apply orb_false_iff in Hno as [_ Hno].
    unfold dict_mem in Hno. cbn in Hno. discriminate. }
  split; [intros output; unfold map_items; cbn [for_each]; now rewrite Hskip|].
  split; [exact Hloop|]. split; [eauto|]. split; [|split].
  3: { exists synthesized. split; [exact Hitems|].
       intros output Hnotin Hid Hne Eloop. rewrite Hparse, Eloop. cbn [bind].
       rewrite (rename_id_eq self field_name output Hid Hne).
       now rewrite (map_items_fresh self data _ output field_name Eloop
                      (Hfresh Hnotin)). }
  - intros Hside. rewrite Hparse.
    rewrite (parse_fields_dict self data (Some (before ++ after))
               (before ++ after) eq_refl).
    do 2 f_equal. unfold items_of in *.
    assert (Hmem : dict_mem (before ++ (field_name, PFun f) :: after) "ID"
                   = String.eqb "ID" field_name || dict_mem (before ++ after) "ID").
    { rewrite !dict_mem_app. unfold dict_mem at 2. cbn [keys map fst existsb].
      fold (keys after). fold (dict_mem after "ID").
      destruct (dict_mem before "ID"), (String.eqb "ID" field_name),
        (dict_mem after "ID"); reflexivity. }
    rewrite Hmem in Hitems.
    destruct Hside as [Hne|Hno].
    + replace (String.eqb "ID" field_name) with false in Hitems
        by (symmetry; apply String.eqb_neq; congruence).
      cbn [orb] in Hitems.
      destruct (attr_truthy (id_field (cls self))
                && negb (dict_mem (before ++ after) "ID")).
      * rewrite <- app_assoc in Hitems. cbn [app] in Hitems.
        apply app_inv_head in Hitems. injection Hitems as Hitems.
        apply app_inv_head in Hitems. subst. now rewrite app_assoc.
      * rewrite <- (app_nil_r (before ++ _ :: after)) in Hitems at 1.
        rewrite <- app_assoc in Hitems. cbn [app] in Hitems.
        apply app_inv_head in Hitems. injection Hitems as Hitems.
        rewrite app_nil_r in Hitems.
        rewrite <- (app_nil_r after) in Hitems at 1.
        apply app_inv_head in Hitems. subst. now rewrite !app_nil_r.
    + rewrite Hno in *. cbn [andb] in *.
      rewrite <- (app_nil_r (before ++ _ :: after)) in Hitems at 1.
      rewrite <- app_assoc in Hitems. cbn [app] in Hitems.
      apply app_inv_head in Hitems. injection Hitems as Hitems.
      rewrite app_nil_r in Hitems.
      rewrite <- (app_nil_r after) in Hitems at 1.
      apply app_inv_head in Hitems. subst. now rewrite !app_nil_r.
  - intros output Hnotin Hidf Hout. rewrite Hparse in Hout.
    destruct (map_items self data (before ++ after ++ synthesized) [])
      as [out|] eqn:Eloop; [|discriminate].
    cbn [bind] in Hout. injection Hout as <-.
    destruct (dict_mem (rename_id self out) field_name) eqn:Hm; [|reflexivity].
    destruct (rename_id_mem self out field_name Hm) as [Hm'|C];
      [|contradiction].
    rewrite (map_items_fresh self data _ out field_name Eloop
               (Hfresh Hnotin)) in Hm'.
    discriminate.
Qed.

Lemma scalar_failure_omits_field_witness :
  @parse_fields empty_registry (mk_instance Widget None)
    (FromValue (VDict [("id", VStr "4x2"); ("name", VStr "Widget")])) None
  = Ok [("Name", VStr "Widget")].
Proof.
  destruct (@scalar_failure_omits_field empty_registry (mk_instance Widget None)
              None [("id", VStr "4x2"); ("name", VStr "Widget")]
              [] [("Name", PNone)] "ID" py_int (VStr "4x2") ValueError
              eq_refl eq_refl eq_refl)
    as (_ & _ & _ & Hsame & _).
  rewrite Hsame; [reflexivity | now right].
Defined.

(** C5: a failing field that is not omitted.  With the shape of the
    shipped [Part] class ([id_field = "PartID"], a declared "PartID"
    field parsed by [int], no "ID" field), [int] raises on the text held
    for "PartID"; the loop leaves the field out, and the rename step
    then files the synthesized "ID" under "PartID". *)
Lemma scalar_failure_field_refilled :
  effective_fields (mk_instance PartHead None) None
  = Ok [("PartID", PFun py_int); ("Num", PNone)]
  /\ source_value [("PartID", VStr "abc"); ("id", VStr "7")] "PartID"
     = Some (VStr "abc")
  /\ py_int (VStr "abc") = Raise ValueError
  /\ @parse_fields empty_registry (mk_instance PartHead None)
       (FromValue (VDict [("PartID", VStr "abc"); ("id", VStr "7")])) None
     = Ok [("PartID", VInt 7)]
  /\ dict_mem [("PartID", VInt 7)] "PartID" = true.
Proof. repeat split. Qed.

(** ** Polymorphic lists *)

Section PolymorphicList.

Context `{Registry}.







End PolymorphicList.


(** ** Lazy objects *)

Section LazyObjects.

Context `{Registry}.
Variable World : Type.

(** Once the mapping is there, an access reads it and changes nothing. *)
Lemma getitem_resolved (h : heap World) (m : dict val) (k : string) :
  _mapped World (obj World h) = Some m ->
  getitem World k h
  = (match dict_get m k with Some v => Ok v | None => Raise KeyError end, h).
Proof.
  intros Hm. unfold getitem, mapped. rewrite Hm.
  destruct (dict_get m k); reflexivity.
Qed.

Lemma accesses_resolved (ks : list string) : forall (h : heap World) m,
  _mapped World (obj World h) = Some m -> accesses World ks h = h.
Proof.
  induction ks as [|k ks IH]; intros h m Hm; cbn [accesses]; [reflexivity|].
  rewrite (getitem_resolved h m k Hm). cbn [snd]. now apply (IH h m).
Qed.

(** The first access of an unresolved object whose loader returns data
    that maps: one call of the loader, and the mapping is stored. *)
Lemma getitem_first (h : heap World) (load : loader World) (data : source)
    (w : World) (m : dict val) (k : string) :
  _mapped World (obj World h) = None ->
  _lazy_load World (obj World h) = Some load ->
  load (world World h) = (Ok data, w) ->
  parse_fields (self_ World (obj World h)) data None = Ok m ->
  getitem World k h
  = (match dict_get m k with Some v => Ok v | None => Raise KeyError end,
     mk_heap World
       (mk_FishbowlObject World (self_ World (obj World h)) (Some load) (Some m))
       w (S (loads World h))).
Proof.
  intros Hm Hl Hload Hparse. unfold getitem, mapped.
  rewrite Hm, Hl, Hload. cbn [obj loads]. rewrite Hparse, Hl.
  destruct (dict_get m k); reflexivity.
Qed.

(** An access whose loader raises stores nothing. *)
Lemma getitem_load_failure (h : heap World) (load : loader World) (e : exn)
    (w : World) (k : string) :
  _mapped World (obj World h) = None ->
  _lazy_load World (obj World h) = Some load ->
  load (world World h) = (Raise e, w) ->
  getitem World k h
  = (Raise e, mk_heap World (obj World h) w (S (loads World h))).
Proof.
  intros Hm Hl Hload. unfold getitem, mapped. now rewrite Hm, Hl, Hload.
Qed.

(** An access whose loader returns data that does not map stores
    nothing either. *)
Lemma getitem_parse_failure (h : heap World) (load : loader World)
    (data : source) (e : exn) (w : World) (k : string) :
  _mapped World (obj World h) = None ->
  _lazy_load World (obj World h) = Some load ->
  load (world World h) = (Ok data, w) ->
  parse_fields (self_ World (obj World h)) data None = Raise e ->
  getitem World k h
  = (Raise e, mk_heap World (obj World h) w (S (loads World h))).
Proof.
  intros Hm Hl Hload Hparse. unfold getitem, mapped.
  rewrite Hm, Hl, Hload. cbn [obj loads]. now rewrite Hparse.
Qed.

(** Every access of an unresolved object calls its loader. *)
Lemma getitem_unresolved_loads (h : heap World) (load : loader World)
    (k : string) :
  _mapped World (obj World h) = None ->
  _lazy_load World (obj World h) = Some load ->
  loads World (snd (getitem World k h)) = S (loads World h).
Proof.
  intros Hm Hl. unfold getitem, mapped. rewrite Hm, Hl.
  destruct (load (world World h)) as [[data|e] w]; [|reflexivity].
  cbn [obj loads].
  destruct (parse_fields (self_ World (obj World h)) data None) as [m|e];
    [|reflexivity].
  destruct (dict_get m k); reflexivity.
Qed.

End LazyObjects.

(** C8.  An object constructed with a loader and no data holds no
    mapping.  Its first access calls the loader; when the loader returns
    and its data maps, the mapping is stored, every access reads it, and
    no later access calls the loader again: any run of one or more
    accesses calls the loader exactly once, two accesses in particular.
    An access whose loader raises, or whose loader returns data that
    [parse_fields] fails on, passes the exception on and stores nothing,
    so the object stays unresolved and the next access calls the loader
    again. *)
Theorem lazy_mapped_cached `{Registry} (World : Type) (c : class)
    (custom : option schema) (load : loader World) (o : FishbowlObject World)
    (w0 w : World) (n : nat) (data : source) (m : dict val) :
  init World c (FromValue VNone) (Some load) custom = Ok o ->
  load w0 = (Ok data, w) ->
  parse_fields (mk_instance c custom) data None = Ok m ->
  let h := mk_heap World o w0 n in
  let resolved :=
    mk_heap World
      (mk_FishbowlObject World (mk_instance c custom) (Some load) (Some m))
      w (S n) in
  _mapped World o = None
  /\ (forall k,
        getitem World k h
        = (match dict_get m k with Some v => Ok v | None => Raise KeyError end,
           resolved))
  /\ (forall k,
        getitem World k resolved
        = (match dict_get m k with Some v => Ok v | None => Raise KeyError end,
           resolved))
  /\ (forall k ks, accesses World (k :: ks) h = resolved)
  /\ (forall k ks, loads World (accesses World (k :: ks) h) = S n)
  /\ (forall k1 k2, loads World (accesses World [k1; k2] h) = S n)
  /\ (forall w1 w2 e k,
        load w1 = (Raise e, w2) ->
        getitem World k (mk_heap World o w1 n)
        = (Raise e, mk_heap World o w2 (S n)))
  /\ (forall w1 w2 data' e k,
        load w1 = (Ok data', w2) ->
        parse_fields (mk_instance c custom) data' None = Raise e ->
        getitem World k (mk_heap World o w1 n)
        = (Raise e, mk_heap World o w2 (S n)))
  /\ (forall w1 n1 k,
        loads World (snd (getitem World k (mk_heap World o w1 n1))) = S n1).
Proof.
  intros Hinit Hload Hparse h resolved.
  cbn in Hinit. injection Hinit as <-.
  assert (Hfirst : forall k,
            getitem World k h
            = (match dict_get m k with
               | Some v => Ok v
               | None => Raise KeyError
               end, resolved))
    by (intros k; now apply getitem_first with (data := data)).
  assert (Hrun : forall k ks, accesses World (k :: ks) h = resolved).
  { intros k ks. cbn [accesses]. rewrite Hfirst. cbn [snd].
    now apply accesses_resolved with (m := m). }
  split; [reflexivity|]. split; [exact Hfirst|].
  split; [|split; [exact Hrun|split; [|split; [|split; [|split]]]]].
  - intros k. now apply getitem_resolved.
  - intros k ks. now rewrite Hrun.
  - intros k1 k2. now rewrite Hrun.
  - intros w1 w2 e k Hfail. now apply getitem_load_failure with (load := load).
  - intros w1 w2 data' e k Hok Hfail.
    now apply getitem_parse_failure with (load := load) (data := data').
  - intros w1 n1 k.
    now apply (getitem_unresolved_loads World (mk_heap World _ w1 n1)
                 load k).
Qed.

Lemma lazy_mapped_cached_witness :
  loads nat (@accesses empty_registry nat ["PartID"; "Num"]
               (lazy_heap Item counting_loader)) = 1%nat
  /\ world nat (@accesses empty_registry nat ["PartID"; "Num"]
                  (lazy_heap Item counting_loader)) = 1%nat.
Proof.
  destruct (@lazy_mapped_cached empty_registry nat Item None counting_loader
              (mk_FishbowlObject nat (mk_instance Item None)
                                 (Some counting_loader) None)
              0%nat 1%nat 0%nat
              (FromValue (VDict [("id", VStr "7"); ("num", VStr "x")]))
              [("Num", VStr "x"); ("PartID", VInt 7)]
              eq_refl eq_refl eq_refl)
    as (_ & _ & _ & Hrun & _).
  unfold lazy_heap. rewrite Hrun. split; reflexivity.
Defined.

(** C8: the loader can be called more than once.  A loader that raises
    is called again by the next access, so two accesses call it twice. *)
Lemma lazy_loader_failure_not_cached :
  loads nat (@accesses empty_registry nat ["Num"; "Num"]
               (lazy_heap Item failing_loader)) = 2%nat
  /\ world nat (@accesses empty_registry nat ["Num"; "Num"]
                  (lazy_heap Item failing_loader)) = 2%nat
  /\ fst (@getitem empty_registry nat "Num" (lazy_heap Item failing_loader))
     = Raise (OSError "Not connected").
Proof. repeat split. Qed.

(** * Further properties of the transport *)

Import Session Views.

Section FrameBounds.

Local Open Scope Z_scope.

Lemma struct_pack_L_overflow (n : Z) :
  2 ^ 32 <= n -> struct_pack_L n = Raise StructError.
Proof.
  intros Hn. unfold struct_pack_L.
  replace (n <? 2 ^ 32) with false by (symmetry; apply Z.ltb_ge; lia).
  now rewrite andb_false_r.
Qed.

End FrameBounds.

(** X1.  [pack_message] frames every message shorter than [2 ^ 32] bytes
    as a four-byte header that decodes to the length of the message,
    followed by the message unchanged, and raises [struct.error], framing
    nothing, for every longer message. *)
Theorem pack_message_bounds (msg : list byte) :
  ((Z.of_nat (List.length msg) < 2 ^ 32)%Z ->
   exists header,
     pack_message msg = Ok (header ++ msg)
     /\ List.length header = 4%nat
     /\ struct_unpack_L header = Ok (Z.of_nat (List.length msg)))
  /\ ((2 ^ 32 <= Z.of_nat (List.length msg))%Z ->
      pack_message msg = Raise StructError).
Proof.
  split.
  - intros Hlen.
    destruct (pack_message_fits msg Hlen) as (header & _ & Hh & Hun & Hp).
    exists header. auto.
  - intros Hlen. unfold pack_message.
    now rewrite struct_pack_L_overflow.
Qed.

Section Truncated.

Lemma recv_silent (n : nat) (tail : list event) (sent : list (list byte)) :
  silent tail ->
  recv n (delivering [] tail sent)
  = (Raise SocketTimeout, delivering [] (after_stall tail) sent).
Proof.
  intros [->|(rest & ->)]; reflexivity.
Qed.

(** A header that stops short: the loop takes what there is and then
    meets the silence. *)
Lemma recv_length_short (chunks : list (list byte)) :
  forall fuel tail sent packed_length,
    partial_reads chunks -> silent tail ->
    (List.length packed_length + List.length (List.concat chunks) < 4)%nat ->
    (List.length chunks < fuel)%nat ->
    recv_length fuel (delivering chunks tail sent) packed_length
    = Some (Raise SocketTimeout, delivering [] (after_stall tail) sent).
Proof.
  induction chunks as [|c chunks IH];
    intros fuel tail sent packed Hne Hsilent Hlen Hfuel.
  - destruct fuel as [|fuel]; [cbn in Hfuel; lia|].
    cbn [recv_length].
    replace (List.length packed <? 4)%nat with true
      by (symmetry; apply Nat.ltb_lt; lia).
    now rewrite recv_silent.
  - destruct fuel as [|fuel]; [cbn in Hfuel; lia|].
    inversion Hne as [|? ? Hc Hcs]; subst.
    cbn [List.concat] in Hlen. rewrite length_app in Hlen.
    cbn [recv_length].
    replace (List.length packed <? 4)%nat with true
      by (symmetry; apply Nat.ltb_lt; lia).
    unfold recv, delivering. cbn [closed incoming map app].
    rewrite firstn_all2, skipn_all2 by lia.
    apply (IH fuel tail sent (packed ++ c)); auto.
    + rewrite length_app. lia.
    + cbn [List.length] in Hfuel. lia.
Qed.

(** A payload that stops short. *)
Lemma recv_payload_short (n : nat) : forall chunks tail sent response,
  partial_reads chunks -> silent tail ->
  (List.length (List.concat chunks) < n)%nat ->
  recv_payload n (delivering chunks tail sent) response
  = (Raise SocketTimeout, delivering [] (after_stall tail) sent).
Proof.
  induction n as [|n IH]; intros chunks tail sent response Hne Hsilent Hlen;
    [lia|].
  destruct (List.concat chunks) as [|b data] eqn:E.
  - rewrite (partial_reads_nil chunks Hne E). cbn [recv_payload].
    now rewrite recv_silent.
  - destruct (recv_partial 1 chunks tail sent)
      as (k & chunks1 & Hk & _ & Hrecv & Hne1 & Hrest & _);
      [lia | assumption | congruence |].
    assert (k = 1)%nat by lia; subst k.
    rewrite E in Hrecv, Hrest. cbn [firstn skipn] in Hrecv, Hrest.
    cbn [recv_payload]. rewrite Hrecv. cbn [ord].
    apply IH; auto. rewrite Hrest. cbn [List.length] in Hlen. lia.
Qed.

End Truncated.

(** X2.  A frame that stops short times out, and the receive cycle tells
    the two cases apart: when fewer than four header bytes arrive before
    the peer falls silent, the timeout is met with [received_length]
    false; when the header arrives and announces more payload bytes than
    follow, it is met with [received_length] true.  Either way everything
    that had arrived has been consumed. *)
Theorem truncated_frame_times_out (chunks : list (list byte))
    (tail : list event) (sent : list (list byte)) :
  partial_reads chunks -> silent tail ->
  ((List.length (List.concat chunks) < 4)%nat ->
   receive (delivering chunks tail sent)
   = Some (Raise SocketTimeout, false,
           delivering [] (after_stall tail) sent))
  /\ (forall header payload announced,
        List.concat chunks = header ++ payload ->
        List.length header = 4%nat ->
        struct_unpack_L header = Ok announced ->
        (List.length payload < Z.to_nat announced)%nat ->
        receive (delivering chunks tail sent)
        = Some (Raise SocketTimeout, true,
                delivering [] (after_stall tail) sent)).
Proof.
  intros Hne Hsilent. split.
  - intros Hshort. unfold receive.
    rewrite recv_length_short; auto.
    cbn [incoming delivering]. rewrite length_app, length_map. lia.
  - intros header payload announced Hcat Hh Hun Hshort. unfold receive.
    destruct (recv_length_partial
                (S (List.length (incoming (delivering chunks tail sent))))
                chunks tail sent [] Hne)
      as (chunks1 & Hrec & Hne1 & Hrest).
    { rewrite Hcat, length_app. cbn. lia. }
    { right. cbn [incoming delivering]. rewrite length_app, length_map. lia. }
    cbn [List.length app] in Hrec, Hrest.
    change (4 - 0)%nat with 4%nat in Hrec, Hrest.
    assert (Hfirst : firstn 4 (header ++ payload) = header)
      by (rewrite <- Hh, firstn_app, Nat.sub_diag, firstn_O, firstn_all;
          apply app_nil_r).
    assert (Hskip : skipn 4 (header ++ payload) = payload)
      by (rewrite <- Hh, skipn_app, Nat.sub_diag, skipn_all; reflexivity).
    rewrite Hcat, Hfirst in Hrec. rewrite Hcat, Hskip in Hrest.
    rewrite Hrec, Hun.
    rewrite (recv_payload_short _ chunks1 tail sent []); auto.
    now rewrite Hrest.
Qed.

Lemma truncated_frame_times_out_witness :
  receive (delivering [[x00; x00]; [x00; x05; x41]]%byte [Stall] [])
  = Some (Raise SocketTimeout, true, delivering [] [] []).
Proof.
  assert (Hne : partial_reads [[x00; x00]; [x00; x05; x41]]%byte)
    by (repeat constructor; discriminate).
  assert (Hsilent : silent [Stall]) by (right; exists []; reflexivity).
  assert (Hshort : (List.length [x41]%byte < Z.to_nat 5)%nat)
    by (vm_compute; lia).
  exact (proj2 (truncated_frame_times_out
                  [[x00; x00]; [x00; x05; x41]]%byte [Stall] [] Hne Hsilent)
               [x00; x00; x00; x05]%byte [x41]%byte 5%Z
               eq_refl eq_refl eq_refl Hshort).
Defined.

(** ** Closing *)

Section Closing.

Context `{Env}.

(** A [send_message] that returns a document ran on a connected object
    with an open socket, and changed nothing but the socket's queues. *)
Lemma send_message_ok (fuel : nat) (self : Fishbowl) (msg : list byte)
    (root : xml) (c : Fishbowl) :
  send_message fuel self msg = Some (Ok root, c) ->
  _connected self = true
  /\ closed (stream self) = false
  /\ closed (stream c) = false
  /\ c = set_stream self (stream c).
Proof.
  destruct fuel as [|fuel]; [discriminate|]. cbn [send_message].
  destruct (_connected self) eqn:Hc; cbn [negb]; [|discriminate].
  destruct (pack_message msg) as [framed|e]; [|discriminate].
  unfold send. destruct (closed (stream self)) eqn:Hcl; [discriminate|].
  match goal with |- context [receive ?s] =>
    destruct (receive s) as [[[r rl] s']|] eqn:Hr; [|discriminate];
    pose proof (receive_preserves s r rl s' Hr) as [_ Hclosed] end.
  cbn [closed] in Hclosed.
  destruct r as [response|e].
  - destruct (fromstring response); intros E; inversion E; subst.
    cbn [stream set_stream]. auto.
  - destruct e; try discriminate.
    destruct (close fuel true (set_stream self s')) as [[[[]|e] c']|];
      discriminate.
Qed.

(** [close] with a key held, once the logout exchange has returned. *)
Lemma close_after_logout (fuel : nat) (skip_errors : bool) (self : Fishbowl)
    (user : string) (root : xml) (c : Fishbowl) :
  key_truthy (key self) = true ->
  username self = Some user ->
  send_message fuel (set_key self None) (Login user "" None (task_name self))
  = Some (Ok root, c) ->
  close (S fuel) skip_errors self
  = Some (suppress skip_errors
            (_ <- check_status (find root "FbiMsgsRs") (Some "1010") false ;;
             Ok tt,
             set_stream (set_connected c false) (socket_close (stream c)))).
Proof.
  intros Hk Hu Hs. cbn [close]. rewrite Hk.
  cbn [username set_key key task_name]. rewrite Hu, Hs.
  destruct (send_message_ok _ _ _ _ _ Hs) as (Hc & _ & _ & Ec).
  cbn [disconnect]. rewrite Hk.
  replace (_connected c) with true by (rewrite Ec; symmetry; exact Hc).
  reflexivity.
Qed.

End Closing.

(** X3.  After a [close()] that returns normally the object is
    disconnected, its socket is closed and it holds no key; from then on
    [send_message] and [close()] raise [OSError("Not connected")] and
    [close(skip_errors=True)] returns, all three without sending anything
    or changing the object. *)
Theorem closed_object_refuses `{Env} (fuel : nat) (self self' : Fishbowl) :
  close fuel false self = Some (Ok tt, self') ->
  _connected self' = false
  /\ closed (stream self') = true
  /\ key_truthy (key self') = false
  /\ forall n msg,
       send_message (S n) self' msg
       = Some (Raise (OSError "Not connected"), self')
       /\ close (S n) false self'
          = Some (Raise (OSError "Not connected"), self')
       /\ close (S n) true self' = Some (Ok tt, self').
Proof.
  intros Hclose.
  assert (Hpost : _connected self' = false /\ closed (stream self') = true
                  /\ key_truthy (key self') = false).
  { destruct fuel as [|fuel]; [discriminate|].
    destruct (key_truthy (key self)) eqn:Hk.
    - cbn [close] in Hclose. rewrite Hk in Hclose.
      cbn [username set_key key task_name] in Hclose.
      destruct (username self) as [user|] eqn:Hu; [|discriminate].
      destruct (send_message fuel (set_key self None)
                  (Login user "" None (task_name self)))
        as [[[root|e] c]|] eqn:Hs; try discriminate.
      destruct (send_message_ok _ _ _ _ _ Hs) as (Hc & _ & _ & Ec).
      cbn [disconnect] in Hclose. rewrite Hk in Hclose.
      replace (_connected c) with true in Hclose
        by (rewrite Ec; symmetry; exact Hc).
      cbn [negb] in Hclose.
      destruct (check_status (find root "FbiMsgsRs") (Some "1010") false);
        cbn [bind suppress] in Hclose; [|discriminate].
      injection Hclose as <-. rewrite Ec. auto.
    - rewrite close_keyless in Hclose by assumption.
      destruct (_connected self); [|discriminate].
      injection Hclose as <-. auto. }
  destruct Hpost as (Hc & Hcl & Hk).
  split; [exact Hc|]. split; [exact Hcl|]. split; [exact Hk|].
  intros n msg. split; [|split].
  - cbn [send_message]. now rewrite Hc.
  - rewrite close_keyless by assumption. now rewrite Hc.
  - rewrite close_keyless by assumption. now rewrite Hc.
Qed.

Lemma closed_object_refuses_witness :
  @send_message example_env 1 example_logged_out [x41]
  = Some (Raise (OSError "Not connected"), example_logged_out).
Proof.
  assert (Hclose : @close example_env 2 false example_logging_out
                   = Some (Ok tt, example_logged_out))
    by (vm_compute; reflexivity).
  exact (proj1 (proj2 (proj2 (proj2
           (@closed_object_refuses example_env 2 example_logging_out
              example_logged_out Hclose)))
           0%nat [x41]%byte)).
Defined.

(** X4.  When a key is held and the logout exchange returns a document,
    [close] marks the object disconnected and closes the socket before
    it looks at the logout status: whether the [FbiMsgsRs] node carries
    status 1010 or not, and whether the error is raised or suppressed,
    the object ends disconnected, with the socket closed and the key
    cleared.  [close()] returns normally exactly when the status check
    passes, and raises the error of the status check otherwise. *)
Theorem logout_status_checked_after_closing `{Env} (fuel : nat)
    (self : Fishbowl) (user : string) (root : xml) (c : Fishbowl) :
  key_truthy (key self) = true ->
  username self = Some user ->
  send_message fuel (set_key self None) (Login user "" None (task_name self))
  = Some (Ok root, c) ->
  exists self',
    close (S fuel) false self
    = Some (match check_status (find root "FbiMsgsRs") (Some "1010") false with
            | Ok _ => Ok tt
            | Raise e => Raise e
            end, self')
    /\ close (S fuel) true self = Some (Ok tt, self')
    /\ _connected self' = false
    /\ closed (stream self') = true
    /\ key self' = None
    /\ outgoing (stream self') = outgoing (stream c).
Proof.
  intros Hk Hu Hs.
  destruct (send_message_ok _ _ _ _ _ Hs) as (_ & _ & _ & Ec).
  exists (set_stream (set_connected c false) (socket_close (stream c))).
  rewrite !(close_after_logout fuel _ self user root c Hk Hu Hs).
  split; [|split].
  - destruct (check_status (find root "FbiMsgsRs") (Some "1010") false);
      reflexivity.
  - destruct (check_status (find root "FbiMsgsRs") (Some "1010") false);
      reflexivity.
  - cbn [_connected set_stream set_connected stream socket_close closed key
         outgoing].
    repeat split. rewrite Ec. reflexivity.
Qed.

Lemma logout_status_checked_after_closing_witness :
  exists self',
    @close example_env 2 false example_logging_out = Some (Ok tt, self')
    /\ closed (stream self') = true.
Proof.
  assert (Hs : @send_message example_env 1
                 (set_key example_logging_out None)
                 (@Login example_env "admin" "" None
                    (task_name example_logging_out))
               = Some (Ok logout_reply,
                       mk_Fishbowl true None (Some "admin") None
                         (mk_socket []
                            [[x00; x00; x00; x06; x61; x64; x6d; x69; x6e;
                              x7c]] false)))
    by (vm_compute; reflexivity).
  destruct (@logout_status_checked_after_closing example_env 1
              example_logging_out "admin" logout_reply _
              eq_refl eq_refl Hs)
    as (self' & Hclose & _ & _ & Hclosed & _).
  exists self'. split; [exact Hclose | exact Hclosed].
Defined.

(** X5.  [FishbowlAPI.__exit__]: when the block raised (a traceback is
    passed) leaving it never raises and the key is cleared, and while the
    peer does not close the connection it does return; when the block
    did not raise, leaving it never raises [FishbowlTimeoutError], and
    every other error of [close()] comes through unchanged. *)
Theorem exit_suppresses_timeouts `{Env} (fuel : nat) (self : Fishbowl) :
  (forall r self',
     exit fuel true self = Some (r, self') ->
     r = Ok tt /\ key_truthy (key self') = false)
  /\ (peer_stays (stream self) ->
      exists self',
        exit (S (S (S fuel))) true self = Some (Ok tt, self')
        /\ key_truthy (key self') = false)
  /\ (forall m self', exit fuel false self
                      <> Some (Raise (FishbowlTimeoutError m), self'))
  /\ (forall m self',
        close fuel false self = Some (Raise (FishbowlTimeoutError m), self') ->
        exit fuel false self = Some (Ok tt, self'))
  /\ (forall e self',
        (forall m, e <> FishbowlTimeoutError m) ->
        close fuel false self = Some (Raise e, self') ->
        exit fuel false self = Some (Raise e, self')).
Proof.
  assert (Hpost : forall n r self',
            exit n true self = Some (r, self') ->
            r = Ok tt /\ key_truthy (key self') = false).
  { intros n r self'. unfold exit. destruct n as [|n]; [discriminate|].
    destruct (close (S n) true self) as [[r0 c]|] eqn:Hclose; [|discriminate].
    destruct (close_skip_errors_post _ _ _ _ Hclose) as (-> & Hkey & _).
    intros E; injection E as <- <-. auto. }
  split; [apply Hpost|]. split; [|split; [|split]].
  - intros Hp.
    destruct (close_skip_errors fuel self Hp) as (self' & Hclose).
    assert (Hexit : exit (S (S (S fuel))) true self = Some (Ok tt, self'))
      by (unfold exit; now rewrite Hclose).
    exists self'. split; [exact Hexit | now apply (Hpost _ _ _ Hexit)].
  - intros m self'. unfold exit.
    destruct (close fuel false self) as [[[[]|e] c]|]; try discriminate.
    destruct e; discriminate.
  - intros m self' Hclose. unfold exit. now rewrite Hclose.
  - intros e self' Hne Hclose. unfold exit. rewrite Hclose.
    destruct e; try reflexivity. now elim (Hne msg).
Qed.

(** ** Dialling *)

Section Dialling.

Lemma make_stream_refused (net : network) (retry : nat) :
  forall n first seconds,
    refused_with_text net first n -> (n <= retry)%nat ->
    make_stream net first seconds retry
    = make_stream net (first + n) (seconds + 5 * n) (retry - n).
Proof.
  induction n as [|n IH]; intros first seconds Href Hle.
  - f_equal; lia.
  - rewrite (IH first seconds); [|intros i Hi; apply Href; lia | lia].
    destruct (Href n) as (c & t & Hn); [lia|].
    destruct (retry - n)%nat as [|r] eqn:Er; [lia|].
    cbn [make_stream]. rewrite Hn.
    replace (retry - S n)%nat with r by lia.
    f_equal; lia.
Qed.

End Dialling.

(** X6.  [make_stream] keeps dialling while the connection is refused with
    an error text: when the first [n] attempts are refused, [n] is at most
    [retry] and the next attempt is accepted, it returns the socket of
    that attempt, having made [n + 1] attempts and slept five seconds
    after each refusal. *)
Theorem make_stream_retries (net : network) (first seconds retry n : nat)
    (s : socket) :
  refused_with_text net first n ->
  (n <= retry)%nat ->
  net (first + n)%nat = Accepted s ->
  make_stream net first seconds retry
  = mk_dial (Return s) (first + n + 1) (seconds + 5 * n).
Proof.
  intros Href Hle Hacc.
  rewrite (make_stream_refused net retry n first seconds Href Hle).
  destruct (retry - n)%nat; cbn [make_stream]; rewrite Hacc;
    f_equal; lia.
Qed.

Lemma make_stream_retries_witness :
  make_stream example_network 0 0 3
  = mk_dial (Return (mk_socket [] [] false)) 3 10.
Proof.
  assert (Href : refused_with_text example_network 0 2).
  { intros [|[|i]] Hi; [| |lia];
      exists "C"%char, "onnection refused"; reflexivity. }
  assert (Hle : (2 <= 3)%nat) by lia.
  exact (make_stream_retries example_network 0 0 3 2 (mk_socket [] [] false)
           Href Hle eq_refl).
Defined.

(** X7.  [make_stream] gives up after [retry + 1] refusals: it raises
    [FishbowlConnectionError] with the error text of the last attempt,
    having slept five seconds after every refusal but the last. *)
Theorem make_stream_gives_up (net : network) (first seconds retry : nat) :
  refused_with_text net first (S retry) ->
  exists c t,
    net (first + retry)%nat = Refused (Some (String c t))
    /\ make_stream net first seconds retry
       = mk_dial (Throw (FishbowlConnectionError (String c t)))
                 (first + retry + 1) (seconds + 5 * retry).
Proof.
  intros Href.
  destruct (Href retry) as (c & t & Hlast); [lia|].
  exists c, t. split; [exact Hlast|].
  rewrite (make_stream_refused net retry retry first seconds);
    [|intros i Hi; apply Href; lia | lia].
  rewrite Nat.sub_diag. cbn [make_stream]. rewrite Hlast.
  f_equal; lia.
Qed.

Lemma make_stream_gives_up_witness :
  exists c t,
    make_stream (fun _ => Refused (Some "Connection refused")) 0 0 3
    = mk_dial (Throw (FishbowlConnectionError (String c t))) 4 15.
Proof.
  assert (Href : refused_with_text
                   (fun _ => Refused (Some "Connection refused")) 0 4).
  { intros i _. exists "C"%char, "onnection refused". reflexivity. }
  destruct (make_stream_gives_up
              (fun _ => Refused (Some "Connection refused")) 0 0 3 Href)
    as (c & t & _ & Hdial).
  exists c, t. exact Hdial.
Defined.

(** X8.  A connection error that carries no error text ([strerror] is
    missing or empty, as for a connect that times out) is not retried:
    the fallback [e.message] does not exist, so [make_stream] raises
    [AttributeError] on that attempt, whatever [retry] is left, and
    without sleeping. *)
Theorem make_stream_error_without_text (net : network)
    (first seconds retry : nat) :
  net first = Refused None \/ net first = Refused (Some "") ->
  make_stream net first seconds retry
  = mk_dial (Throw (Std AttributeError)) (S first) seconds.
Proof.
  intros [Hn|Hn]; destruct retry; cbn [make_stream]; rewrite Hn; reflexivity.
Qed.

Lemma make_stream_error_without_text_witness :
  make_stream (fun _ => Refused None) 0 0 3
  = mk_dial (Throw (Std AttributeError)) 1 0.
Proof.
  exact (make_stream_error_without_text (fun _ => Refused None) 0 0 3
           (or_introl eq_refl)).
Defined.

(** ** Exchanges and simple requests *)



(** X10.  [send_request] with a response node name: when the document
    that comes back has an [FbiMsgsRs] node and, under it, the named node,
    and both pass the status check, the result is the named node itself
    with [single=False] and, with [single=True], its first child, or an
    empty placeholder element when it has no children. *)
Theorem send_request_selects `{Env} `{SessionEnv} (fuel : nat)
    (self c : Fishbowl) (req : request) (c0 : ascii) (t : string)
    (single silence_errors : bool) (root resp node : xml)
    (m1 m2 : option string) :
  _connected self = true ->
  send_message fuel self
    match req with
    | RequestName name value => SimpleRequest name value (key self)
    | RequestObject serialized => serialized
    end = Some (Ok root, c) ->
  find root "FbiMsgsRs" = Some resp ->
  check_status (Some resp) SUCCESS true = Ok m1 ->
  find resp (String c0 t) = Some node ->
  check_status (Some node) SUCCESS true = Ok m2 ->
  send_request fuel self req (Some (String c0 t)) single silence_errors
  = Some (Ok (if single
              then match children node with
                   | first :: _ => first
                   | [] => empty_element
                   end
              else node), c).
Proof.
  intros Hc Hs Hresp Hst1 Hnode Hst2.
  unfold send_request. rewrite Hc, Hs. cbn [negb].
  unfold select_response. rewrite Hresp, Hst1. cbn [bind].
  rewrite Hnode, Hst2. cbn [bind].
  destruct single; [destruct (children node)|]; reflexivity.
Qed.

Lemma send_request_selects_witness :
  @send_request example_reply_env example_session_env 1
    (mk_Fishbowl true None None None
       (delivering [frame_of example_reply_text] [] []))
    (RequestObject [x51]%byte) (Some "ExecuteQueryRs") true false
  = Some (Ok (Element "Rows" [] None [Element "Row" [] (Some "a,b") []]),
          mk_Fishbowl true None None None
            (delivering [] [] [[x00; x00; x00; x01; x51]]%byte)).
Proof.
  assert (Hs : @send_message example_reply_env 1
                 (mk_Fishbowl true None None None
                    (delivering [frame_of example_reply_text] [] []))
                 [x51]%byte
               = Some (Ok example_reply,
                       mk_Fishbowl true None None None
                         (delivering [] []
                            [[x00; x00; x00; x01; x51]]%byte)))
    by (vm_compute; reflexivity).
  exact (@send_request_selects example_reply_env example_session_env
           1 (mk_Fishbowl true None None None
                (delivering [frame_of example_reply_text] [] []))
           (mk_Fishbowl true None None None
                (delivering [] [] [[x00; x00; x00; x01; x51]]%byte))
           (RequestObject [x51]%byte) "E"%char "xecuteQueryRs" true false
           example_reply
           (Element "FbiMsgsRs" [("statusCode", "1000")] None
              [Element "ExecuteQueryRs" [("statusCode", "1000")] None
                 [Element "Rows" [] None [Element "Row" [] (Some "a,b") []]]])
           (Element "ExecuteQueryRs" [("statusCode", "1000")] None
              [Element "Rows" [] None [Element "Row" [] (Some "a,b") []]])
           (Some "1000") (Some "1000")
           eq_refl Hs eq_refl eq_refl eq_refl eq_refl).
Defined.

(** X11.  What [silence_errors] covers in [send_request].  Once the
    exchange has returned a document, the result is decided by the
    document alone.  A status check that fails, be it that of the
    [FbiMsgsRs] node or that of the named node under it, yields the empty
    placeholder element when [silence_errors] is set and raises the
    [FishbowlError] of the check otherwise; a document without an
    [FbiMsgsRs] node, or without the named node under it, raises
    [AttributeError] whether or not [silence_errors] is set; and without a
    response node name the document is returned as it is, no status being
    looked at. *)
Theorem silence_errors_scope `{Env} `{SessionEnv} (root : xml) (c : ascii)
    (t : string) (single : bool) :
  (forall fuel self self' req name silence_errors,
     send_message fuel self
       match req with
       | RequestName n value => SimpleRequest n value (key self)
       | RequestObject serialized => serialized
       end = Some (Ok root, self') ->
     send_request fuel self req name single silence_errors
     = Some (select_response root name single silence_errors, self'))
  /\ (forall m, select_response root (Some (String c t)) single true
                <> Raise (FishbowlError m))
  /\ (forall resp e,
        find root "FbiMsgsRs" = Some resp ->
        check_status (Some resp) SUCCESS true = Raise e ->
        (exists m, e = FishbowlError m)
        /\ select_response root (Some (String c t)) single true
           = Ok empty_element
        /\ select_response root (Some (String c t)) single false = Raise e)
  /\ (forall resp m1 node e,
        find root "FbiMsgsRs" = Some resp ->
        check_status (Some resp) SUCCESS true = Ok m1 ->
        find resp (String c t) = Some node ->
        check_status (Some node) SUCCESS true = Raise e ->
        (exists m, e = FishbowlError m)
        /\ select_response root (Some (String c t)) single true
           = Ok empty_element
        /\ select_response root (Some (String c t)) single false = Raise e)
  /\ (forall silence_errors,
        find root "FbiMsgsRs" = None ->
        select_response root (Some (String c t)) single silence_errors
        = Raise AttributeError)
  /\ (forall silence_errors resp m,
        find root "FbiMsgsRs" = Some resp ->
        check_status (Some resp) SUCCESS true = Ok m ->
        find resp (String c t) = None ->
        select_response root (Some (String c t)) single silence_errors
        = Raise AttributeError)
  /\ (forall silence_errors,
        select_response root None single silence_errors = Ok root
        /\ select_response root (Some "") single silence_errors = Ok root).
Proof.
  assert (Hstatus : forall node e,
            check_status (Some node) SUCCESS true = Raise e ->
            exists m, e = FishbowlError m).
  { intros node e. cbn [check_status].
    destruct (negb _ && _); intros E; inversion E; eauto. }
  split; [|split; [|split; [|split; [|split; [|split]]]]].
  - intros fuel self self' req name silence_errors Hs.
    destruct (send_message_ok _ _ _ _ _ Hs) as (Hc & _).
    unfold send_request. now rewrite Hc, Hs.
  - intros m. unfold select_response.
    destruct (find root "FbiMsgsRs") as [resp|]; [|discriminate].
    destruct (check_status (Some resp) SUCCESS true) as [m1|e] eqn:E1.
    + cbn [bind].
      destruct (find resp (String c t)) as [node|]; [|discriminate].
      destruct (check_status (Some node) SUCCESS true) as [m2|e] eqn:E2.
      * cbn [bind]. destruct single; [destruct (children node)|]; discriminate.
      * cbn [bind]. destruct e; discriminate.
    + cbn [bind]. destruct e; discriminate.
  - intros resp e Hresp Hst.
    destruct (Hstatus _ _ Hst) as (m & ->).
    split; [eauto|]. unfold select_response.
    rewrite Hresp, Hst. split; reflexivity.
  - intros resp m1 node e Hresp Hst1 Hnode Hst2.
    destruct (Hstatus _ _ Hst2) as (m & ->).
    split; [eauto|]. unfold select_response.
    rewrite Hresp, Hst1. cbn [bind]. rewrite Hnode, Hst2.
    split; reflexivity.
  - intros silence_errors Hresp. unfold select_response.
    rewrite Hresp. reflexivity.
  - intros silence_errors resp m Hresp Hst Hnode. unfold select_response.
    rewrite Hresp, Hst. cbn [bind]. rewrite Hnode. reflexivity.
  - intros silence_errors. split; reflexivity.
Qed.

(** ** Logging in *)

Section Login.

Context `{Env} `{SessionEnv}.

(** Reading the login response changes nothing but the key. *)
Lemma scan_login_state (elements : list xml) : forall self,
  snd (scan_login elements self)
  = set_key self (key (snd (scan_login elements self))).
Proof.
  induction elements as [|element rest IH]; intros self; cbn [scan_login].
  - now destruct self.
  - set (self1 := if String.eqb (tag element) "Key"
                  then set_key self (text element) else self).
    assert (E1 : forall k, set_key self1 k = set_key self k)
      by (intros k; subst self1; destruct (String.eqb (tag element) "Key");
          reflexivity).
    destruct (is_status_tag (tag element)).
    + destruct (check_status (Some element) SUCCESS true).
      * rewrite <- E1. apply IH.
      * cbn [snd]. rewrite <- E1. now destruct self1.
    + rewrite <- E1. apply IH.
Qed.

Lemma read_login_state (response : xml) (self : Fishbowl) :
  snd (read_login response self)
  = set_key self (key (snd (read_login response self)))
  /\ (is_ok (fst (read_login response self)) = true ->
      key_truthy (key (snd (read_login response self))) = true).
Proof.
  unfold read_login.
  pose proof (scan_login_state (iter response) self) as Hs.
  destruct (scan_login (iter response) self) as [[[]|e] self1];
    cbn [snd] in Hs.
  - destruct (key_truthy (key self1)) eqn:Hk; cbn [fst snd is_ok];
      split; auto; discriminate.
  - cbn [fst snd is_ok]. split; auto; discriminate.
Qed.

End Login.

(** X12.  [connect] on an object that is not connected and holds no key.
    Whenever it returns, the object is connected over an open socket,
    holds a non-empty key and records the user name; whenever it raises,
    the object holds no key.  It does return or raise while the peer of
    the socket it dialled does not close the connection (a peer that
    closes during a response header keeps the header loop of
    [send_message] spinning). *)
Theorem connect_postcondition `{Env} `{SessionEnv} (fuel : nat)
    (net : network) (self : Fishbowl) (user password : string)
    (port timeout : val) :
  _connected self = false ->
  key_truthy (key self) = false ->
  (forall r self',
     connect fuel net self user password port timeout = Some (r, self') ->
     (r = Return tt ->
      _connected self' = true
      /\ closed (stream self') = false
      /\ key_truthy (key self') = true
      /\ username self' = Some user)
     /\ (r <> Return tt -> key_truthy (key self') = false))
  /\ ((forall s, dialed (make_stream net 0 0 3) = Return s -> peer_stays s) ->
      exists r self',
        connect (S (S (S fuel))) net self user password port timeout
        = Some (r, self')).
Proof.
  intros Hc Hk. split.
  - intros r self'. unfold connect. rewrite Hc.
    destruct (py_int port) as [p|e].
    2: { intros E; injection E as <- <-. split; [discriminate | auto]. }
    destruct (float timeout) as [[]|e].
    2: { intros E; injection E as <- <-. split; [discriminate | auto]. }
    destruct (dialed (make_stream net 0 0 3)) as [s|e].
    2: { intros E; injection E as <- <-. split; [discriminate | auto]. }
    cbn [task_name set_key set_connected set_stream].
    destruct fuel as [|fuel]; [discriminate|].
    match goal with |- context [send_message _ ?s0 ?m] =>
      destruct (send_message (S fuel) s0 m) as [[r0 c]|] eqn:Hs;
      [|discriminate] end.
    destruct r0 as [response|e].
    + destruct (send_message_ok _ _ _ _ _ Hs) as (_ & _ & Hopen & Ec).
      destruct (read_login_state response c) as [Hstate Hkey].
      destruct (read_login response c) as [[[]|e] c'] eqn:Hr;
        cbn [fst snd is_ok] in Hstate, Hkey.
      * intros E; injection E as <- <-. split; [intros _ | congruence].
        rewrite Hstate, Ec. cbn. auto.
      * destruct (close (S fuel) true c') as [[r3 c3]|] eqn:Hclose;
          [|discriminate].
        destruct (close_skip_errors_post _ _ _ _ Hclose)
          as (-> & Hfalsy & _).
        intros E; injection E as <- <-. split; [discriminate | auto].
    + destruct (close (S fuel) true c) as [[r3 c3]|] eqn:Hclose;
        [|discriminate].
      destruct (close_skip_errors_post _ _ _ _ Hclose) as (-> & Hfalsy & _).
      intros E; injection E as <- <-. split; [discriminate | auto].
  - intros Hdial. unfold connect. rewrite Hc.
    destruct (py_int port) as [p|e]; [|eauto].
    destruct (float timeout) as [[]|e]; [|eauto].
    destruct (dialed (make_stream net 0 0 3)) as [s|e] eqn:Ed; [|eauto].
    specialize (Hdial s eq_refl).
    cbn [task_name set_key set_connected set_stream].
    match goal with |- context [send_message _ ?s0 ?m] =>
      destruct (send_message_keyless (S fuel) s0 m eq_refl Hdial)
        as (r0 & c & Hs);
      destruct (send_message_keyless_post _ s0 m r0 c eq_refl Hs)
        as (_ & _ & _ & _ & Hstays);
      rewrite Hs end.
    specialize (Hstays Hdial).
    destruct r0 as [response|e].
    + destruct (read_login_state response c) as [Hstate _].
      destruct (read_login response c) as [[[]|e] c'] eqn:Hr;
        cbn [fst snd] in Hstate; [eauto|].
      destruct (close_skip_errors fuel c') as (self' & ->);
        [rewrite Hstate; exact Hstays | eauto].
    + destruct (close_skip_errors fuel c Hstays) as (self' & ->). eauto.
Qed.

Lemma connect_postcondition_witness :
  exists r self',
    @connect example_env example_session_env 3 example_network
      (new_Fishbowl None) "admin" "pw" (VInt 28192) (VInt 5)
    = Some (r, self').
Proof.
  assert (Hdial : forall s,
            dialed (make_stream example_network 0 0 3) = Return s ->
            peer_stays s).
  { intros s E. vm_compute in E. injection E as <-. intros C. exact C. }
  exact (proj2 (@connect_postcondition example_env example_session_env 0
                  example_network (new_Fishbowl None) "admin" "pw"
                  (VInt 28192) (VInt 5) eq_refl eq_refl) Hdial).
Defined.

(** X13.  A login that fails after a key was read, on an object that was
    never logged in before: the clean-up [close(skip_errors=True)] clears
    the key and then fails on the missing [username] attribute, which it
    suppresses, so [connect] raises the original error and leaves the
    object marked connected with its socket open. *)
Theorem connect_failure_leaves_socket_open `{Env} `{SessionEnv} (fuel : nat)
    (net : network) (self c c' : Fishbowl) (user password : string)
    (port timeout p : val) (s : socket) (response : xml) (e : exn) :
  _connected self = false ->
  username self = None ->
  py_int port = Ok p ->
  float timeout = Ok tt ->
  dialed (make_stream net 0 0 3) = Return s ->
  send_message fuel
    (set_key (set_connected (set_stream self s) true) None)
    (LoginRequest user (password_digest password) (task_name self))
  = Some (Ok response, c) ->
  read_login response c = (Raise e, c') ->
  key_truthy (key c') = true ->
  exists self',
    connect fuel net self user password port timeout
    = Some (Throw (Std e), self')
    /\ _connected self' = true
    /\ closed (stream self') = false
    /\ key self' = None.
Proof.
  intros Hc Hu Hport Htimeout Hdial Hs Hr Hk.
  destruct (send_message_ok _ _ _ _ _ Hs) as (_ & _ & Hopen & Ec).
  destruct (read_login_state response c) as [Hstate _].
  rewrite Hr in Hstate. cbn [snd] in Hstate.
  exists (set_key c' None). unfold connect.
  rewrite Hc, Hport, Htimeout, Hdial.
  cbn [task_name set_key set_connected set_stream].
  rewrite Hs, Hr.
  destruct fuel as [|fuel]; [discriminate|].
  cbn [close]. rewrite Hk.
  assert (Hu' : username (set_key c' None) = None)
    by (rewrite Hstate, Ec; cbn; exact Hu).
  rewrite Hu'. cbn [disconnect suppress].
  split; [reflexivity|].
  rewrite Hstate, Ec. cbn. auto.
Qed.

Lemma connect_failure_leaves_socket_open_witness :
  exists self',
    @connect example_rejecting_env example_session_env 1
      (fun _ => Accepted
                  (delivering [frame_of example_rejected_login_text] [] []))
      (new_Fishbowl None) "admin" "pw" (VInt 28192) (VInt 5)
    = Some (Throw (Std (FishbowlError (Some "1120"))), self')
    /\ _connected self' = true
    /\ closed (stream self') = false.
Proof.
  assert (Hs : @send_message example_rejecting_env 1
                 (set_key
                    (set_connected
                       (set_stream (new_Fishbowl None)
                          (delivering [frame_of example_rejected_login_text]
                                      [] []))
                       true)
                    None)
                 (@LoginRequest example_session_env "admin"
                    (@password_digest example_session_env "pw")
                    (task_name (new_Fishbowl None)))
               = Some (Ok example_rejected_login,
                       mk_Fishbowl true None None None
                         (delivering [] []
                            [[x00; x00; x00; x05; x61; x64; x6d; x69;
                              x6e]]%byte)))
    by (vm_compute; reflexivity).
  destruct (@connect_failure_leaves_socket_open
              example_rejecting_env example_session_env 1
              (fun _ => Accepted
                          (delivering [frame_of example_rejected_login_text]
                                      [] []))
              (new_Fishbowl None)
              (mk_Fishbowl true None None None
                 (delivering [] []
                    [[x00; x00; x00; x05; x61; x64; x6d; x69; x6e]]%byte))
              (mk_Fishbowl true (Some "k3y") None None
                 (delivering [] []
                    [[x00; x00; x00; x05; x61; x64; x6d; x69; x6e]]%byte))
              "admin" "pw" (VInt 28192) (VInt 5) (VInt 28192)
              (delivering [frame_of example_rejected_login_text] [] [])
              example_rejected_login (FishbowlError (Some "1120"))
              eq_refl eq_refl eq_refl eq_refl eq_refl Hs eq_refl eq_refl)
    as (self' & Hconnect & Hconnected & Hopen & _).
  exists self'. auto.
Defined.

(** * Further properties of the mapper *)

Section MoreDicts.

Context {V : Type}.

Lemma dict_set_fresh (d : dict V) (k : string) (v : V) :
  ~ In k (keys d) -> dict_set d k v = d ++ [(k, v)].
Proof.
  induction d as [|[k0 v0] d IH]; cbn; intros Hk; [reflexivity|].
  destruct (String.eqb_spec k0 k) as [->|Hne]; [elim Hk; auto|].
  rewrite IH; auto.
Qed.

(** Pairs with distinct keys, none of them in [d], are appended as they
    are. *)
Lemma dict_update_fresh (pairs : list (string * V)) : forall d : dict V,
  NoDup (keys pairs) ->
  (forall k, In k (keys pairs) -> ~ In k (keys d)) ->
  dict_update d pairs = d ++ pairs.
Proof.
  unfold dict_update.
  induction pairs as [|[k v] pairs IH]; intros d Hnd Hfresh; cbn [fold_left].
  - now rewrite app_nil_r.
  - inversion Hnd as [|? ? Hk Hnd']; subst. cbn [fst snd].
    rewrite dict_set_fresh by (apply Hfresh; cbn; auto).
    rewrite IH; [now rewrite <- app_assoc | assumption |].
    intros k' Hin. unfold keys. rewrite map_app, in_app_iff. cbn.
    intros [C|[C|[]]]; [now apply (Hfresh k'); cbn; auto | congruence].
Qed.

Lemma dict_of_pairs_unique (pairs : list (string * V)) :
  NoDup (keys pairs) -> dict_of_pairs pairs = pairs.
Proof.
  intros Hnd. unfold dict_of_pairs.
  now rewrite dict_update_fresh by (auto; intros ? ? []).
Qed.

Lemma keys_dict_set (d : dict V) (k : string) (v : V) :
  keys (dict_set d k v) = if dict_mem d k then keys d else keys d ++ [k].
Proof.
  unfold dict_mem, keys.
  induction d as [|[k0 v0] d IH]; cbn; [reflexivity|].
  rewrite (String.eqb_sym k k0).
  destruct (String.eqb k0 k); cbn; [reflexivity|].
  rewrite IH. now destruct (existsb (String.eqb k) (map fst d)).
Qed.

Lemma dict_set_NoDup (d : dict V) (k : string) (v : V) :
  NoDup (keys d) -> NoDup (keys (dict_set d k v)).
Proof.
  intros Hnd. rewrite keys_dict_set.
  destruct (dict_mem d k) eqn:Hm; [assumption|].
  apply NoDup_app; [assumption | repeat constructor; intros [] |].
  intros k' Hin [<-|[]]. apply dict_mem_In in Hin. congruence.
Qed.

Lemma dict_update_NoDup (pairs : list (string * V)) : forall d : dict V,
  NoDup (keys d) -> NoDup (keys (dict_update d pairs)).
Proof.
  unfold dict_update.
  induction pairs as [|[k v] pairs IH]; intros d Hnd; cbn [fold_left];
    [assumption|].
  apply IH. now apply dict_set_NoDup.
Qed.

Lemma dict_set_In (d : dict V) (k : string) (v : V) (kv : string * V) :
  In kv (dict_set d k v) -> In kv d \/ kv = (k, v).
Proof.
  induction d as [|[k0 v0] d IH]; cbn.
  - intros [<-|[]]; auto.
  - destruct (String.eqb_spec k0 k) as [->|Hne]; cbn.
    + intros [<-|Hin]; auto.
    + intros [<-|Hin]; auto. destruct (IH Hin); auto.
Qed.

Lemma dict_update_In (pairs : list (string * V)) : forall (d : dict V) kv,
  In kv (dict_update d pairs) -> In kv d \/ In kv pairs.
Proof.
  unfold dict_update.
  induction pairs as [|[k v] pairs IH]; intros d kv; cbn [fold_left]; auto.
  intros Hin. destruct (IH _ _ Hin) as [Hd|Hp]; [|right; now right].
  destruct (dict_set_In _ _ _ _ Hd) as [Hd' | E]; [auto|].
  subst kv. right. now left.
Qed.

End MoreDicts.

Section MapperKeys.

Context `{Registry}.

Lemma items_of_keys (self : instance) (fields : schema) (k : string) :
  In k (keys (items_of self fields)) -> In k (keys fields) \/ k = "ID".
Proof.
  unfold items_of.
  destruct (attr_truthy (id_field (cls self)) && negb (dict_mem fields "ID"));
    [|auto].
  unfold keys. rewrite map_app, in_app_iff. cbn.
  intros [Hin|[<-|[]]]; auto.
Qed.

Lemma parse_mapping_keys parse (self : instance) (fields : schema)
    (data output : dict val) (k : string) :
  parse_mapping parse self fields data = Ok output ->
  In k (keys output) ->
  In k (keys fields) \/ k = "ID" \/ id_field (cls self) = Some k.
Proof.
  unfold parse_mapping.
  destruct (for_each (parse_item parse self data) (items_of self fields) [])
    as [out|e] eqn:E; cbn [bind]; [|discriminate].
  intros Eo Hin. injection Eo as <-.
  apply dict_mem_In in Hin.
  destruct (rename_id_mem _ _ _ Hin) as [Hm|Hid]; [|auto].
  destruct (for_each_mem _ _ _ _ _ _ _ E Hm) as [C|Hitems]; [discriminate|].
  destruct (items_of_keys _ _ _ Hitems); auto.
Qed.

End MapperKeys.

(** X14.  The keys of a resolved mapping come from the declaration, never
    from the source: every key [parse_fields] returns is the name of a
    field of the effective field dictionary, in its declared spelling, or
    ["ID"], or the class's [id_field] name.  This holds for an XML
    element and for Python data alike. *)
Theorem parse_fields_keys `{Registry} (self : instance) (data : source)
    (fields_arg : option schema) (fields : schema) (output : dict val)
    (k : string) :
  effective_fields self fields_arg = Ok fields ->
  parse_fields self data fields_arg = Ok output ->
  In k (keys output) ->
  In k (keys fields) \/ k = "ID" \/ id_field (cls self) = Some k.
Proof.
  intros Hf Hp Hin.
  assert (Hval : forall v, parse_value v self fields_arg = Ok output ->
            In k (keys fields) \/ k = "ID" \/ id_field (cls self) = Some k).
  { intros v Hv.
    destruct v; cbn [parse_value] in Hv;
      try (injection Hv as <-; now elim Hin);
      rewrite Hf in Hv; cbn [bind] in Hv;
      try (match type of Hv with
           | context [get_xml_data_value ?x] =>
               destruct (get_xml_data_value x) as [d0|e0];
               cbn [bind] in Hv; [|discriminate]
           end);
      eapply parse_mapping_keys; eassumption. }
  destruct data as [el|v]; cbn [parse_fields] in Hp; eapply Hval; eassumption.
Qed.

Lemma parse_fields_keys_witness :
  In "Name" (keys [("ID", PFun py_int); ("Name", PNone)])
  \/ "Name" = "ID" \/ id_field Widget = Some "Name".
Proof.
  apply (@parse_fields_keys empty_registry (mk_instance Widget None)
           (FromValue (VDict [("NAME", VStr "x"); ("extra", VStr "y")]))
           None [("ID", PFun py_int); ("Name", PNone)]
           [("Name", VStr "x")] "Name" eq_refl eq_refl).
  cbn. auto.
Defined.

Section XmlData.

(** [get_xml_data] is one dictionary assignment per child. *)
Lemma get_xml_data_eq (el : xml) :
  get_xml_data el
  = dict_of_pairs (map (fun child => (tag child, child_value child))
                       (children el)).
Proof.
  destruct el as [t a x els]. cbn [children].
  unfold dict_of_pairs, dict_update. cbn [get_xml_data].
  set (start := @nil (string * val)) at 2 3. clearbody start.
  revert start.
  induction els as [|child els IH]; intros d; cbn [fold_left map];
    [reflexivity|].
  rewrite IH. f_equal.
  destruct child as [key a' x' grandchildren].
  unfold child_value. cbn [tag children fst snd].
  destruct grandchildren as [|g gs]; [reflexivity|].
  destruct (existsb _ (g :: gs)); reflexivity.
Qed.

End XmlData.

(** X15.  [get_xml_data] keeps one entry per tag: the value stored under a
    tag is that of the last child of the element that bears the tag
    (earlier children with the same tag are overwritten), and a tag no
    child bears has no entry.  The value of a child is its text when it
    has no children, the dictionary of its own children when one of them
    has text, and otherwise a list with one single-key dictionary per
    child. *)
Theorem get_xml_data_last_child (el : xml) (k : string) :
  dict_get (get_xml_data el) k
  = option_map child_value
      (List.find (fun child => String.eqb (tag child) k) (rev (children el))).
Proof.
  rewrite get_xml_data_eq. unfold dict_of_pairs.
  rewrite dict_get_update, <- map_rev. cbn [dict_get].
  induction (rev (children el)) as [|child l IH]; cbn [map List.find fst];
    [reflexivity|].
  destruct (String.eqb (tag child) k); [reflexivity | exact IH].
Qed.

(** ** Flattening *)

Section Squash.

(** Induction on values, with the hypothesis for every value held inside
    a list, a dictionary or an object. *)
Lemma val_nested_ind (P : val -> Prop) :
  P VNone ->
  (forall b, P (VBool b)) ->
  (forall z, P (VInt z)) ->
  (forall s, P (VStr s)) ->
  (forall items, Forall P items -> P (VList items)) ->
  (forall d, Forall (fun kv => P (snd kv)) d -> P (VDict d)) ->
  (forall c m, Forall (fun kv => P (snd kv)) m -> P (VObj c m)) ->
  forall v, P v.
Proof.
  intros HN HB HI HS HL HD HO.
  fix IH 1. intros [| b | z | s | items | d | c m].
  - exact HN.
  - apply HB.
  - apply HI.
  - apply HS.
  - apply HL. induction items as [|x items IHitems]; constructor;
      [apply IH | exact IHitems].
  - apply HD. induction d as [|[k x] d IHd]; constructor;
      [apply IH | exact IHd].
  - apply HO. induction m as [|[k x] m IHm]; constructor;
      [apply IH | exact IHm].
Qed.

Lemma well_keyed_dict (d : dict val) :
  well_keyed (VDict d)
  <-> NoDup (keys d) /\ Forall (fun kv => well_keyed (snd kv)) d.
Proof.
  cbn [well_keyed]. apply and_iff_compat_l.
  induction d as [|kv d IH].
  - split; [constructor | exact (fun _ => I)].
  - split.
    + intros [Hkv Hd]. constructor; [exact Hkv | now apply IH].
    + intros Hall. inversion Hall; subst. split; [assumption | now apply IH].
Qed.

Lemma well_keyed_obj (c : string) (m : dict val) :
  well_keyed (VObj c m) <-> well_keyed (VDict m).
Proof. reflexivity. Qed.

Lemma well_keyed_list (items : list val) :
  well_keyed (VList items) <-> Forall well_keyed items.
Proof.
  cbn [well_keyed].
  induction items as [|x items IH].
  - split; [constructor | exact (fun _ => I)].
  - split.
    + intros [Hx Hitems]. constructor; [exact Hx | now apply IH].
    + intros Hall. inversion Hall; subst. split; [assumption | now apply IH].
Qed.

Lemma squash_pairs_flat (d : dict val) :
  Forall (fun kv => has_object (squash_obj (snd kv)) = false) d ->
  existsb (fun kv => has_object (snd kv))
          (dict_of_pairs
             (map (fun kv : string * val => (fst kv, squash_obj (snd kv))) d))
  = false.
Proof.
  intros Hall.
  match goal with |- ?b = false => destruct b eqn:E; [|reflexivity] end.
  apply existsb_exists in E as (kv & Hin & Hobj).
  apply dict_update_In in Hin as [[]|Hin].
  apply in_map_iff in Hin as (kv0 & <- & Hin0).
  rewrite Forall_forall in Hall. cbn [snd] in Hobj.
  rewrite (Hall kv0 Hin0) in Hobj. discriminate.
Qed.

Lemma squash_pairs_keyed (d : dict val) :
  Forall (fun kv => well_keyed (squash_obj (snd kv))) d ->
  well_keyed
    (VDict (dict_of_pairs
              (map (fun kv : string * val => (fst kv, squash_obj (snd kv)))
                   d))).
Proof.
  intros Hall. apply well_keyed_dict. split.
  - apply dict_update_NoDup. constructor.
  - apply Forall_forall. intros kv Hin.
    apply dict_update_In in Hin as [[]|Hin].
    apply in_map_iff in Hin as (kv0 & <- & Hin0).
    rewrite Forall_forall in Hall. cbn [snd]. now apply Hall.
Qed.

Lemma squash_flat (v : val) : has_object (squash_obj v) = false.
Proof.
  induction v as [| | | | items IH | d IH | c m IH] using val_nested_ind;
    try reflexivity.
  - cbn [squash_obj has_object].
    induction IH as [|x items Hx _ IHitems]; cbn; [reflexivity|].
    now rewrite Hx.
  - cbn [squash_obj has_object]. now apply squash_pairs_flat.
  - cbn [squash_obj has_object]. now apply squash_pairs_flat.
Qed.

Lemma squash_keyed (v : val) : well_keyed (squash_obj v).
Proof.
  induction v as [| | | | items IH | d IH | c m IH] using val_nested_ind;
    try exact I.
  - cbn [squash_obj]. apply well_keyed_list.
    induction IH; cbn [map]; constructor; assumption.
  - cbn [squash_obj]. now apply squash_pairs_keyed.
  - cbn [squash_obj]. now apply squash_pairs_keyed.
Qed.

(** A value without objects, its dictionaries properly keyed, is its own
    flattening. *)
Lemma squash_fixed (v : val) :
  well_keyed v -> has_object v = false -> squash_obj v = v.
Proof.
  induction v as [| | | | items IH | d IH | c m IH] using val_nested_ind;
    intros Hk Hobj; try reflexivity.
  - cbn [squash_obj]. f_equal.
    apply well_keyed_list in Hk. cbn [has_object] in Hobj.
    induction IH as [|x items Hx _ IHitems]; [reflexivity|].
    inversion Hk; subst. cbn [existsb] in Hobj.
    apply orb_false_iff in Hobj as [Hx' Hitems'].
    cbn [map]. rewrite Hx, IHitems by assumption. reflexivity.
  - cbn [squash_obj]. f_equal.
    apply well_keyed_dict in Hk as [Hnd Hall]. cbn [has_object] in Hobj.
    assert (E : map (fun kv : string * val => (fst kv, squash_obj (snd kv))) d
                = d).
    { clear Hnd.
      induction IH as [|[k x] d' Hx _ IHd]; [reflexivity|].
      inversion Hall; subst. cbn [existsb snd] in Hobj.
      apply orb_false_iff in Hobj as [Hx' Hd'].
      cbn [map fst snd] in *.
      rewrite Hx, IHd by assumption. reflexivity. }
    rewrite E. now apply dict_of_pairs_unique.
  - discriminate Hobj.
Qed.

End Squash.

(** X16.  [squash] gives plain data: the result of [squash_obj] holds no
    [FishbowlObject] at any depth, and flattening it once more changes
    nothing.  The entries of a dictionary keep their keys and their order,
    each value being flattened in its place. *)
Theorem squash_obj_plain (v : val) :
  has_object (squash_obj v) = false
  /\ squash_obj (squash_obj v) = squash_obj v
  /\ forall cls mapped,
       v = VObj cls mapped -> NoDup (keys mapped) ->
       squash_obj v
       = VDict (map (fun kv => (fst kv, squash_obj (snd kv))) mapped)
       /\ squash mapped = squash_obj v.
Proof.
  split; [apply squash_flat|].
  split; [apply squash_fixed; [apply squash_keyed | apply squash_flat]|].
  intros cls mapped -> Hnd. cbn [squash squash_obj].
  rewrite dict_of_pairs_unique; [split; reflexivity|].
  unfold keys. rewrite map_map. exact Hnd.
Qed.

(** ** Construction *)

(** X17.  [FishbowlObject.__init__] with data: passing a loader as well
    raises [AttributeError]; with data alone the data is parsed at once,
    an error of [parse_fields] leaves the constructor as it is, and the
    object built holds its mapping, so that no later access parses again
    or changes anything. *)
Theorem eager_object_never_loads `{Registry} (World : Type) (c : class)
    (data : source) (custom : option schema) (load : loader World) :
  is_none data = false ->
  init World c data (Some load) custom = Raise AttributeError
  /\ match parse_fields (mk_instance c custom) data None with
     | Raise e => init World c data None custom = Raise e
     | Ok m =>
         exists o,
           init World c data None custom = Ok o
           /\ forall w n,
                mapped World (mk_heap World o w n)
                = (Ok m, mk_heap World o w n)
                /\ forall ks,
                     accesses World ks (mk_heap World o w n)
                     = mk_heap World o w n
     end.
Proof.
  intros Hdata. unfold init. rewrite Hdata. cbn [xorb negb].
  split; [reflexivity|].
  destruct (parse_fields (mk_instance c custom) data None) as [m|e];
    cbn [bind]; [|reflexivity].
  eexists. split; [reflexivity|]. intros w n. split; [reflexivity|].
  intros ks. now apply (accesses_resolved World ks _ m).
Qed.

Lemma eager_object_never_loads_witness :
  @init empty_registry nat Widget (FromValue (VDict [("id", VStr "7")]))
    (Some counting_loader) None
  = Raise AttributeError.
Proof.
  exact (proj1 (@eager_object_never_loads empty_registry nat Widget
                  (FromValue (VDict [("id", VStr "7")])) None
                  counting_loader eq_refl)).
Defined.

(** ** Field parsers *)

(** X18.  [fishbowl_boolean] never raises on text: the result is [False]
    exactly for the empty string and for the texts that read ["0"],
    ["false"] or ["f"] in any mix of upper and lower case, and [True] for
    every other text.  A true value that is not text (a non-zero number,
    [True], a non-empty list or dictionary) has no [lower] method and
    raises [AttributeError]. *)
Theorem fishbowl_boolean_text (s : string) :
  (exists b,
     fishbowl_boolean (VStr s) = Ok (VBool b)
     /\ (b = false
         <-> s = "" \/ lower s = "0" \/ lower s = "false" \/ lower s = "f"))
  /\ (forall v, truthy v = true -> (forall t, v <> VStr t) ->
      fishbowl_boolean v = Raise AttributeError).
Proof.
  split.
  - unfold fishbowl_boolean. cbn [truthy]. rewrite negb_involutive.
    destruct (String.eqb_spec s "") as [->|Hne].
    { exists false. split; [reflexivity | tauto]. }
    destruct (String.eqb_spec (lower s) "0") as [E0|N0]; cbn [orb].
    { exists false. split; [reflexivity | tauto]. }
    destruct (String.eqb_spec (lower s) "false") as [E1|N1]; cbn [orb].
    { exists false. split; [reflexivity | tauto]. }
    destruct (String.eqb_spec (lower s) "f") as [E2|N2].
    { exists false. split; [reflexivity | tauto]. }
    exists true. split; [reflexivity|].
    split; [discriminate | intros [C|[C|[C|C]]]; contradiction].
  - intros v Hv Hns. unfold fishbowl_boolean. rewrite Hv. cbn [negb].
    destruct v; try reflexivity. now elim (Hns s0).
Qed.

(** ** Structured fields *)

Section Structured.

Context `{Registry}.

(** An item of a list-valued field that is text: the placeholder is
    passed over, any other text has no [items] method. *)
Lemma resolve_item_text parse (classes : dict class) (s : string)
    (new_value : list val) :
  resolve_item parse classes (VStr s) new_value
  = if String.eqb s "{}" then Ok new_value else Raise AttributeError.
Proof.
  destruct s as [|[[] [] [] [] [] [] [] []] s]; try reflexivity.
  destruct s as [|[[] [] [] [] [] [] [] []] s]; try reflexivity.
  destruct s; reflexivity.
Qed.


(** The field list the loop runs over extends the declared one. *)
Lemma items_of_extends (self : instance) (fields : schema) :
  exists synthesized, items_of self fields = fields ++ synthesized.
Proof.
  unfold items_of.
  destruct (attr_truthy (id_field (cls self)) && negb (dict_mem fields "ID")).
  - eexists. reflexivity.
  - exists []. now rewrite app_nil_r.
Qed.

(** Text under a class-valued field does not build an object. *)
Lemma construct_text (c : class) (a : ascii) (s : string) :
  construct (fun v i f => parse_value v i f) c (VStr (String a s))
  = Raise AttributeError.
Proof.
  unfold construct. cbn [parse_value].
  unfold effective_fields. cbn [cls custom_fields].
  destruct (fields c); reflexivity.
Qed.

End Structured.

(** X19.  A failure under a list-valued field is not swallowed.  When the
    source holds text other than the placeholder ["{}"] for a field whose
    parser is a list of classes, and the fields declared before it
    resolve, [parse_fields] raises [AttributeError] (text has no [items]
    method): the object cannot be built, where a failing scalar parser
    would only have dropped its field. *)
Theorem list_field_text_raises `{Registry} (self : instance)
    (fields_arg : option schema) (data : dict val) (before after : schema)
    (field_name : string) (classes : list class) (s : string)
    (output : dict val) :
  effective_fields self fields_arg
  = Ok (before ++ (field_name, PList classes) :: after) ->
  map_items self data before [] = Ok output ->
  source_value data field_name = Some (VStr s) ->
  s <> "{}" ->
  parse_fields self (FromValue (VDict data)) fields_arg
  = Raise AttributeError.
Proof.
  intros Hf Hbefore Hv Hs.
  rewrite (parse_fields_dict _ _ _ _ Hf).
  destruct (items_of_extends self
              (before ++ (field_name, PList classes) :: after))
    as (synthesized & ->).
  unfold map_items in *.
  rewrite <- app_assoc, for_each_app, Hbefore. cbn [bind app for_each].
  rewrite parse_item_source, Hv.
  cbn [resolve_field]. unfold resolve_list. rewrite resolve_item_text.
  destruct (String.eqb_spec s "{}") as [E|_]; [contradiction | reflexivity].
Qed.

Lemma list_field_text_raises_witness :
  @parse_fields empty_registry (mk_instance Order None)
    (FromValue (VDict [("ID", VStr "7"); ("Tags", VStr "urgent")])) None
  = Raise AttributeError.
Proof.
  assert (Hs : "urgent"%string <> "{}"%string) by discriminate.
  exact (@list_field_text_raises empty_registry (mk_instance Order None) None
           [("ID", VStr "7"); ("Tags", VStr "urgent")]
           [("ID", PFun py_int); ("Owner", PClass Widget)]
           [("Unit", PDict [("Name", PNone)])]
           "Tags" [] "urgent" [("ID", VInt 7)]
           eq_refl eq_refl eq_refl Hs).
Defined.

(** X20.  A failure under a class-valued field is swallowed.  When
    building the object of a class-valued field raises, the field is
    omitted and the loop goes on as if the field had not been declared;
    this is what happens whenever the source holds non-empty text for the
    field, whatever the class. *)
Theorem class_field_failure_omitted `{Registry} (self : instance)
    (data : dict val) (field_name : string) (c : class) (value : val)
    (e : exn) :
  source_value data field_name = Some value ->
  construct (fun v i f => parse_value v i f) c value = Raise e ->
  (forall items_before items_after output,
     map_items self data
       (items_before ++ (field_name, PClass c) :: items_after) output
     = map_items self data (items_before ++ items_after) output)
  /\ (forall a s c',
        construct (fun v i f => parse_value v i f) c' (VStr (String a s))
        = Raise AttributeError).
Proof.
  intros Hv Hc. split; [|intros; apply construct_text].
  intros items_before items_after output. unfold map_items.
  rewrite !for_each_app.
  destruct (for_each _ items_before output) as [out|e0]; cbn [bind];
    [|reflexivity].
  cbn [for_each]. rewrite parse_item_source, Hv.
  cbn [resolve_field]. rewrite Hc. reflexivity.
Qed.

Lemma class_field_failure_omitted_witness :
  @parse_fields empty_registry (mk_instance Order None)
    (FromValue (VDict [("ID", VStr "7"); ("Owner", VStr "bob")])) None
  = Ok [("OrderID", VInt 7)].
Proof.
  pose proof (proj1 (@class_field_failure_omitted empty_registry
                       (mk_instance Order None)
                       [("ID", VStr "7"); ("Owner", VStr "bob")]
                       "Owner" Widget (VStr "bob") AttributeError
                       eq_refl eq_refl)
                    [("ID", PFun py_int)]
                    [("Tags", PList []); ("Unit", PDict [("Name", PNone)])]
                    []) as Hskip.
  cbn [parse_fields parse_value effective_fields Order cls fields
       custom_fields bind].
  unfold parse_mapping.
  change (items_of (mk_instance Order None) _)
    with ([("ID", PFun py_int)]
          ++ ("Owner", PClass Widget)
          :: [("Tags", PList []); ("Unit", PDict [("Name", PNone)])]).
  unfold map_items in Hskip. rewrite Hskip. reflexivity.
Defined.


(** X22.  A nested field dictionary is resolved by the object itself: the
    value stored for the field is what [parse_fields] of the same object
    returns for the nested data and the nested field dictionary, so the
    class's [id_field] is applied inside the nested dictionary as well.
    Of a list only the first item is looked at. *)
Theorem nested_field_resolved_by_same_object `{Registry} (self : instance)
    (data inner : dict val) (field_name : string) (nested : schema)
    (value : val) (output : dict val) :
  source_value data field_name = Some value ->
  (value = VDict inner /\ inner <> [])
  \/ (exists rest, value = VList (VDict inner :: rest)) ->
  map_items self data [(field_name, PDict nested)] output
  = (r <- parse_fields self (FromValue (VDict inner)) (Some nested) ;;
     Ok (dict_set output field_name (VDict r))).
Proof.
  intros Hv Hvalue. unfold map_items. cbn [for_each].
  rewrite parse_item_source, Hv. cbn [resolve_field parse_fields].
  destruct Hvalue as [[-> Hne]|(rest & ->)].
  - destruct inner as [|kv inner]; [now elim Hne|].
    cbn [truthy List.length Nat.eqb negb resolve_nested].
    destruct (parse_value (VDict (kv :: inner)) self (Some nested));
      reflexivity.
  - cbn [truthy List.length Nat.eqb negb resolve_nested].
    destruct (parse_value (VDict inner) self (Some nested)); reflexivity.
Qed.

Lemma nested_field_resolved_by_same_object_witness :
  @map_items empty_registry (mk_instance Order None)
    [("Unit", VDict [("ID", VStr "3"); ("Name", VStr "ea")])]
    [("Unit", PDict [("Name", PNone)])] []
  = Ok [("Unit", VDict [("Name", VStr "ea"); ("OrderID", VInt 3)])].
Proof.
  assert (Hne : [("ID", VStr "3"); ("Name", VStr "ea")] <> @nil (string * val))
    by discriminate.
  exact (@nested_field_resolved_by_same_object empty_registry
           (mk_instance Order None)
           [("Unit", VDict [("ID", VStr "3"); ("Name", VStr "ea")])]
           [("ID", VStr "3"); ("Name", VStr "ea")]
           "Unit" [("Name", PNone)]
           (VDict [("ID", VStr "3"); ("Name", VStr "ea")]) []
           eq_refl (or_introl (conj eq_refl Hne))).
Defined.

Section CustomFields.

Lemma keys_dict_update {V} (pairs : list (string * V)) : forall d : dict V,
  exists added,
    keys (dict_update d pairs) = keys d ++ added
    /\ forall k, In k added -> In k (keys pairs) /\ ~ In k (keys d).
Proof.
  unfold dict_update.
  induction pairs as [|[k v] pairs IH]; intros d; cbn [fold_left fst snd].
  - exists []. split; [now rewrite app_nil_r | intros ? []].
  - destruct (IH (dict_set d k v)) as (added & Hkeys & Hadded).
    rewrite Hkeys, keys_dict_set.
    rewrite keys_dict_set in Hadded.
    destruct (dict_mem d k) eqn:Hm.
    + exists added. split; [reflexivity|].
      intros k' Hin. destruct (Hadded k' Hin). split; [now right | assumption].
    + exists (k :: added). split; [now rewrite <- app_assoc|].
      intros k' [<-|Hin].
      * split; [now left|]. intros C. apply dict_mem_In in C. congruence.
      * destruct (Hadded k' Hin) as [Hp Hd]. split; [now right|].
        intros C. apply Hd. apply in_or_app. now left.
Qed.

End CustomFields.

(** X23.  Custom fields extend the class's field dictionary without
    reordering it: in the field dictionary [parse_fields] works with, a
    name the custom fields mention has the parser of its last mention,
    every other name has the class's parser; the class's fields keep
    their positions and the names new with the custom fields follow them. *)
Theorem custom_fields_override (self : instance) (declared custom : schema) :
  fields (cls self) = Some declared ->
  custom_fields self = Some custom ->
  exists effective,
    effective_fields self None = Ok effective
    /\ (forall k,
          dict_get effective k
          = match List.find (fun kv => String.eqb (fst kv) k) (rev custom) with
            | Some kv => Some (snd kv)
            | None => dict_get declared k
            end)
    /\ exists added,
         keys effective = keys declared ++ added
         /\ forall k, In k added ->
                      In k (keys custom) /\ ~ In k (keys declared).
Proof.
  intros Hf Hc. unfold effective_fields. rewrite Hf, Hc.
  destruct custom as [|c cs].
  - exists declared. split; [reflexivity|]. split; [reflexivity|].
    exists []. split; [now rewrite app_nil_r | intros ? []].
  - exists (dict_update declared (c :: cs)). split; [reflexivity|].
    split; [intros k; apply dict_get_update|].
    apply keys_dict_update.
Qed.

Lemma custom_fields_override_witness :
  exists effective,
    effective_fields
      (mk_instance Widget (Some [("Name", PFun py_int); ("Extra", PNone)]))
      None = Ok effective
    /\ keys effective = ["ID"; "Name"; "Extra"].
Proof.
  destruct (custom_fields_override
              (mk_instance Widget
                 (Some [("Name", PFun py_int); ("Extra", PNone)]))
              [("ID", PFun py_int); ("Name", PNone)]
              [("Name", PFun py_int); ("Extra", PNone)] eq_refl eq_refl)
    as (effective & Heff & _).
  exists effective. split; [exact Heff|].
  cbn in Heff. injection Heff as <-. reflexivity.
Defined.

(** * Requests that check a status of their own *)

Section Checked.

Context `{Env} `{SessionEnv}.

Lemma check_each_ok (elements : list xml) :
  for_each (fun element (_ : unit) =>
              _ <- check_status (Some element) SUCCESS true ;; Ok tt)
           elements tt = Ok tt
  <-> forall el, In el elements ->
                 is_ok (check_status (Some el) SUCCESS true) = true.
Proof.
  induction elements as [|el rest IH]; cbn [for_each].
  - split; [intros _ ? [] | reflexivity].
  - destruct (check_status (Some el) SUCCESS true) as [m|e] eqn:E;
      cbn [bind].
    + rewrite IH. split.
      * intros Hrest el' [<-|Hin]; [now rewrite E | now apply Hrest].
      * intros Hall el' Hin. apply Hall. now right.
    + split; [discriminate|].
      intros Hall. specialize (Hall el (or_introl eq_refl)).
      rewrite E in Hall. discriminate.
Qed.

Lemma check_each_first_failure (passing : list xml) (el : xml)
    (rest : list xml) (e : exn) :
  (forall x, In x passing ->
             is_ok (check_status (Some x) SUCCESS true) = true) ->
  check_status (Some el) SUCCESS true = Raise e ->
  for_each (fun element (_ : unit) =>
              _ <- check_status (Some element) SUCCESS true ;; Ok tt)
           (passing ++ el :: rest) tt = Raise e.
Proof.
  intros Hpass Hel.
  induction passing as [|x passing IH]; cbn [app for_each].
  - rewrite Hel. reflexivity.
  - pose proof (Hpass x (or_introl eq_refl)) as Hx.
    destruct (check_status (Some x) SUCCESS true); [|discriminate].
    cbn [bind]. apply IH. intros y Hy. apply Hpass. now right.
Qed.

Lemma send_checked_spec (fuel : nat) (self c : Fishbowl)
    (request : list byte) (rs : string) (response : xml) :
  send_message fuel self request = Some (Ok response, c) ->
  (send_checked fuel self request rs = Some (Ok tt, c)
   <-> forall el, In el (iter response) -> tag el = rs ->
                  is_ok (check_status (Some el) SUCCESS true) = true)
  /\ (forall passing el rest e,
        iter_tag response rs = passing ++ el :: rest ->
        (forall x, In x passing ->
                   is_ok (check_status (Some x) SUCCESS true) = true) ->
        check_status (Some el) SUCCESS true = Raise e ->
        send_checked fuel self request rs = Some (Raise e, c)).
Proof.
  intros Hs.
  destruct (send_message_ok _ _ _ _ _ Hs) as (Hc & _).
  unfold send_checked. rewrite Hc, Hs. cbn [negb]. split.
  - split.
    + intros E el Hin Htag.
      assert (Hok : for_each
                (fun element (_ : unit) =>
                   _ <- check_status (Some element) SUCCESS true ;; Ok tt)
                (iter_tag response rs) tt = Ok tt).
      { destruct (for_each _ (iter_tag response rs) tt) as [[]|e];
          [reflexivity | discriminate]. }
      apply (proj1 (check_each_ok _) Hok).
      apply filter_In. split; [assumption | now apply String.eqb_eq].
    + intros Hall.
      rewrite (proj2 (check_each_ok (iter_tag response rs))); [reflexivity|].
      intros el Hin. apply filter_In in Hin as [Hin Htag].
      apply Hall; [assumption | now apply String.eqb_eq].
  - intros passing el rest e -> Hpass E.
    now rewrite (check_each_first_failure passing el rest e Hpass E).
Qed.

End Checked.

(** X24.  [add_inventory] and [cycle_inventory] look at the status of
    their own response elements only.  Once the exchange has returned a
    document, [add_inventory] returns normally exactly when every
    [AddInventoryRs] element of the document passes the status check,
    and otherwise raises the error of the first such element, in document
    order, that does not; a document without such an element is
    accepted, whatever status its other nodes carry.  [cycle_inventory]
    does the same with [CycleCountRs]. *)
Theorem inventory_requests_check_own_status `{Env} `{SessionEnv}
    (fuel : nat) (self c : Fishbowl) (request : option string -> list byte)
    (response : xml) :
  send_message fuel self (request (key self)) = Some (Ok response, c) ->
  ((add_inventory fuel self request = Some (Ok tt, c)
    <-> forall el, In el (iter response) -> tag el = "AddInventoryRs" ->
                   is_ok (check_status (Some el) SUCCESS true) = true)
   /\ (forall passing el rest e,
         iter_tag response "AddInventoryRs" = passing ++ el :: rest ->
         (forall x, In x passing ->
                    is_ok (check_status (Some x) SUCCESS true) = true) ->
         check_status (Some el) SUCCESS true = Raise e ->
         add_inventory fuel self request = Some (Raise e, c))
   /\ (iter_tag response "AddInventoryRs" = [] ->
       add_inventory fuel self request = Some (Ok tt, c)))
  /\ ((cycle_inventory fuel self request = Some (Ok tt, c)
       <-> forall el, In el (iter response) -> tag el = "CycleCountRs" ->
                      is_ok (check_status (Some el) SUCCESS true) = true)
      /\ (forall passing el rest e,
            iter_tag response "CycleCountRs" = passing ++ el :: rest ->
            (forall x, In x passing ->
                       is_ok (check_status (Some x) SUCCESS true) = true) ->
            check_status (Some el) SUCCESS true = Raise e ->
            cycle_inventory fuel self request = Some (Raise e, c))
      /\ (iter_tag response "CycleCountRs" = [] ->
          cycle_inventory fuel self request = Some (Ok tt, c))).
Proof.
  intros Hs.
  assert (Hnone : forall rs,
            iter_tag response rs = [] ->
            forall el, In el (iter response) -> tag el = rs ->
                       is_ok (check_status (Some el) SUCCESS true) = true).
  { intros rs Hempty el Hin Htag.
    assert (Hel : In el (iter_tag response rs))
      by (apply filter_In; split; [assumption | now apply String.eqb_eq]).
    rewrite Hempty in Hel. destruct Hel. }
  destruct (send_checked_spec fuel self c (request (key self))
              "AddInventoryRs" response Hs) as [Hadd Hadd_first].
  destruct (send_checked_spec fuel self c (request (key self))
              "CycleCountRs" response Hs) as [Hcycle Hcycle_first].
  split; (split; [assumption|]; split; [assumption|]).
  - intros Hempty. apply Hadd. now apply Hnone.
  - intros Hempty. apply Hcycle. now apply Hnone.
Qed.

Lemma inventory_requests_check_own_status_witness :
  @add_inventory example_rejecting_env example_session_env 1
    (mk_Fishbowl true (Some "k3y") (Some "admin") None
       (delivering [frame_of example_rejected_login_text] [] []))
    (fun _ => [x51]%byte)
  = Some (Ok tt,
          mk_Fishbowl true (Some "k3y") (Some "admin") None
            (delivering [] [] [[x00; x00; x00; x01; x51]]%byte)).
Proof.
  assert (Hs : @send_message example_rejecting_env 1
                 (mk_Fishbowl true (Some "k3y") (Some "admin") None
                    (delivering [frame_of example_rejected_login_text]
                                [] []))
                 [x51]%byte
               = Some (Ok example_rejected_login,
                       mk_Fishbowl true (Some "k3y") (Some "admin") None
                         (delivering [] []
                            [[x00; x00; x00; x01; x51]]%byte)))
    by (vm_compute; reflexivity).
  exact (proj2 (proj2 (proj1
           (@inventory_requests_check_own_status
              example_rejecting_env example_session_env 1
              (mk_Fishbowl true (Some "k3y") (Some "admin") None
                 (delivering [frame_of example_rejected_login_text] [] []))
              (mk_Fishbowl true (Some "k3y") (Some "admin") None
                 (delivering [] [] [[x00; x00; x00; x01; x51]]%byte))
              (fun _ => [x51]%byte) example_rejected_login Hs)))
           eq_refl).
Defined.

(** * A silenced error behind a lazy object *)

Section EmptyElement.

Context `{Registry}.

Lemma map_items_no_data (self : instance) (items : list (string * parser)) :
  forall output, map_items self [] items output = Ok output.
Proof.
  unfold map_items.
  induction items as [|[field_name p] items IH]; intros output;
    [reflexivity|].
  cbn [for_each]. rewrite parse_item_source. cbn. apply IH.
Qed.

Lemma rename_id_empty (self : instance) : rename_id self [] = [].
Proof.
  unfold rename_id. destruct (id_field (cls self)) as [[|c t]|]; reflexivity.
Qed.

Lemma parse_fields_empty_element (self : instance) (declared : schema) :
  effective_fields self None = Ok declared ->
  parse_fields self (FromXml empty_element) None = Ok [].
Proof.
  intros Hf. cbn [parse_fields empty_element get_xml_data fold_left].
  change (parse_fields self (FromValue (VDict [])) None = Ok []).
  rewrite (parse_fields_dict _ _ _ _ Hf), map_items_no_data. cbn [bind].
  now rewrite rename_id_empty.
Qed.

End EmptyElement.

(** X25.  The empty placeholder element that [send_request] returns for
    a silenced error carries no data: an object that loads lazily from it
    resolves, on first access, to the empty mapping, which is stored like
    any other, so the object is false, every key lookup raises [KeyError]
    and the request is not made again. *)
Theorem silenced_error_gives_empty_object `{Registry} (World : Type)
    (h : heap World) (load : loader World) (w : World) (declared : schema) :
  _mapped World (obj World h) = None ->
  _lazy_load World (obj World h) = Some load ->
  load (world World h) = (Ok (FromXml empty_element), w) ->
  effective_fields (self_ World (obj World h)) None = Ok declared ->
  let h' := mk_heap World
              (mk_FishbowlObject World (self_ World (obj World h))
                                 (Some load) (Some []))
              w (S (loads World h)) in
  mapped World h = (Ok [], h')
  /\ truthy (VObj (name (cls (self_ World (obj World h)))) []) = false
  /\ forall k ks,
       getitem World k h' = (Raise KeyError, h')
       /\ accesses World ks h' = h'.
Proof.
  intros Hm Hl Hload Hf h'.
  pose proof (parse_fields_empty_element _ _ Hf) as Hparse.
  split; [|split; [reflexivity|]].
  - unfold mapped. rewrite Hm, Hl, Hload. cbn [obj loads].
    rewrite Hparse, Hl. reflexivity.
  - intros k ks. split.
    + now rewrite (getitem_resolved World h' [] k eq_refl).
    + now apply (accesses_resolved World ks h' []).
Qed.

Lemma silenced_error_gives_empty_object_witness :
  @mapped empty_registry nat
    (lazy_heap Widget (fun n => (Ok (FromXml empty_element), S n)))
  = (Ok [],
     mk_heap nat
       (mk_FishbowlObject nat (mk_instance Widget None)
          (Some (fun n => (Ok (FromXml empty_element), S n))) (Some []))
       1 1).
Proof.
  exact (proj1 (@silenced_error_gives_empty_object empty_registry nat
                  (lazy_heap Widget
                     (fun n => (Ok (FromXml empty_element), S n)))
                  (fun n => (Ok (FromXml empty_element), S n)) 1
                  [("ID", PFun py_int); ("Name", PNone)]
                  eq_refl eq_refl eq_refl eq_refl)).
Defined.

(** * Timeouts and closing peers *)

(** X26.  What a timeout of the receive cycle leaves behind.  When
    [send_message] returns after a read timed out, it has run
    [close(skip_errors=True)], which returned normally and cleared the
    key, and it raises [FishbowlTimeoutError] with the message chosen by
    whether the four length bytes had arrived; the two messages differ.
    The object is left disconnected with its socket closed when it held
    no key and, when it held one, exactly when the logout exchange
    returned a document or timed out in turn; a missing [username] or
    any other error of the logout exchange is suppressed before the
    socket is reached and leaves the object connected, its socket open.
    While the peer does not close the connection the call does return. *)
Theorem timeout_closes_unless_logout_fails `{Env} (fuel : nat)
    (self : Fishbowl) (msg framed : list byte) (s s' : socket)
    (received_length : bool) :
  _connected self = true ->
  pack_message msg = Ok framed ->
  send framed (stream self) = (Ok tt, s) ->
  receive s = Some (Raise SocketTimeout, received_length, s') ->
  (forall r self',
     send_message (S (S fuel)) self msg = Some (r, self') ->
     r = Raise (FishbowlTimeoutError (timeout_msg received_length))
     /\ close (S fuel) true (set_stream self s') = Some (Ok tt, self')
     /\ key_truthy (key self') = false
     /\ if key_truthy (key self) then
          match username self with
          | None => self' = set_key (set_stream self s') None
          | Some user =>
              exists r2 c,
                send_message fuel (set_key (set_stream self s') None)
                  (Login user "" None (task_name self)) = Some (r2, c)
                /\ if is_ok r2
                      || match r2 with
                         | Raise (FishbowlTimeoutError _) => true
                         | _ => false
                         end
                   then _connected self' = false
                        /\ closed (stream self') = true
                   else self' = c /\ _connected self' = true
                        /\ closed (stream self') = false
          end
        else _connected self' = false /\ closed (stream self') = true)
  /\ (exists r1 s1,
        recv_length (S (List.length (incoming s))) s [] = Some (r1, s1)
        /\ received_length = is_ok r1)
  /\ timeout_msg false <> timeout_msg true
  /\ (peer_stays (stream self) ->
      exists self',
        send_message (S (S (S (S fuel)))) self msg
        = Some (Raise (FishbowlTimeoutError (timeout_msg received_length)),
                self')).
Proof.
  intros Hc Hp Hs Hr.
  assert (Hopen : closed (stream self) = false /\ closed s' = false
                  /\ (peer_stays (stream self) -> peer_stays s')).
  { unfold send in Hs. destruct (closed (stream self)) eqn:Hcl;
      [discriminate|]. injection Hs as <-.
    destruct (receive_preserves _ _ _ _ Hr) as [_ Hcl'].
    pose proof (receive_stays _ _ _ _ Hr) as Hst.
    cbn [closed] in Hcl'. auto. }
  destruct Hopen as (_ & Hopen & Hstays).
  split; [|split; [|split; [discriminate|]]].
  - intros r self'. cbn [send_message]. rewrite Hc, Hp, Hs, Hr. cbn [negb].
    destruct (close (S fuel) true (set_stream self s'))
      as [[r0 c0]|] eqn:Hclose; [|discriminate].
    destruct (close_skip_errors_post _ _ _ _ Hclose)
      as (-> & Hkey & _ & Hstate).
    intros E; injection E as <- <-.
    split; [reflexivity|]. split; [reflexivity|]. split; [exact Hkey|].
    apply Hstate; [exact Hc | exact Hopen].
  - unfold receive in Hr.
    destruct (recv_length (S (List.length (incoming s))) s [])
      as [[[packed|e] s1]|]; try discriminate.
    + destruct (struct_unpack_L packed) as [len|e] eqn:Eu.
      * destruct (recv_payload _ s1 []) as [r2 s2].
        injection Hr as _ <- _. eauto.
      * destruct packed as [|b0 [|b1 [|b2 [|b3 [|b4 packed]]]]];
          inversion Eu; subst; discriminate.
    + injection Hr as _ <- _. eauto.
  - intros Hp0.
    destruct (close_skip_errors fuel (set_stream self s') (Hstays Hp0))
      as (self' & Hclose).
    exists self'. cbn [send_message]. rewrite Hc, Hp, Hs, Hr. cbn [negb].
    now rewrite Hclose.
Qed.

Lemma timeout_closes_unless_logout_fails_witness :
  exists self',
    @send_message example_env 4 example_short_reply [x42]
    = Some (Raise (FishbowlTimeoutError
                     "Connection timeout (after length received)"), self')
    /\ _connected self' = false /\ closed (stream self') = true.
Proof.
  assert (Hsend : send [x00; x00; x00; x01; x42] (stream example_short_reply)
                  = (Ok tt,
                     mk_socket [Chunk [x00; x00; x00; x02; x41]]
                               [[x00; x00; x00; x01; x42]] false))
    by reflexivity.
  assert (Hreceive : receive (mk_socket [Chunk [x00; x00; x00; x02; x41]]
                                        [[x00; x00; x00; x01; x42]] false)
                     = Some (Raise SocketTimeout, true,
                             mk_socket [] [[x00; x00; x00; x01; x42]] false))
    by (vm_compute; reflexivity).
  assert (Hpack : pack_message [x42] = Ok [x00; x00; x00; x01; x42])
    by (vm_compute; reflexivity).
  assert (Hstays : peer_stays (stream example_short_reply))
    by (intros [C|[]]; discriminate C).
  destruct (@timeout_closes_unless_logout_fails example_env 0
              example_short_reply [x42] [x00; x00; x00; x01; x42]
              _ _ true eq_refl Hpack Hsend Hreceive)
    as (_ & _ & _ & Hreturns).
  destruct (Hreturns Hstays) as (self' & Hrun).
  destruct (@timeout_closes_unless_logout_fails example_env 2
              example_short_reply [x42] [x00; x00; x00; x01; x42]
              _ _ true eq_refl Hpack Hsend Hreceive)
    as (Hpost & _).
  destruct (Hpost _ self' Hrun) as (_ & _ & _ & Hstate).
  exists self'. split; [exact Hrun | exact Hstate].
Defined.

Section ClosingPeer.

(** Once the peer has closed, a header loop that still lacks bytes takes
    nothing in and does not end, whatever the count. *)
Lemma recv_length_eof (rest : list event) (sent : list (list byte))
    (fuel : nat) : forall packed_length,
  (List.length packed_length < 4)%nat ->
  recv_length fuel (delivering [] (Eof :: rest) sent) packed_length = None.
Proof.
  induction fuel as [|fuel IH]; intros packed Hlen; cbn [recv_length];
    replace (List.length packed <? 4)%nat with true
      by (symmetry; apply Nat.ltb_lt; lia);
    [reflexivity|].
  cbn [recv delivering closed incoming map app].
  rewrite app_nil_r. now apply IH.
Qed.

Lemma recv_length_closed (rest : list event) (sent : list (list byte))
    (chunks : list (list byte)) : forall fuel packed_length,
  partial_reads chunks ->
  (List.length packed_length + List.length (List.concat chunks) < 4)%nat ->
  recv_length fuel (delivering chunks (Eof :: rest) sent) packed_length
  = None.
Proof.
  induction chunks as [|c chunks IH]; intros fuel packed Hne Hlen.
  - apply recv_length_eof. lia.
  - inversion Hne as [|? ? Hc Hcs]; subst.
    cbn [List.concat] in Hlen. rewrite length_app in Hlen.
    destruct fuel as [|fuel]; cbn [recv_length];
      replace (List.length packed <? 4)%nat with true
        by (symmetry; apply Nat.ltb_lt; lia);
      [reflexivity|].
    unfold recv, delivering. cbn [closed incoming map app].
    rewrite firstn_all2, skipn_all2 by lia.
    apply (IH fuel (packed ++ c)); auto.
    rewrite length_app. lia.
Qed.

(** A payload loop that meets the closed peer gets no byte, and [ord]
    fails on it. *)
Lemma recv_payload_closed (rest : list event) (sent : list (list byte))
    (n : nat) : forall chunks response,
  partial_reads chunks ->
  (List.length (List.concat chunks) < n)%nat ->
  recv_payload n (delivering chunks (Eof :: rest) sent) response
  = (Raise TypeError, delivering [] (Eof :: rest) sent).
Proof.
  induction n as [|n IH]; intros chunks response Hne Hlen; [lia|].
  destruct (List.concat chunks) as [|b data] eqn:E.
  - rewrite (partial_reads_nil chunks Hne E). reflexivity.
  - destruct (recv_partial 1 chunks (Eof :: rest) sent)
      as (k & chunks1 & Hk & _ & Hrecv & Hne1 & Hrest & _);
      [lia | assumption | congruence |].
    assert (k = 1)%nat by lia; subst k.
    rewrite E in Hrecv, Hrest. cbn [firstn skipn] in Hrecv, Hrest.
    cbn [recv_payload]. rewrite Hrecv. cbn [ord].
    apply IH; auto. rewrite Hrest. cbn [List.length] in Hlen. lia.
Qed.

End ClosingPeer.

(** X27.  A peer that closes the connection.  When it closes before the
    four header bytes have arrived, every further [recv] returns no bytes
    and the header loop of [send_message] never ends: the call does not
    return, whatever bound is put on the iterations.  When it closes
    after the header but before the announced payload is complete,
    [ord] fails on the empty read: [send_message] raises [TypeError],
    which is not a timeout, so nothing is closed and the object stays
    connected. *)
Theorem closing_peer `{Env} (self : Fishbowl) (msg framed : list byte)
    (chunks : list (list byte)) (rest : list event)
    (sent : list (list byte)) :
  _connected self = true ->
  stream self = delivering chunks (Eof :: rest) sent ->
  pack_message msg = Ok framed ->
  partial_reads chunks ->
  ((List.length (List.concat chunks) < 4)%nat ->
   (forall fuel,
      recv_length fuel (delivering chunks (Eof :: rest) (sent ++ [framed])) []
      = None)
   /\ forall fuel, send_message fuel self msg = None)
  /\ (forall header payload announced fuel,
        List.concat chunks = header ++ payload ->
        List.length header = 4%nat ->
        struct_unpack_L header = Ok announced ->
        (List.length payload < Z.to_nat announced)%nat ->
        send_message (S fuel) self msg
        = Some (Raise TypeError,
                set_stream self
                  (delivering [] (Eof :: rest) (sent ++ [framed])))).
Proof.
  intros Hc Hs Hp Hne.
  assert (Hsend : send framed (stream self)
                  = (Ok tt,
                     delivering chunks (Eof :: rest) (sent ++ [framed])))
    by (rewrite Hs; reflexivity).
  split.
  - intros Hshort.
    assert (Hloop : forall fuel,
              recv_length fuel
                (delivering chunks (Eof :: rest) (sent ++ [framed])) []
              = None)
      by (intros fuel; apply recv_length_closed; [assumption | cbn; lia]).
    split; [exact Hloop|].
    intros [|fuel]; [reflexivity|]. cbn [send_message].
    rewrite Hc, Hp, Hsend. cbn [negb]. unfold receive. now rewrite Hloop.
  - intros header payload announced fuel Hcat Hh Hun Hshort.
    cbn [send_message]. rewrite Hc, Hp, Hsend. cbn [negb]. unfold receive.
    destruct (recv_length_partial
                (S (List.length
                      (incoming (delivering chunks (Eof :: rest)
                                            (sent ++ [framed])))))
                chunks (Eof :: rest) (sent ++ [framed]) [] Hne)
      as (chunks1 & Hrec & Hne1 & Hrest).
    { rewrite Hcat, length_app. cbn. lia. }
    { right. cbn [incoming delivering]. rewrite length_app, length_map.
      cbn [List.length]. lia. }
    cbn [List.length app] in Hrec, Hrest.
    change (4 - 0)%nat with 4%nat in Hrec, Hrest.
    assert (Hfirst : firstn 4 (header ++ payload) = header)
      by (rewrite <- Hh, firstn_app, Nat.sub_diag, firstn_O, firstn_all;
          apply app_nil_r).
    assert (Hskip : skipn 4 (header ++ payload) = payload)
      by (rewrite <- Hh, skipn_app, Nat.sub_diag, skipn_all; reflexivity).
    rewrite Hcat, Hfirst in Hrec. rewrite Hcat, Hskip in Hrest.
    rewrite Hrec, Hun.
    rewrite (recv_payload_closed rest (sent ++ [framed]) _ chunks1 []);
      [reflexivity | assumption | now rewrite Hrest].
Qed.

Lemma closing_peer_witness :
  @send_message example_env 1000
    (mk_Fishbowl true None None None
       (delivering [[x00; x00]]%byte [Eof] []))
    [x42]%byte
  = None.
Proof.
  assert (Hne : partial_reads [[x00; x00]]%byte)
    by (repeat constructor; discriminate).
  assert (Hpack : pack_message [x42] = Ok [x00; x00; x00; x01; x42])
    by (vm_compute; reflexivity).
  assert (Hshort : (List.length (List.concat [[x00; x00]]%byte) < 4)%nat)
    by (vm_compute; lia).
  exact (proj2 (proj1 (@closing_peer example_env
                         (mk_Fishbowl true None None None
                            (delivering [[x00; x00]]%byte [Eof] []))
                         [x42]%byte [x00; x00; x00; x01; x42]%byte
                         [[x00; x00]]%byte [] [] eq_refl eq_refl Hpack Hne)
                      Hshort) 1000%nat).
Defined.
